(** * VolumeRendererCL: a shallow embedding of the render core

    The development follows the OpenCL kernels of
    [src/kernel/volumeraycast.cl] and [src/kernel/random.cl] and the host
    class [VolumeRenderCL] ([src/core/volumerendercl.cpp], the revision
    with grouped kernel-argument structs).

    Conventions of the embedding:
    - a [float] is a real number of [R]: rounding, infinities and NaN are
      outside the model, and a division by zero has Rocq's value;
    - [uint]/[unsigned int] values are integers of [Z], reduced modulo
      [2^32] wherever the code can wrap around;
    - an image argument of a kernel is the function its sampler reads;
    - C++ exceptions are results: an operation returns the object as the
      throw leaves it, together with the exception or the value;
    - calls into the OpenCL runtime (context, image and kernel-argument
      calls) are taken to succeed. *)

From Stdlib Require Import ZArith List Bool Lia Reals Lra.
From Stdlib Require Import Strings.String Strings.Byte.
Import ListNotations.

Open Scope Z_scope.

(** ** Machine integers *)

Definition wrap32 (z : Z) : Z := z mod 2 ^ 32.

Definition UINT_MAX : Z := 4294967295.

(** ** Host side: transfer function prefix sum *)

Module Tff.

(** [std::partial_sum] over a [std::vector<unsigned int>], in place: the
    accumulator has the element type, so each sum is reduced modulo 2^32. *)
Fixpoint partial_sum_from (acc : Z) (l : list Z) : list Z :=
  match l with
  | [] => []
  | x :: r => let s := wrap32 (acc + x) in s :: partial_sum_from s r
  end.

Definition partial_sum (l : list Z) : list Z :=
  match l with
  | [] => []
  | x :: r => x :: partial_sum_from x r
  end.

(** The loop [for (i = 3; i < tff.size(); i += 4) push_back(tff.at(i))]:
    the alpha byte of every complete RGBA entry. *)
Fixpoint alphas (tff : list byte) : list Z :=
  match tff with
  | _ :: _ :: _ :: a :: r => Z.of_N (Byte.to_N a) :: alphas r
  | _ => []
  end.

(** The vector handed to [setTffPrefixSum] by [setTransferFunction]. *)
Definition prefixSum (tff : list byte) : list Z := partial_sum (alphas tff).



End Tff.

(** ** random.cl: the counter-based integer hash *)

Module RNG.

(** [ParallelRNG] on a 32-bit [unsigned int]: the two multiplications and
    the left shift wrap around. *)
Definition ParallelRNG (x : Z) : Z :=
  let value := x in
  let value := Z.lxor (Z.lxor value 61) (Z.shiftr value 16) in
  let value := wrap32 (value * 9) in
  let value := Z.lxor value (wrap32 (Z.shiftl value 4)) in
  let value := wrap32 (value * 668265261) in    (* 0x27d4eb2d *)
  let value := Z.lxor value (Z.shiftr value 15) in
  value.

Definition ParallelRNG2 (x y : Z) : Z :=
  let value := ParallelRNG x in
  ParallelRNG (Z.lxor y value).

Definition ParallelRNG3 (x y z : Z) : Z :=
  let value := ParallelRNG x in
  let value := ParallelRNG (Z.lxor y value) in
  ParallelRNG (Z.lxor z value).

(** [(float)(v) / (float)(UINT_MAX)] *)
Definition mapUintFloat (v : Z) : R := (IZR v / IZR UINT_MAX)%R.

End RNG.

(** ** OpenCL C vector types and built-ins used by the kernels *)

Module CL.

Open Scope R_scope.

Record float3 := mk3 { fx : R; fy : R; fz : R }.
Record float4 := mk4 { x4 : R; y4 : R; z4 : R; w4 : R }.
Record int3 := mki3 { ix : Z; iy : Z; iz : Z }.

Definition splat3 (a : R) : float3 := mk3 a a a.
Definition xyz (v : float4) : float3 := mk3 (x4 v) (y4 v) (z4 v).
Definition with_xyz (v : float4) (c : float3) : float4 :=
  mk4 (fx c) (fy c) (fz c) (w4 v).
Definition with_w (v : float4) (a : R) : float4 := mk4 (x4 v) (y4 v) (z4 v) a.

Definition map3 (f : R -> R) (a : float3) : float3 :=
  mk3 (f (fx a)) (f (fy a)) (f (fz a)).
Definition zip3 (f : R -> R -> R) (a b : float3) : float3 :=
  mk3 (f (fx a) (fx b)) (f (fy a) (fy b)) (f (fz a) (fz b)).

Definition add3 := zip3 Rplus.
Definition sub3 := zip3 Rminus.
Definition mul3 := zip3 Rmult.
Definition div3 := zip3 Rdiv.
Definition min3 := zip3 Rmin.
Definition max3 := zip3 Rmax.
Definition scale3 (v : float3) (k : R) : float3 := map3 (fun c => c * k) v.
Definition neg3 := map3 Ropp.
Definition neg4 (v : float4) : float4 :=
  mk4 (- x4 v) (- y4 v) (- z4 v) (- w4 v).
Definition dot3 (a b : float3) : R := fx a * fx b + fy a * fy b + fz a * fz b.
Definition length3 (a : float3) : R := sqrt (dot3 a a).

Definition convert_float3 (c : int3) : float3 :=
  mk3 (IZR (ix c)) (IZR (iy c)) (IZR (iz c)).

(** Comparisons of floats as booleans. *)
Definition Rltb (a b : R) : bool := if Rlt_dec a b then true else false.
Definition Rleb (a b : R) : bool := if Rle_dec a b then true else false.

(** [native_powr(x, y)] for a base [x >= 0]: [x^y], with [powr(0, y) = 0]. *)
Definition native_powr (x y : R) : R :=
  if Req_dec_T x 0 then 0 else Rpower x y.

(** [clamp(x, lo, hi) = min(max(x, lo), hi)] *)
Definition clamp (x lo hi : R) : R := Rmin (Rmax x lo) hi.
Definition clampZ (x lo hi : Z) : Z := Z.min (Z.max x lo) hi.

(** [sign(x)], already converted to [int]. *)
Definition sign (x : R) : Z :=
  if Rlt_dec 0 x then 1%Z else if Rlt_dec x 0 then (-1)%Z else 0%Z.

(** [select(a, b, c)] on vector components: [b] where the most significant
    bit of the 32-bit [c] is set, [a] elsewhere. *)
Definition select {A : Type} (a b : A) (c : Z) : A :=
  if Z.testbit (wrap32 c) 31 then b else a.

Definition FLT_EPSILON : R := / 8388608.                      (* 2^-23 *)
Definition FLT_MAX : R := (2 - / 8388608) * IZR (2 ^ 127).

(** A nonzero [uint] kernel argument used as a condition. *)
Definition truthy (flag : Z) : bool := negb (flag =? 0)%Z.

Inductive channel_order := CLK_R | CLK_RG | CLK_RGBA | CLK_ARGB | CLK_BGRA.

End CL.

(** ** volumeraycast.cl *)

Module Kernel.

Import CL.
Open Scope R_scope.

Definition ERT_THRESHOLD : R := 98 / 100.

(** The image arguments of [volumeRender], each as the value its reads
    return: [volDataLinear p] is
    [read_imagef(volData, linearSmp, (float4)(p, 1.f))], [volBrickData c] the
    [.xy] of [read_imagef(volBrickData, (int4)(c, 0))], [tffData d] is
    [read_imagef(tffData, linearSmp, d)], [tffPrefix d] the [.x] of
    [read_imageui(tffPrefix, linearSmp, d)], [inHitImg x y] the [.x] of
    [read_imageui(inHitImg, (int2)(x, y))] and [inAccumulate x y] is
    [read_imagef(inAccumulate, nearestIntSmp, (int2)(x, y))]. *)
Record Scene := {
  volDataLinear : float3 -> float4;
  volDataNearest : float3 -> float4;
  volOrder : channel_order;
  volRes : int3;
  volBrickData : int3 -> R * R;
  bricksRes : int3;
  tffData : R -> float4;
  tffPrefix : R -> Z;
  inHitImg : Z -> Z -> Z;
  inAccumulate : Z -> Z -> float4
}.

(** The gradient, shading and ambient-occlusion helpers of the kernel file.
    They only feed the colour channels of a sample; the embedding keeps them
    as functions of the sample position.  [calcAO] is given the normal, the
    position, the step size and the radius. *)
Record Shaders := {
  gradientCentralDiff : float3 -> float4;
  gradientCentralDiffTff : float3 -> float4;
  gradientSobel : float3 -> float4;
  illumination : float3 -> float3 -> float3 -> float3 -> float3;
  celShading : float3 -> float3 -> float3 -> float3;
  calcAO : float3 -> float3 -> R -> R -> R
}.

(** The scalar arguments of [volumeRender] read after ray generation. *)
Record Args := {
  samplingRate : R;
  illumType : Z;
  showEss : Z;
  useLinear : Z;
  background : float4;
  useAO : Z;
  contours : Z;
  aerial : Z;
  imgEss : Z;
  seed : Z;
  iteration : Z
}.

(** One work item once its view ray is set up (lines 577-617): pixel and
    work-group coordinates, ray origin and normalised direction, and the
    jitter [rand] in [0,1]. *)
Record WorkItem := {
  texCoords : Z * Z;
  groupId : Z * Z;
  camPos : float3;
  rayDir : float3;
  rand : R
}.

(** [in_volume]: inside the open cube (-1,1)^3. *)
Definition in_volume (pos : float3) : bool :=
  Rltb (Rmax (Rabs (fx pos)) (Rmax (Rabs (fy pos)) (Rabs (fz pos)))) 1.

(** [intersectBox]: returns [(hit, tnear, tfar)]. *)
Definition intersectBox (rayOrig rayDir : float3) : bool * R * R :=
  let invRay := div3 (splat3 1) rayDir in
  let tBot := mul3 invRay (sub3 (splat3 (-1)) rayOrig) in
  let tTop := mul3 invRay (sub3 (splat3 1) rayOrig) in
  let tMin := min3 tTop tBot in
  let tMax := max3 tTop tBot in
  let maxTmin := Rmax (Rmax (fx tMin) (fy tMin)) (Rmax (fx tMin) (fz tMin)) in
  let minTmax := Rmin (Rmin (fx tMax) (fy tMax)) (Rmin (fx tMax) (fz tMax)) in
  (Rltb maxTmin minTmax, maxTmin, minTmax).

(** [checkBoundingBox]: the border-edge test of the ESS display. *)
Definition checkBoundingBox (pos voxLen : float3) (b0 b1 : R) : bool :=
  let lt := Rltb in
  let gt a b := Rltb b a in
  (lt (fx pos) (fx voxLen) && lt (fz pos) (b0 + fz voxLen)) ||
  (lt (fx pos) (fx voxLen) && lt (fy pos) (fy voxLen)) ||
  (lt (fy pos) (fy voxLen) && lt (fz pos) (b0 + fz voxLen)) ||
  (gt (fx pos) (1 - fx voxLen) && lt (fz pos) (b0 + fz voxLen)) ||
  (gt (fy pos) (1 - fy voxLen) && lt (fz pos) (b0 + fz voxLen)) ||
  (gt (fx pos) (1 - fx voxLen) && gt (fz pos) (b1 - fz voxLen)) ||
  (gt (fy pos) (1 - fy voxLen) && gt (fz pos) (b1 - fz voxLen)) ||
  (lt (fx pos) (fx voxLen) && gt (fz pos) (b1 - fz voxLen)) ||
  (lt (fy pos) (fy voxLen) && gt (fz pos) (b1 - fz voxLen)) ||
  (gt (fx pos) (1 - fx voxLen) && lt (fy pos) (fy voxLen)) ||
  (gt (fx pos) (1 - fx voxLen) && gt (fy pos) (1 - fy voxLen)) ||
  (lt (fx pos) (fx voxLen) && gt (fy pos) (1 - fy voxLen)).

(** *** Path tracing: free-flight sampling *)

Definition get_extinction (sc : Scene) (max_extinction : R) (pos : float3) : R :=
  let samplePos := add3 (scale3 pos (1/2)) (splat3 (1/2)) in
  max_extinction * x4 (volDataLinear sc samplePos).

(** What [sample_interaction] leaves behind: its return value, [*ray_pos],
    [*colorOut] and the final value of [cnt]. *)
Record Interaction := {
  interacts : bool;
  ray_pos_out : float3;
  colorOut : float4;
  cnt_out : Z
}.

(** The [do ... while] loop of [sample_interaction]; [cnt] and [t] are the
    loop variables, [None] means the fuel ran out. *)
Fixpoint sample_loop (sc : Scene) (rand : Z) (ray_pos ray_dir : float3)
    (max_extinction : R) (color0 : float4) (fuel : nat) (cnt : Z) (t : R)
    : option Interaction :=
  match fuel with
  | O => None
  | S fuel' =>
      let cnt := wrap32 (cnt + 1) in
      let rand2 := RNG.ParallelRNG rand in
      let t := t - ln (1 - RNG.mapUintFloat rand2) / max_extinction in
      let pos := add3 ray_pos (scale3 ray_dir t) in
      if negb (in_volume pos) then
        Some {| interacts := false; ray_pos_out := ray_pos;
                colorOut := color0; cnt_out := cnt |}
      else
        let sample := get_extinction sc max_extinction pos in
        let sample := w4 (tffData sc (sample / max_extinction)) in
        if (512 <? cnt)%Z then
          Some {| interacts := false; ray_pos_out := ray_pos;
                  colorOut := color0; cnt_out := cnt |}
        else if Rltb sample (RNG.mapUintFloat rand) then
          sample_loop sc rand ray_pos ray_dir max_extinction color0 fuel' cnt t
        else
          Some {| interacts := true; ray_pos_out := pos;
                  colorOut := tffData sc sample; cnt_out := cnt |}
  end.

(** Fuel that the loop can never use up: the counter stops it. *)
Definition sample_fuel : nat := 513.

Definition sample_interaction (sc : Scene) (rand : Z) (ray_pos ray_dir : float3)
    (max_extinction : R) (color0 : float4) : option Interaction :=
  sample_loop sc rand ray_pos ray_dir max_extinction color0 sample_fuel 0%Z 0.

Definition scatter_ray (sh : Shaders) (ray_pos ray_dir : float3)
    (color : float4) : float3 :=
  let samplePos := add3 (scale3 ray_pos (1/2)) (splat3 (1/2)) in
  let gradient := neg4 (gradientCentralDiffTff sh samplePos) in
  illumination sh samplePos (xyz color) (neg3 ray_dir) (xyz gradient).

(** [trace_volume]: the first pass through the [do] body always leaves the
    function, by [break] after a scatter event (weight [w = 1]) or by the
    [return] of the environment colour. *)
Definition trace_volume (sc : Scene) (sh : Shaders) (rand : Z)
    (ray_pos ray_dir : float3) (t0 max_extinction : R) : option float3 :=
  let ray_pos := add3 ray_pos (scale3 ray_dir t0) in
  let color := mk4 1 1 1 1 in
  match sample_interaction sc rand ray_pos ray_dir max_extinction color with
  | None => None
  | Some i =>
      if interacts i then
        Some (scale3 (scatter_ray sh (ray_pos_out i) ray_dir (colorOut i)) 1)
      else Some (splat3 1)
  end.

(** *** Progressive accumulation (lines 640-650) *)

(** The pixel written to [outAccumulate]: [prevCol] is the [.xyz] read from
    [inAccumulate], [col] the new sample; [iteration + 1] is a [uint] sum. *)
Definition accumulate (iteration : Z) (prevCol col : float3) : float4 :=
  if (iteration =? 0)%Z then with_xyz (mk4 0 0 0 1) col
  else
    let n1 := IZR (wrap32 (iteration + 1)) in
    let col := add3 prevCol (div3 (sub3 col prevCol) (splat3 n1)) in
    with_xyz (mk4 0 0 0 1) col.

(** *** Direct volume ray casting (lines 659-845)

    The code after the path-tracing block: the loop nest of the kernel is a
    transition system over the loop variables, one transition per test of
    a loop condition.  [ess] tells whether the program is built with
    [-DESS].  The kernel file defines [PATH_TRACE] just above the
    path-tracing block, which ends in [return]; the ray caster embedded
    here is what a work item runs when that define is absent. *)

(** Values fixed before the loops start. *)
Record RaySetup := {
  tnear : R;                  (* after [tnear = max(0.f, tnear)] *)
  tfar : R;
  sampleDist : R;
  stepSize : R;
  offset : R;
  voxLen : float3;
  refSamplingInterval : R;
  step : int3;                (* 3D DDA, only read under ESS *)
  deltaT : float3;
  exit : int3;
  brickDia : R
}.

(** The variables the loops update. *)
Record RayState := {
  t : R;
  t_exit : R;
  result : float4;
  alpha : R;
  pos : float3;
  tfColor : float4;
  cell : int3;
  tv : float3
}.

(** Where control stands: at the test of the brick loop, at the test of
    the sampling loop, behind the sampling loop, or behind both. *)
Inductive Phase := Outer | Inner | After | Done.

Definition approxEq (a b : R) : Z :=
  if Rlt_dec (Rabs (a - b)) FLT_EPSILON then 1%Z else 0%Z.


(** [exit < (int3)(0)] on vectors. *)
Definition islessZ (a b : Z) : Z := if (a <? b)%Z then (-1)%Z else 0%Z.

Definition setup (sc : Scene) (a : Args) (wi : WorkItem) (tnear0 tfar0 : R)
    : RaySetup :=
  let sampleDist := tfar0 - tnear0 in
  let volResF := convert_float3 (volRes sc) in
  let stepSize :=
    Rmin sampleDist
         (sampleDist /
          (samplingRate a *
           length3 (mul3 (scale3 (rayDir wi) sampleDist) volResF))) in
  let samples := IZR (Zceil (sampleDist / stepSize)) in
  let stepSize := sampleDist / samples in
  let offset := stepSize * rand wi * (9 / 10) in
  let tnear := Rmax 0 tnear0 in
  let voxLen := div3 (splat3 1) volResF in
  let refSamplingInterval := 1 / samplingRate a in
  (* 3D DDA initialization *)
  let bRes := bricksRes sc in
  let brickLen := div3 (splat3 1) (convert_float3 bRes) in
  let d := rayDir wi in
  let step :=
    mki3 (select (sign (fx d)) 1%Z (approxEq (fx d) 0))
         (select (sign (fy d)) 1%Z (approxEq (fy d) 0))
         (select (sign (fz d)) 1%Z (approxEq (fz d) 0)) in
  let invRay := div3 (splat3 1) d in
  let invRay :=
    mk3 (select (fx invRay) FLT_MAX (approxEq (fx d) 0))
        (select (fy invRay) FLT_MAX (approxEq (fy d) 0))
        (select (fz invRay) FLT_MAX (approxEq (fz d) 0)) in
  let deltaT :=
    mul3 (convert_float3 step) (mul3 (scale3 brickLen 2) invRay) in
  let ex := mki3 (ix step * ix bRes) (iy step * iy bRes) (iz step * iz bRes) in
  let ex := mki3 (select (ix ex) (-1)%Z (islessZ (ix ex) 0))
                 (select (iy ex) (-1)%Z (islessZ (iy ex) 0))
                 (select (iz ex) (-1)%Z (islessZ (iz ex) 0)) in
  {| tnear := tnear; tfar := tfar0; sampleDist := sampleDist;
     stepSize := stepSize; offset := offset; voxLen := voxLen;
     refSamplingInterval := refSamplingInterval;
     step := step; deltaT := deltaT; exit := ex;
     brickDia := length3 brickLen * 2 |}.


(** Lines 747-801: the colour and opacity of the sample at [pos];
    [prev] is the value [tfColor] holds from the sample before. *)
Definition classify (sc : Scene) (sh : Shaders) (a : Args) (wi : WorkItem)
    (pos : float3) (prev : float4) : float4 :=
  let vol p :=
    if truthy (useLinear a) then volDataLinear sc p else volDataNearest sc p in
  let gradient := mk4 0 0 0 0 in
  if (illumType a =? 4)%Z then
    let gradient := neg4 (gradientCentralDiff sh pos) in
    tffData sc (- w4 gradient)
  else
    match volOrder sc with
    | CLK_R =>
        let density := x4 (vol pos) in
        let tfColor := tffData sc density in
        let '(tfColor, gradient) :=
          if Rltb (1 / 10) (w4 tfColor) && truthy (illumType a) then
            let gradient :=
              if (illumType a =? 1)%Z then neg4 (gradientCentralDiff sh pos)
              else if (illumType a =? 2)%Z then
                neg4 (gradientCentralDiffTff sh pos)
              else if (illumType a =? 3)%Z then neg4 (gradientSobel sh pos)
              else gradient in
            if (illumType a =? 5)%Z then
              let gradient := neg4 (gradientCentralDiff sh pos) in
              (with_xyz tfColor
                 (celShading sh (xyz tfColor) (neg3 (rayDir wi)) (xyz gradient)),
               gradient)
            else
              (with_xyz tfColor
                 (illumination sh pos (xyz tfColor) (neg3 (rayDir wi))
                    (xyz gradient)),
               gradient)
          else (tfColor, gradient) in
        if Rltb (1 / 10) (w4 tfColor) && truthy (contours a) then
          let gradient :=
            if negb (truthy (illumType a)) then
              neg4 (gradientCentralDiff sh pos)
            else gradient in
          with_xyz tfColor
            (scale3 (xyz tfColor) (Rabs (dot3 (rayDir wi) (xyz gradient))))
        else tfColor
    | CLK_RGBA => vol pos
    | CLK_RG =>
        let tfColor := vol pos in
        let density := Rabs (y4 tfColor / 1) in
        mk4 (x4 tfColor) 0 (z4 tfColor) (w4 (tffData sc density))
    | _ => prev
    end.

(** Lines 744-807: [pos] and [tfColor] as the compositing lines find them. *)
Definition samplePos (wi : WorkItem) (su : RaySetup) (t : R) : float3 :=
  let pos := add3 (camPos wi) (scale3 (rayDir wi) (t - offset su)) in
  add3 (scale3 pos (1/2)) (splat3 (1/2)).

Definition sampleColor (sc : Scene) (sh : Shaders) (a : Args) (wi : WorkItem)
    (su : RaySetup) (t : R) (prev : float4) : float4 :=
  let tfColor := classify sc sh a wi (samplePos wi su t) prev in
  let tfColor := with_xyz tfColor (sub3 (xyz (background a)) (xyz tfColor)) in
  if truthy (aerial a) then
    let depthCue := 1 - (t - tnear su) / sampleDist su in
    with_w tfColor (w4 tfColor * depthCue)
  else tfColor.

(** Line 810. *)
Definition opacityOf (su : RaySetup) (sampleAlpha : R) : R :=
  1 - native_powr (1 - sampleAlpha) (refSamplingInterval su).

(** Lines 811-812: one front-to-back compositing step. *)
Definition composite (su : RaySetup) (tfColor : float4) (st : RayState)
    : RayState :=
  let opacity := opacityOf su (w4 tfColor) in
  {| t := t st; t_exit := t_exit st;
     result :=
       with_xyz (result st)
         (sub3 (xyz (result st))
               (scale3 (scale3 (xyz tfColor) opacity) (1 - alpha st)));
     alpha := alpha st + opacity * (1 - alpha st);
     pos := pos st; tfColor := tfColor; cell := cell st; tv := tv st |}.

Definition set_t (st : RayState) (t' : R) : RayState :=
  {| t := t'; t_exit := t_exit st; result := result st; alpha := alpha st;
     pos := pos st; tfColor := tfColor st; cell := cell st; tv := tv st |}.

Definition set_pos (st : RayState) (p : float3) : RayState :=
  {| t := t st; t_exit := t_exit st; result := result st; alpha := alpha st;
     pos := p; tfColor := tfColor st; cell := cell st; tv := tv st |}.

Definition set_result (st : RayState) (r : float4) : RayState :=
  {| t := t st; t_exit := t_exit st; result := r; alpha := alpha st;
     pos := pos st; tfColor := tfColor st; cell := cell st; tv := tv st |}.

(** Lines 727-738: the brick is skipped when the transfer function is
    transparent at the brick's largest density and the alpha prefix sums at
    its smallest and largest density agree. *)
Definition brickSkipped (sc : Scene) (minMaxDensity : R * R) : bool :=
  let alphaMax := w4 (tffData sc (snd minMaxDensity)) in
  if Rltb alphaMax (1 / 1000000) then
    let prefixMin := tffPrefix sc (fst minMaxDensity) in
    let prefixMax := tffPrefix sc (snd minMaxDensity) in
    (prefixMin =? prefixMax)%Z
  else false.

(** Lines 713-739: one test of [while (t < tfar)] and, when it holds, the
    brick bookkeeping up to the skip decision. *)
Definition outer_step (sc : Scene) (su : RaySetup) (st : RayState)
    : Phase * RayState :=
  if Rltb (t st) (tfar su) then
    let minMaxDensity := volBrickData sc (cell st) in
    let v := tv st in
    let ind (b : bool) : R := if b then 1 else 0 in
    let voxIncr :=
      mk3 (ind (Rleb (fx v) (fy v) && Rleb (fx v) (fz v)))
          (ind (Rleb (fy v) (fx v) && Rleb (fy v) (fz v)))
          (ind (Rleb (fz v) (fx v) && Rleb (fz v) (fy v))) in
    let indZ (b : bool) : Z := if b then 1%Z else 0%Z in
    let cell' :=
      mki3 (ix (cell st)
            + indZ (Rleb (fx v) (fy v) && Rleb (fx v) (fz v)) * ix (step su))
           (iy (cell st)
            + indZ (Rleb (fy v) (fx v) && Rleb (fy v) (fz v)) * iy (step su))
           (iz (cell st)
            + indZ (Rleb (fz v) (fx v) && Rleb (fz v) (fy v)) * iz (step su)) in
    let t_exit' := dot3 (splat3 1) (mul3 v voxIncr) in
    let t_exit' := clamp t_exit' (t st + stepSize su) (t st + brickDia su) in
    let tv' := add3 v (mul3 voxIncr (deltaT su)) in
    let st' :=
      {| t := t st; t_exit := t_exit'; result := result st;
         alpha := alpha st; pos := pos st; tfColor := tfColor st;
         cell := cell'; tv := tv' |} in
    if brickSkipped sc minMaxDensity then (Outer, set_t st' t_exit')
    else (Inner, st')
  else (Done, st).

(** Lines 742-826: one test of [while (t < t_exit)] and, when it holds, one
    sample. *)
Definition inner_step (sc : Scene) (sh : Shaders) (a : Args) (wi : WorkItem)
    (su : RaySetup) (st : RayState) : Phase * RayState :=
  if Rltb (t st) (t_exit st) then
    let p := samplePos wi su (t st) in
    let c := sampleColor sc sh a wi su (t st) (tfColor st) in
    let st := composite su c (set_pos st p) in
    if Rleb (tfar su) (t st) then (After, st)
    else if Rltb ERT_THRESHOLD (alpha st) then
      if truthy (useAO a) then
        let n := neg3 (xyz (gradientCentralDiff sh p)) in
        let ao :=
          calcAO sh n p (length3 (voxLen su) * (9 / 10))
                 (length3 (voxLen su) * 5) in
        (After,
         set_result st
           (with_xyz (result st)
              (scale3 (xyz (result st)) (1 - (1 / 2) * ao))))
      else (After, st)
    else (Inner, set_t st (t st + stepSize su))
  else (After, st).

(** Lines 827-832 under ESS; without ESS the sampling loop is the last. *)
Definition after_step (ess : bool) (su : RaySetup) (st : RayState)
    : Phase * RayState :=
  if ess then
    if Rleb (tfar su) (t st) || Rltb ERT_THRESHOLD (alpha st) then (Done, st)
    else if (ix (cell st) =? ix (exit su))%Z || (iy (cell st) =? iy (exit su))%Z
            || (iz (cell st) =? iz (exit su))%Z then (Done, st)
    else (Outer, set_t st (t_exit st))
  else (Done, st).

Definition ray_step (ess : bool) (sc : Scene) (sh : Shaders) (a : Args)
    (wi : WorkItem) (su : RaySetup) (c : Phase * RayState) : Phase * RayState :=
  match fst c with
  | Outer => outer_step sc su (snd c)
  | Inner => inner_step sc sh a wi su (snd c)
  | After => after_step ess su (snd c)
  | Done => c
  end.





Definition start (ess : bool) : Phase := if ess then Outer else Inner.


(** *** The path-tracing block (lines 636-655)

    What the work item writes to [outAccumulate] and to [outImg] once the
    ray has hit the box at [tnear]. *)
Definition toneMap (c : R) : R :=
  let c := c * ((1 + c * (1 / 10)) / (1 + c)) in
  Rmin (native_powr (Rmax c 0) (1 / (22 / 10))) 1.

Definition pathTrace (sc : Scene) (sh : Shaders) (a : Args) (wi : WorkItem)
    (tnear0 : R) : option (float4 * float4) :=
  let random :=
    RNG.ParallelRNG3 (fst (texCoords wi)) (snd (texCoords wi)) (seed a) in
  match trace_volume sc sh random (camPos wi) (rayDir wi) tnear0 80 with
  | None => None
  | Some col =>
      let prevCol :=
        xyz (inAccumulate sc (fst (texCoords wi)) (snd (texCoords wi))) in
      let acc := accumulate (iteration a) prevCol col in
      let col := if (iteration a =? 0)%Z then col else xyz acc in
      Some (acc, with_xyz (mk4 0 0 0 1) (map3 toneMap col))
  end.

(** *** generateBricks

    [voxel i j k] is the [.x] of
    [read_imagef(volData, nearestIntSmp, (int4)(i, j, k, 0))]; the result is
    the [(minVal, maxVal)] written for the cell [coord], or [None] for a
    work item outside the brick image. *)
Definition zrange (lo hi : Z) : list Z :=
  map (fun i => (lo + Z.of_nat i)%Z) (seq 0 (Z.to_nat (hi - lo))).

(** [convert_int(ceil(convert_float(a) / convert_float(b)))] *)
Definition ceilDivF (a b : Z) : Z := Zceil (IZR a / IZR b).

Definition brickBounds (volDim brickDim coord : Z) : Z * Z :=
  let voxPerCell := ceilDivF volDim brickDim in
  let volCoordLower := (voxPerCell * coord)%Z in
  let volCoordUpper := clampZ (volCoordLower + voxPerCell) 0 volDim in
  (volCoordLower, volCoordUpper).

Definition scanBlock (voxel : Z -> Z -> Z -> R) (bx by_ bz : Z * Z)
    : R * R :=
  fold_left
    (fun acc k =>
       fold_left
         (fun acc j =>
            fold_left
              (fun (acc : R * R) i =>
                 let value := voxel i j k in
                 (Rmin (fst acc) value, Rmax (snd acc) value))
              (zrange (fst bx) (snd bx)) acc)
         (zrange (fst by_) (snd by_)) acc)
    (zrange (fst bz) (snd bz)) (1, 0).

Definition generateBricks (voxel : Z -> Z -> Z -> R) (volDim brickDim : int3)
    (coord : int3) : option (R * R) :=
  if (ix brickDim <=? ix coord)%Z || (iy brickDim <=? iy coord)%Z
     || (iz brickDim <=? iz coord)%Z then None
  else
    Some (scanBlock voxel
            (brickBounds (ix volDim) (ix brickDim) (ix coord))
            (brickBounds (iy volDim) (iy brickDim) (iy coord))
            (brickBounds (iz volDim) (iz brickDim) (iz coord))).

End Kernel.

(** ** volumerendercl.cpp: the host class *)

Module Host.

Import CL.
Open Scope string_scope.

Inductive exception :=
  | runtime_error (what : string)
  | invalid_argument (what : string).

(** [DatRawReader::Properties], the fields the core reads; the resolution
    (x, y, z, t) is an array of [unsigned int]. *)
Record Properties := {
  raw_file_names : list string;
  volume_res : Z * Z * Z * Z;
  slice_thickness : R * R * R;
  format : string;
  image_channel_order : string
}.

Record DatRawReader := {
  _prop : Properties;
  _raw_data : list (list byte)
}.

(** Modelled from the spec: the member functions of [DatRawReader] are only
    declared in the sources (io/datrawreader.h), their bodies are missing.
    The reader hands the core *a parsed buffer (raw bytes) + metadata*:
    [read_files] stores both, [has_data] tells whether raw data has been
    read, [clearData] drops the raw data. *)
Definition read_files (p : Properties) (d : list (list byte))
    (_ : DatRawReader) : DatRawReader :=
  {| _prop := p; _raw_data := d |}.

Definition has_data (dr : DatRawReader) : bool :=
  match _raw_data dr with [] => false | _ => true end.

Definition clearData (dr : DatRawReader) : DatRawReader :=
  {| _prop := _prop dr; _raw_data := [] |}.

Inductive channel_type := CL_UNORM_INT8 | CL_UNORM_INT16 | CL_FLOAT.

(** A [cl::Image3D] created with [CL_MEM_COPY_HOST_PTR]. *)
Record Image3D := {
  img_order : channel_order;
  img_type : channel_type;
  img_dim : Z * Z * Z;
  img_host : list byte
}.

(** A brick image: its size and the time step whose volume the
    [generateBricks] kernel reduced into it. *)
Record BrickImage := {
  brick_type : channel_type;
  brick_dim : Z * Z * Z;
  brick_of : nat
}.

Record camera_params := {
  viewMat : list R;
  bbox_bl : float3;
  bbox_tr : float3;
  ortho : Z
}.

Record rendering_params := {
  backgroundColor : float4;
  modelScale : float3;
  illumType : Z;
  imgEss : Z;
  showEss : Z;
  useLinear : Z;
  useGradient : Z;
  technique : Z;
  seed : Z;
  iteration : Z
}.

Record raycast_params := {
  samplingRate : R;
  useAO : Z;
  contours : Z;
  aerial : Z;
  brickRes : float3
}.

Record pathtrace_params := {
  max_extinction : R
}.

(** The struct arguments currently bound to the [volumeRender] kernel
    ([setArg] copies the struct) and the flag the program was built with. *)
Record RaycastKernel := {
  arg_CAMERA : camera_params;
  arg_RENDERING : rendering_params;
  arg_RAYCAST : raycast_params;
  arg_PATHTRACE : pathtrace_params;
  built_with_ESS : bool
}.

Record VolumeRenderCL := {
  _raycastKernel : RaycastKernel;
  _volumesMem : list Image3D;
  _bricksMem : list BrickImage;
  _tffMem : list byte;
  _tffPrefixMem : list Z;
  _volLoaded : bool;
  _modelScale : list R;
  _useImgESS : bool;
  _timestep : Z;
  _camera_params : camera_params;
  _rendering_params : rendering_params;
  _raycast_params : raycast_params;
  _pathtrace_params : pathtrace_params;
  _dr : DatRawReader
}.

(** *** Field updates *)

Definition with_kernel (k : RaycastKernel) (s : VolumeRenderCL) :=
  {| _raycastKernel := k; _volumesMem := _volumesMem s;
     _bricksMem := _bricksMem s; _tffMem := _tffMem s;
     _tffPrefixMem := _tffPrefixMem s; _volLoaded := _volLoaded s;
     _modelScale := _modelScale s; _useImgESS := _useImgESS s;
     _timestep := _timestep s; _camera_params := _camera_params s;
     _rendering_params := _rendering_params s;
     _raycast_params := _raycast_params s;
     _pathtrace_params := _pathtrace_params s; _dr := _dr s |}.

Definition with_volumesMem (v : list Image3D) (s : VolumeRenderCL) :=
  {| _raycastKernel := _raycastKernel s; _volumesMem := v;
     _bricksMem := _bricksMem s; _tffMem := _tffMem s;
     _tffPrefixMem := _tffPrefixMem s; _volLoaded := _volLoaded s;
     _modelScale := _modelScale s; _useImgESS := _useImgESS s;
     _timestep := _timestep s; _camera_params := _camera_params s;
     _rendering_params := _rendering_params s;
     _raycast_params := _raycast_params s;
     _pathtrace_params := _pathtrace_params s; _dr := _dr s |}.

Definition with_bricksMem (v : list BrickImage) (s : VolumeRenderCL) :=
  {| _raycastKernel := _raycastKernel s; _volumesMem := _volumesMem s;
     _bricksMem := v; _tffMem := _tffMem s;
     _tffPrefixMem := _tffPrefixMem s; _volLoaded := _volLoaded s;
     _modelScale := _modelScale s; _useImgESS := _useImgESS s;
     _timestep := _timestep s; _camera_params := _camera_params s;
     _rendering_params := _rendering_params s;
     _raycast_params := _raycast_params s;
     _pathtrace_params := _pathtrace_params s; _dr := _dr s |}.

Definition with_tffMem (v : list byte) (s : VolumeRenderCL) :=
  {| _raycastKernel := _raycastKernel s; _volumesMem := _volumesMem s;
     _bricksMem := _bricksMem s; _tffMem := v;
     _tffPrefixMem := _tffPrefixMem s; _volLoaded := _volLoaded s;
     _modelScale := _modelScale s; _useImgESS := _useImgESS s;
     _timestep := _timestep s; _camera_params := _camera_params s;
     _rendering_params := _rendering_params s;
     _raycast_params := _raycast_params s;
     _pathtrace_params := _pathtrace_params s; _dr := _dr s |}.

Definition with_tffPrefixMem (v : list Z) (s : VolumeRenderCL) :=
  {| _raycastKernel := _raycastKernel s; _volumesMem := _volumesMem s;
     _bricksMem := _bricksMem s; _tffMem := _tffMem s;
     _tffPrefixMem := v; _volLoaded := _volLoaded s;
     _modelScale := _modelScale s; _useImgESS := _useImgESS s;
     _timestep := _timestep s; _camera_params := _camera_params s;
     _rendering_params := _rendering_params s;
     _raycast_params := _raycast_params s;
     _pathtrace_params := _pathtrace_params s; _dr := _dr s |}.

Definition with_volLoaded (v : bool) (s : VolumeRenderCL) :=
  {| _raycastKernel := _raycastKernel s; _volumesMem := _volumesMem s;
     _bricksMem := _bricksMem s; _tffMem := _tffMem s;
     _tffPrefixMem := _tffPrefixMem s; _volLoaded := v;
     _modelScale := _modelScale s; _useImgESS := _useImgESS s;
     _timestep := _timestep s; _camera_params := _camera_params s;
     _rendering_params := _rendering_params s;
     _raycast_params := _raycast_params s;
     _pathtrace_params := _pathtrace_params s; _dr := _dr s |}.

Definition with_modelScale (v : list R) (s : VolumeRenderCL) :=
  {| _raycastKernel := _raycastKernel s; _volumesMem := _volumesMem s;
     _bricksMem := _bricksMem s; _tffMem := _tffMem s;
     _tffPrefixMem := _tffPrefixMem s; _volLoaded := _volLoaded s;
     _modelScale := v; _useImgESS := _useImgESS s;
     _timestep := _timestep s; _camera_params := _camera_params s;
     _rendering_params := _rendering_params s;
     _raycast_params := _raycast_params s;
     _pathtrace_params := _pathtrace_params s; _dr := _dr s |}.

Definition with_useImgESS (v : bool) (s : VolumeRenderCL) :=
  {| _raycastKernel := _raycastKernel s; _volumesMem := _volumesMem s;
     _bricksMem := _bricksMem s; _tffMem := _tffMem s;
     _tffPrefixMem := _tffPrefixMem s; _volLoaded := _volLoaded s;
     _modelScale := _modelScale s; _useImgESS := v;
     _timestep := _timestep s; _camera_params := _camera_params s;
     _rendering_params := _rendering_params s;
     _raycast_params := _raycast_params s;
     _pathtrace_params := _pathtrace_params s; _dr := _dr s |}.

Definition with_timestep (v : Z) (s : VolumeRenderCL) :=
  {| _raycastKernel := _raycastKernel s; _volumesMem := _volumesMem s;
     _bricksMem := _bricksMem s; _tffMem := _tffMem s;
     _tffPrefixMem := _tffPrefixMem s; _volLoaded := _volLoaded s;
     _modelScale := _modelScale s; _useImgESS := _useImgESS s;
     _timestep := v; _camera_params := _camera_params s;
     _rendering_params := _rendering_params s;
     _raycast_params := _raycast_params s;
     _pathtrace_params := _pathtrace_params s; _dr := _dr s |}.

Definition with_camera (v : camera_params) (s : VolumeRenderCL) :=
  {| _raycastKernel := _raycastKernel s; _volumesMem := _volumesMem s;
     _bricksMem := _bricksMem s; _tffMem := _tffMem s;
     _tffPrefixMem := _tffPrefixMem s; _volLoaded := _volLoaded s;
     _modelScale := _modelScale s; _useImgESS := _useImgESS s;
     _timestep := _timestep s; _camera_params := v;
     _rendering_params := _rendering_params s;
     _raycast_params := _raycast_params s;
     _pathtrace_params := _pathtrace_params s; _dr := _dr s |}.

Definition with_rendering (v : rendering_params) (s : VolumeRenderCL) :=
  {| _raycastKernel := _raycastKernel s; _volumesMem := _volumesMem s;
     _bricksMem := _bricksMem s; _tffMem := _tffMem s;
     _tffPrefixMem := _tffPrefixMem s; _volLoaded := _volLoaded s;
     _modelScale := _modelScale s; _useImgESS := _useImgESS s;
     _timestep := _timestep s; _camera_params := _camera_params s;
     _rendering_params := v;
     _raycast_params := _raycast_params s;
     _pathtrace_params := _pathtrace_params s; _dr := _dr s |}.

Definition with_raycast (v : raycast_params) (s : VolumeRenderCL) :=
  {| _raycastKernel := _raycastKernel s; _volumesMem := _volumesMem s;
     _bricksMem := _bricksMem s; _tffMem := _tffMem s;
     _tffPrefixMem := _tffPrefixMem s; _volLoaded := _volLoaded s;
     _modelScale := _modelScale s; _useImgESS := _useImgESS s;
     _timestep := _timestep s; _camera_params := _camera_params s;
     _rendering_params := _rendering_params s;
     _raycast_params := v;
     _pathtrace_params := _pathtrace_params s; _dr := _dr s |}.

Definition with_pathtrace (v : pathtrace_params) (s : VolumeRenderCL) :=
  {| _raycastKernel := _raycastKernel s; _volumesMem := _volumesMem s;
     _bricksMem := _bricksMem s; _tffMem := _tffMem s;
     _tffPrefixMem := _tffPrefixMem s; _volLoaded := _volLoaded s;
     _modelScale := _modelScale s; _useImgESS := _useImgESS s;
     _timestep := _timestep s; _camera_params := _camera_params s;
     _rendering_params := _rendering_params s;
     _raycast_params := _raycast_params s;
     _pathtrace_params := v; _dr := _dr s |}.

Definition with_dr (v : DatRawReader) (s : VolumeRenderCL) :=
  {| _raycastKernel := _raycastKernel s; _volumesMem := _volumesMem s;
     _bricksMem := _bricksMem s; _tffMem := _tffMem s;
     _tffPrefixMem := _tffPrefixMem s; _volLoaded := _volLoaded s;
     _modelScale := _modelScale s; _useImgESS := _useImgESS s;
     _timestep := _timestep s; _camera_params := _camera_params s;
     _rendering_params := _rendering_params s;
     _raycast_params := _raycast_params s;
     _pathtrace_params := _pathtrace_params s; _dr := v |}.

(** *** Member functions as state transformers that may throw *)

Definition M (A : Type) : Type :=
  VolumeRenderCL -> VolumeRenderCL * (exception + A).

Definition ret {A : Type} (a : A) : M A := fun s => (s, inr a).

Definition bind {A B : Type} (m : M A) (k : A -> M B) : M B :=
  fun s =>
    match m s with
    | (s', inl e) => (s', inl e)
    | (s', inr a) => k a s'
    end.

Definition throw {A : Type} (e : exception) : M A := fun s => (s, inl e).
Definition get : M VolumeRenderCL := fun s => (s, inr s).
Definition modify (f : VolumeRenderCL -> VolumeRenderCL) : M unit :=
  fun s => (f s, inr tt).

(** [try { m } catch (std::invalid_argument e)
          { throw std::runtime_error(e.what()); }] *)
Definition rethrow_invalid_argument {A : Type} (m : M A) : M A :=
  fun s =>
    match m s with
    | (s', inl (invalid_argument w)) => (s', inl (runtime_error w))
    | r => r
    end.

Notation "x <- m ;; k" := (bind m (fun x => k))
  (at level 61, m at next level, right associativity).
Notation "m ;;; k" := (bind m (fun _ => k))
  (at level 61, right associativity).

(** [RoundPow2] on 32-bit [unsigned int]. *)
Definition RoundPow2 (n : Z) : Z :=
  let val := wrap32 (n - 1) in
  let val := Z.lor val (Z.shiftr val 1) in
  let val := Z.lor val (Z.shiftr val 2) in
  let val := Z.lor val (Z.shiftr val 4) in
  let val := Z.lor val (Z.shiftr val 8) in
  let val := Z.lor val (Z.shiftr val 16) in
  let val := wrap32 (val + 1) in
  let x := Z.shiftr val 1 in
  if (wrap32 (n - x) <? wrap32 (val - n))%Z then x else val.

Definition setCameraArgs : M unit :=
  modify (fun s =>
    let k := _raycastKernel s in
    with_kernel {| arg_CAMERA := _camera_params s;
                   arg_RENDERING := arg_RENDERING k;
                   arg_RAYCAST := arg_RAYCAST k;
                   arg_PATHTRACE := arg_PATHTRACE k;
                   built_with_ESS := built_with_ESS k |} s).

Definition setRenderingArgs : M unit :=
  modify (fun s =>
    let k := _raycastKernel s in
    with_kernel {| arg_CAMERA := arg_CAMERA k;
                   arg_RENDERING := _rendering_params s;
                   arg_RAYCAST := arg_RAYCAST k;
                   arg_PATHTRACE := arg_PATHTRACE k;
                   built_with_ESS := built_with_ESS k |} s).

Definition setRaycastArgs : M unit :=
  modify (fun s =>
    let k := _raycastKernel s in
    with_kernel {| arg_CAMERA := arg_CAMERA k;
                   arg_RENDERING := arg_RENDERING k;
                   arg_RAYCAST := _raycast_params s;
                   arg_PATHTRACE := arg_PATHTRACE k;
                   built_with_ESS := built_with_ESS k |} s).

Definition setPathtraceArgs : M unit :=
  modify (fun s =>
    let k := _raycastKernel s in
    with_kernel {| arg_CAMERA := arg_CAMERA k;
                   arg_RENDERING := arg_RENDERING k;
                   arg_RAYCAST := arg_RAYCAST k;
                   arg_PATHTRACE := _pathtrace_params s;
                   built_with_ESS := built_with_ESS k |} s).

(** [initKernel]: a fresh kernel object of the program built with or
    without [-DESS], bound to the current parameter structs. *)
Definition initKernel (ess : bool) : M unit :=
  modify (fun s =>
    with_kernel {| arg_CAMERA := _camera_params s;
                   arg_RENDERING := _rendering_params s;
                   arg_RAYCAST := _raycast_params s;
                   arg_PATHTRACE := _pathtrace_params s;
                   built_with_ESS := ess |} s).

Definition set_iteration (n : Z) (r : rendering_params) : rendering_params :=
  {| backgroundColor := backgroundColor r; modelScale := modelScale r;
     illumType := illumType r; imgEss := imgEss r; showEss := showEss r;
     useLinear := useLinear r; useGradient := useGradient r;
     technique := technique r; seed := seed r; iteration := n |}.

Definition resetIteration : M unit :=
  modify (fun s => with_rendering (set_iteration 0 (_rendering_params s)) s) ;;;
  setRenderingArgs.

Definition calcScaling : M unit :=
  s <- get ;;
  if negb (has_data (_dr s)) then ret tt
  else
    let '(rx, ry, rz, _) := volume_res (_prop (_dr s)) in
    let '(tx, ty, tz) := slice_thickness (_prop (_dr s)) in
    let sx := (IZR rx * (tx * (1 / tx)))%R in
    let sy := (IZR ry * (ty * (1 / tx)))%R in
    let sz := (IZR rz * (tz * (1 / tx)))%R in
    let m := Rmax sx (Rmax sy sz) in
    modify (with_modelScale [(m / sx)%R; (m / sy)%R; (m / sz)%R]).

Definition bool_uint (b : bool) : Z := if b then 1 else 0.

Definition updateView (view : list R) : M unit :=
  s <- get ;;
  if negb (has_data (_dr s)) || (List.length (_modelScale s) <? 3)%nat then ret tt
  else
    modify (fun s =>
      let c := _camera_params s in
      with_camera {| viewMat := view; bbox_bl := bbox_bl c;
                     bbox_tr := bbox_tr c; ortho := ortho c |} s) ;;;
    setCameraArgs ;;;
    resetIteration.

Definition updateSamplingRate (rate : R) : M unit :=
  modify (fun s =>
    let r := _raycast_params s in
    with_raycast {| samplingRate := rate; useAO := useAO r;
                    contours := contours r; aerial := aerial r;
                    brickRes := brickRes r |} s) ;;;
  setRaycastArgs.

Definition setBBox (bl tr : float3) : M unit :=
  modify (fun s =>
    let c := _camera_params s in
    with_camera {| viewMat := viewMat c; bbox_bl := bl; bbox_tr := tr;
                   ortho := ortho c |} s) ;;;
  setCameraArgs ;;;
  resetIteration.

Definition setCamOrtho (b : bool) : M unit :=
  modify (fun s =>
    let c := _camera_params s in
    with_camera {| viewMat := viewMat c; bbox_bl := bbox_bl c;
                   bbox_tr := bbox_tr c; ortho := bool_uint b |} s) ;;;
  setCameraArgs.

Definition setIllumination (illum : Z) : M unit :=
  modify (fun s =>
    let r := _rendering_params s in
    with_rendering
      {| backgroundColor := backgroundColor r; modelScale := modelScale r;
         illumType := wrap32 illum; imgEss := imgEss r; showEss := showEss r;
         useLinear := useLinear r; useGradient := useGradient r;
         technique := technique r; seed := seed r;
         iteration := iteration r |} s) ;;;
  setRenderingArgs.

Definition setAmbientOcclusion (ao : bool) : M unit :=
  modify (fun s =>
    let r := _raycast_params s in
    with_raycast {| samplingRate := samplingRate r; useAO := bool_uint ao;
                    contours := contours r; aerial := aerial r;
                    brickRes := brickRes r |} s) ;;;
  setRaycastArgs.

Definition setShowESS (b : bool) : M unit :=
  modify (fun s =>
    let r := _rendering_params s in
    with_rendering
      {| backgroundColor := backgroundColor r; modelScale := modelScale r;
         illumType := illumType r; imgEss := imgEss r;
         showEss := bool_uint b;
         useLinear := useLinear r; useGradient := useGradient r;
         technique := technique r; seed := seed r;
         iteration := iteration r |} s) ;;;
  setRenderingArgs.

Definition setLinearInterpolation (b : bool) : M unit :=
  modify (fun s =>
    let r := _rendering_params s in
    with_rendering
      {| backgroundColor := backgroundColor r; modelScale := modelScale r;
         illumType := illumType r; imgEss := imgEss r; showEss := showEss r;
         useLinear := bool_uint b; useGradient := useGradient r;
         technique := technique r; seed := seed r;
         iteration := iteration r |} s) ;;;
  setRenderingArgs.

Definition setContours (b : bool) : M unit :=
  modify (fun s =>
    let r := _raycast_params s in
    with_raycast {| samplingRate := samplingRate r; useAO := useAO r;
                    contours := bool_uint b; aerial := aerial r;
                    brickRes := brickRes r |} s) ;;;
  setRaycastArgs.

Definition setAerial (b : bool) : M unit :=
  modify (fun s =>
    let r := _raycast_params s in
    with_raycast {| samplingRate := samplingRate r; useAO := useAO r;
                    contours := contours r; aerial := bool_uint b;
                    brickRes := brickRes r |} s) ;;;
  setRaycastArgs.

Definition setImgEss (b : bool) : M unit :=
  modify (fun s =>
    let r := _rendering_params s in
    with_rendering
      {| backgroundColor := backgroundColor r; modelScale := modelScale r;
         illumType := illumType r; imgEss := bool_uint b;
         showEss := showEss r;
         useLinear := useLinear r; useGradient := useGradient r;
         technique := technique r; seed := seed r;
         iteration := iteration r |} s) ;;;
  setRenderingArgs ;;;
  modify (with_useImgESS b).

Definition setBackground (color : float4) : M unit :=
  modify (fun s =>
    let r := _rendering_params s in
    with_rendering
      {| backgroundColor := mk4 (x4 color) (y4 color) (z4 color) 0;
         modelScale := modelScale r;
         illumType := illumType r; imgEss := imgEss r; showEss := showEss r;
         useLinear := useLinear r; useGradient := useGradient r;
         technique := technique r; seed := seed r;
         iteration := iteration r |} s) ;;;
  setRenderingArgs.

Definition setUseGradient (b : bool) : M unit :=
  modify (fun s =>
    let r := _rendering_params s in
    with_rendering
      {| backgroundColor := backgroundColor r; modelScale := modelScale r;
         illumType := illumType r; imgEss := imgEss r; showEss := showEss r;
         useLinear := useLinear r; useGradient := bool_uint b;
         technique := technique r; seed := seed r;
         iteration := iteration r |} s) ;;;
  setRenderingArgs.

Definition setTechnique (tech : Z) : M unit :=
  modify (fun s =>
    let r := _rendering_params s in
    with_rendering
      {| backgroundColor := backgroundColor r; modelScale := modelScale r;
         illumType := illumType r; imgEss := imgEss r; showEss := showEss r;
         useLinear := useLinear r; useGradient := useGradient r;
         technique := wrap32 tech; seed := seed r;
         iteration := iteration r |} s) ;;;
  setRenderingArgs ;;;
  resetIteration.

Definition setExtinction (extinction : R) : M unit :=
  modify (with_pathtrace {| max_extinction := extinction |}) ;;;
  setPathtraceArgs.

Definition setTimestep (t : Z) : M unit :=
  s <- get ;;
  let '(_, _, _, rt) := volume_res (_prop (_dr s)) in
  if has_data (_dr s) && (rt <=? t)%Z then ret tt
  else modify (with_timestep t) ;;; resetIteration.

(** *** Volume upload *)

Definition channelOrderOf (co : string) : option channel_order :=
  if (co =? "R") || (co =? "") || (co =? "I") || (co =? "LUMINANCE")
  then Some CLK_R
  else if co =? "RG" then Some CLK_RG
  else if co =? "RGBA" then Some CLK_RGBA
  else if co =? "ARGB" then Some CLK_ARGB
  else if co =? "BGRA" then Some CLK_BGRA
  else None.

(** The channel data type and [formatMultiplier] of a sample format. *)
Definition dataTypeOf (f : string) : option (channel_type * Z) :=
  if f =? "UCHAR" then Some (CL_UNORM_INT8, 1%Z)
  else if f =? "USHORT" then Some (CL_UNORM_INT16, 2%Z)
  else if f =? "FLOAT" then Some (CL_FLOAT, 4%Z)
  else None.

(** The left side of the size test: a product of four [unsigned int]. *)
Definition expectedSize (res : Z * Z * Z * Z) (formatMultiplier : Z) : Z :=
  let '(rx, ry, rz, _) := res in
  wrap32 (rx * ry * rz * formatMultiplier).

(** The [for (const auto &v : volumeData)] loop. *)
Fixpoint uploadLoop (order : channel_order) (ty : channel_type)
    (formatMultiplier : Z) (res : Z * Z * Z * Z) (volumeData : list (list byte))
    : M unit :=
  match volumeData with
  | [] => ret tt
  | v :: rest =>
      if (Z.of_nat (List.length v) <? expectedSize res formatMultiplier)%Z then
        modify (fun s => with_dr (clearData (_dr s)) s) ;;;
        throw (runtime_error
                 "Volume size does not match size specified in dat file.")
      else
        modify (fun s =>
          let '(rx, ry, rz, _) := res in
          with_volumesMem
            (_volumesMem s ++
             [{| img_order := order; img_type := ty;
                 img_dim := (rx, ry, rz); img_host := v |}]) s) ;;;
        uploadLoop order ty formatMultiplier res rest
  end.

Definition volDataToCLmem (volumeData : list (list byte)) : M unit :=
  s <- get ;;
  if negb (has_data (_dr s)) then ret tt
  else
    match channelOrderOf (image_channel_order (_prop (_dr s))) with
    | None => throw (invalid_argument "Unknown or invalid volume color format.")
    | Some order =>
        match dataTypeOf (format (_prop (_dr s))) with
        | None =>
            throw (invalid_argument "Unknown or invalid volume data format.")
        | Some (ty, formatMultiplier) =>
            modify (with_volumesMem []) ;;;
            uploadLoop order ty formatMultiplier
              (volume_res (_prop (_dr s))) volumeData
        end
    end.

Definition setTffPrefixSum (tffPrefixSum : list Z) : M unit :=
  s <- get ;;
  if negb (has_data (_dr s)) then ret tt
  else modify (with_tffPrefixMem tffPrefixSum).

(** [loadVolumeData]; the argument is what [_dr.read_files] reads from the
    named files, the value is the number of time steps. *)
Definition loadVolumeData (p : Properties) (d : list (list byte)) : M Z :=
  modify (with_volLoaded false) ;;;
  rethrow_invalid_argument
    (modify (fun s => with_dr (read_files p d (_dr s)) s) ;;;
     s <- get ;;
     volDataToCLmem (_raw_data (_dr s)) ;;;
     calcScaling) ;;;
  let prefixSum :=
    Tff.partial_sum
      (map (fun i => wrap32 (Z.of_nat i * 4)) (seq 0 1024)) in
  setTffPrefixSum prefixSum ;;;
  modify (with_volLoaded true) ;;;
  s <- get ;;
  ret (Z.of_nat (List.length (_raw_data (_dr s)))).

(** *** Brick generation and transfer function *)

(** The edge length of a brick along an axis of [res] voxels. *)
Definition brickEdge (res : Z) : Z := Z.max 1 (RoundPow2 (res / 64)).

(** [bricksTexSize]: [ceil] of the resolution over the brick edge. *)
Definition bricksTexSize (res : Z) : Z := Zceil (IZR res / IZR (brickEdge res)).

Definition setMemObjectsBrickGen (t : nat) : M unit :=
  s <- get ;;
  if (List.length (_volumesMem s) <=? t)%nat
     || (List.length (_bricksMem s) <=? t)%nat
  then throw (runtime_error "Error loading timeseries data: size mismatch.")
  else ret tt.

Fixpoint brickLoop (ty : channel_type) (dim : Z * Z * Z) (ts : list nat)
    : M unit :=
  match ts with
  | [] => ret tt
  | i :: rest =>
      modify (fun s =>
        with_bricksMem
          (_bricksMem s ++
           [{| brick_type := ty; brick_dim := dim; brick_of := i |}]) s) ;;;
      setMemObjectsBrickGen i ;;;
      brickLoop ty dim rest
  end.

Definition generateBricks : M unit :=
  s <- get ;;
  if negb (has_data (_dr s)) then ret tt
  else
    let '(rx, ry, rz, _) := volume_res (_prop (_dr s)) in
    let brickResF :=
      mk3 (IZR rx / IZR (brickEdge rx)) (IZR ry / IZR (brickEdge ry))
          (IZR rz / IZR (brickEdge rz)) in
    modify (fun s =>
      let r := _raycast_params s in
      with_raycast {| samplingRate := samplingRate r; useAO := useAO r;
                      contours := contours r; aerial := aerial r;
                      brickRes := brickResF |} s) ;;;
    setRaycastArgs ;;;
    match dataTypeOf (format (_prop (_dr s))) with
    | None => throw (invalid_argument "Unknown or invalid volume data format.")
    | Some (ty, _) =>
        modify (with_bricksMem []) ;;;
        brickLoop ty (bricksTexSize rx, bricksTexSize ry, bricksTexSize rz)
          (seq 0 (List.length (raw_file_names (_prop (_dr s)))))
    end.

Definition setTransferFunction (tff : list byte) : M unit :=
  s <- get ;;
  if negb (has_data (_dr s)) then ret tt
  else
    modify (with_tffMem tff) ;;;
    generateBricks ;;;
    setTffPrefixSum (Tff.prefixSum tff) ;;;
    resetIteration.

Definition setObjEss (useEss : bool) : M unit :=
  initKernel useEss ;;;
  s <- get ;;
  if has_data (_dr s) then volDataToCLmem (_raw_data (_dr s)) else ret tt.



(** The progressive-accumulation iteration counter: the host field, and
    the copy bound to the kernel. *)
Definition counter (s : VolumeRenderCL) : Z := iteration (_rendering_params s).
Definition boundCounter (s : VolumeRenderCL) : Z :=
  iteration (arg_RENDERING (_raycastKernel s)).

End Host.

(** ** volumeraycast.cl: the helpers beside the ray loops *)

Module Geom.

Import CL.
Open Scope R_scope.

(** [intersectBBox]: the ray against the box from [lower] to [upper];
    returns [(hit, tnear, tfar)]. *)
Definition intersectBBox (rayOrig rayDir lower upper : float3)
    : bool * R * R :=
  let invRay := div3 (splat3 1) rayDir in
  let tBot := mul3 invRay (sub3 lower rayOrig) in
  let tTop := mul3 invRay (sub3 upper rayOrig) in
  let tMin := min3 tTop tBot in
  let tMax := max3 tTop tBot in
  let maxTmin := Rmax (Rmax (fx tMin) (fy tMin)) (Rmax (fx tMin) (fz tMin)) in
  let minTmax := Rmin (Rmin (fx tMax) (fy tMax)) (Rmin (fx tMax) (fz tMax)) in
  (Rltb maxTmin minTmax, maxTmin, minTmax).

(** [intersectPlane]: the flag returned and the value stored to [*t], if
    any.  The flag [(t >= 0)] of the source compares the pointer [t] with
    the null pointer constant, which holds for the address of a variable,
    and not the value stored. *)
Definition intersectPlane (rayOrigin rayDir planeNormal planePos : float3)
    : bool * option R :=
  let denom := dot3 rayDir planeNormal in
  if Rltb (1 / 1000000) denom then
    let origin2point := sub3 planePos rayOrigin in
    (true, Some (dot3 origin2point planeNormal / denom))
  else (false, None).

End Geom.

Module Shade.

Import CL Kernel.
Open Scope R_scope.

(** [normalize] and [fast_normalize]: the vector over its length; the zero
    vector is left as it is. *)
Definition normalize (v : float3) : float3 := div3 v (splat3 (length3 v)).

(** The six reads of the central difference around [pos] through [f]. *)
Definition centralSamples (sc : Scene) (f : float4 -> R) (pos : float3)
    : float3 * float3 :=
  let volResf := convert_float3 (volRes sc) in
  let offset := div3 (splat3 1) volResf in
  let rd p := f (volDataLinear sc p) in
  let s1 :=
    mk3 (rd (add3 pos (mk3 (- fx offset) 0 0)))
        (rd (add3 pos (mk3 0 (- fy offset) 0)))
        (rd (add3 pos (mk3 0 0 (- fz offset)))) in
  let s2 :=
    mk3 (rd (add3 pos (mk3 (fx offset) 0 0)))
        (rd (add3 pos (mk3 0 (fy offset) 0)))
        (rd (add3 pos (mk3 0 0 (fz offset)))) in
  (s1, s2).

(** The tail shared by the two central-difference gradients. *)
Definition gradientOf (s1 s2 : float3) : float4 :=
  let normal := normalize (sub3 s2 s1) in
  let normal :=
    if Req_dec_T (length3 normal) 0 then splat3 (57735 / 100000)
    else normal in
  mk4 (fx normal) (fy normal) (fz normal) (length3 (sub3 s2 s1)).

(** [gradientCentralDiff] *)
Definition gradientCentralDiff (sc : Scene) (pos : float3) : float4 :=
  let '(s1, s2) := centralSamples sc x4 pos in
  gradientOf s1 s2.

(** [gradientCentralDiffTff]: the differences of the transfer function's
    alpha at the six densities. *)
Definition gradientCentralDiffTff (sc : Scene) (pos : float3) : float4 :=
  let '(s1, s2) :=
    centralSamples sc (fun v => w4 (tffData sc (x4 v))) pos in
  gradientOf s1 s2.

(** [sobelWeights[dir][i + 1][j + 1][k + 1]] *)
Definition sobelTable : list (list (list (list Z))) :=
  [ [ [ [-1; -2; -1]; [-2; -4; -2]; [-1; -2; -1] ];
      [ [ 0;  0;  0]; [ 0;  0;  0]; [ 0;  0;  0] ];
      [ [ 1;  2;  1]; [ 2;  4;  2]; [ 1;  2;  1] ] ];
    [ [ [-1; -2; -1]; [ 0;  0;  0]; [ 1;  2;  1] ];
      [ [-2; -4; -2]; [ 0;  0;  0]; [ 2;  4;  2] ];
      [ [-1; -2; -1]; [ 0;  0;  0]; [ 1;  2;  1] ] ];
    [ [ [-1;  0;  1]; [-2;  0;  2]; [-1;  0;  1] ];
      [ [-2;  0;  2]; [-4;  0;  4]; [-2;  0;  2] ];
      [ [-1;  0;  1]; [-2;  0;  2]; [-1;  0;  1] ] ] ]%Z.

Definition sobelWeights (dir : nat) (i j k : Z) : R :=
  IZR (nth (Z.to_nat (k + 1))
         (nth (Z.to_nat (j + 1))
            (nth (Z.to_nat (i + 1)) (nth dir sobelTable []) []) []) 0%Z).

(** The sum the loops over [i], [j], [k] add to one component. *)
Definition sobelSum (sc : Scene) (pos : float3) (dir : nat) : R :=
  let offset := div3 (splat3 1) (convert_float3 (volRes sc)) in
  fold_left
    (fun g i =>
       fold_left
         (fun g j =>
            fold_left
              (fun g k =>
                 let samplePos :=
                   add3 pos (mul3 offset (mk3 (IZR i) (IZR j) (IZR k))) in
                 let weight :=
                   sobelWeights dir i j k * x4 (volDataLinear sc samplePos) in
                 g + weight)
              [-1; 0; 1]%Z g)
         [-1; 0; 1]%Z g)
    [-1; 0; 1]%Z 0.

(** [gradientSobel] *)
Definition gradientSobel (sc : Scene) (pos : float3) : float4 :=
  let g :=
    mk3 (sobelSum sc pos 0) (sobelSum sc pos 1) (sobelSum sc pos 2) in
  let g := div3 g (splat3 27) in
  let w := length3 g in
  let g := if Req_dec_T w 0 then splat3 1 else g in
  let g := normalize g in
  mk4 (fx g) (fy g) (fz g) w.

(** [specularBlinnPhong] *)
Definition specularBlinnPhong (lightColor : float3) (specularExp : R)
    (materialColor normal toLightDir toCameraDir : float3) : float3 :=
  let h := add3 toCameraDir toLightDir in
  if Rltb (dot3 h h) (1 / 1000000) then splat3 0
  else
    let h := normalize h in
    scale3 (mul3 materialColor lightColor)
           (native_powr (Rmax (dot3 normal h) 0) specularExp).

(** [illumination]; the position argument is not read. *)
Definition illumination (pos color toLightDir n : float3) : float3 :=
  let l := normalize toLightDir in
  let amb := scale3 color (2 / 10) in
  let diff := scale3 (scale3 color (Rmax 0 (dot3 n l))) (8 / 10) in
  let spec :=
    scale3 (specularBlinnPhong (splat3 1) 40 (splat3 1) n l toLightDir)
           (2 / 10) in
  add3 (add3 amb diff) spec.

End Shade.

(** *** The hybrid Tausworthe generator and ambient occlusion *)

Module Taus.

Import CL Kernel.
Open Scope Z_scope.

(** A [uint4] generator state. *)
Record uint4 := mku4 { ux : Z; uy : Z; uz : Z; uw : Z }.

(** [initRNG]; [gs0] and [gs1] are [get_global_size(0)] and
    [get_global_size(1)]. *)
Definition initRNG (gs0 gs1 seed : Z) : uint4 :=
  mku4 (wrap32 (128 + gs0)) (wrap32 (128 + gs1)) (wrap32 (128 + seed))
       (wrap32 (128 + wrap32 (gs0 * gs1 * seed))).

(** [tausStep]: the new component, which is also the value returned, and
    the state with that component replaced.  For [p] other than 0, 1, 2 the
    source reads [locZ] before it is ever written: no result. *)
Definition tausStep (taus : uint4) (p s1 s2 s3 m : Z) : option (Z * uint4) :=
  let step (locZ : Z) : Z :=
    let b := Z.shiftr (Z.lxor (wrap32 (Z.shiftl locZ s1)) locZ) s2 in
    Z.lxor (wrap32 (Z.shiftl (Z.land locZ m) s3)) b in
  if p =? 0 then
    let locZ := step (ux taus) in
    Some (locZ, mku4 locZ (uy taus) (uz taus) (uw taus))
  else if p =? 1 then
    let locZ := step (uy taus) in
    Some (locZ, mku4 (ux taus) locZ (uz taus) (uw taus))
  else if p =? 2 then
    let locZ := step (uz taus) in
    Some (locZ, mku4 (ux taus) (uy taus) locZ (uw taus))
  else None.

(** [lcgStep]: returns the old fourth component. *)
Definition lcgStep (taus : uint4) (a c : Z) : Z * uint4 :=
  (uw taus, mku4 (ux taus) (uy taus) (uz taus) (wrap32 (a * uw taus + c))).

(** [hybridTaus]: the four steps act on the four components of the state,
    one each; they are taken here from left to right. *)
Definition hybridTaus (taus : uint4) : option (R * uint4) :=
  match tausStep taus 0 13 19 12 4294967294 with
  | None => None
  | Some (r1, taus) =>
      match tausStep taus 1 2 25 4 4294967288 with
      | None => None
      | Some (r2, taus) =>
          match tausStep taus 2 3 11 17 4294967280 with
          | None => None
          | Some (r3, taus) =>
              let '(r4, taus) := lcgStep taus 1664525 1013904223 in
              Some ((23283064365387 / 100000000000000000000000
                     * IZR (Z.lxor (Z.lxor (Z.lxor r1 r2) r3) r4))%R,
                    taus)
          end
      end
  end.

(** [getUniformRandomSampleDirectionUpper] *)
Definition getUniformRandomSampleDirectionUpper (n : float3) (taus : uint4)
    : option (float3 * uint4) :=
  match hybridTaus taus with
  | None => None
  | Some (u1, taus) =>
      let z := (u1 * 2 - 1)%R in
      match hybridTaus taus with
      | None => None
      | Some (u2, taus) =>
          let phi := (u2 * 2 * PI)%R in
          let sampleDirection :=
            mk3 (sqrt (1 - z * z) * sin phi) (sqrt (1 - z * z) * cos phi) z in
          let cosTheta := dot3 n sampleDirection in
          Some (if Rltb cosTheta 0 then scale3 sampleDirection (-1)
                else sampleDirection,
                taus)
      end
  end.

(** The [while (cnt*stepSize < r)] loop of [calcAO] along one direction;
    [None] means the fuel ran out.  The counter is an [int] far from its
    bound. *)
Fixpoint aoRay (sc : Scene) (pos dir : float3) (stepSize r : R) (fuel : nat)
    (cnt : Z) (sample : R) : option (Z * R) :=
  match fuel with
  | O => None
  | S fuel' =>
      if Rltb (IZR cnt * stepSize) r then
        let cnt := cnt + 1 in
        let density :=
          x4 (volDataLinear sc
                (add3 pos (scale3 (scale3 dir (IZR cnt)) stepSize))) in
        let sample := (sample + w4 (tffData sc density))%R in
        if Rltb (98 / 100) sample then Some (cnt, sample)
        else aoRay sc pos dir stepSize r fuel' cnt sample
      else Some (cnt, sample)
  end.

(** The [for (int i = 0; i < rays; ++i)] loop of [calcAO], [rays] passes
    to go. *)
Fixpoint aoRays (sc : Scene) (n pos : float3) (stepSize r : R) (fuel : nat)
    (rays : nat) (taus : uint4) (ao : R) : option (R * uint4) :=
  match rays with
  | O => Some (ao, taus)
  | S rays' =>
      match getUniformRandomSampleDirectionUpper n taus with
      | None => None
      | Some (dir, taus) =>
          match aoRay sc pos dir stepSize r fuel 0 0%R with
          | None => None
          | Some (cnt, sample) =>
              let sample := (sample / IZR cnt)%R in
              aoRays sc n pos stepSize r fuel rays' taus (ao + sample)%R
          end
      end
  end.

(** [calcAO]: the occlusion factor and the generator state it leaves. *)
Definition calcAO (sc : Scene) (n : float3) (taus : uint4) (pos : float3)
    (stepSize r : R) (fuel : nat) : option (R * uint4) :=
  match aoRays sc n pos stepSize r fuel 16 taus 0%R with
  | None => None
  | Some (ao, taus) => Some ((ao / 16)%R, taus)
  end.

End Taus.

(** *** The downsampling kernel *)

Module Resample.

Import CL Kernel.
Open Scope Z_scope.

(** A 32-bit [int] product, as two's complement. *)
Definition wrapInt (z : Z) : Z := (z + 2 ^ 31) mod 2 ^ 32 - 2 ^ 31.

(** The sum of the voxels of a block, in the order of the three loops. *)
Definition sumBlock (voxel : Z -> Z -> Z -> R) (bx by_ bz : Z * Z) : R :=
  fold_left
    (fun value k =>
       fold_left
         (fun value j =>
            fold_left (fun value i => (value + voxel i j k)%R)
                      (zrange (fst bx) (snd bx)) value)
         (zrange (fst by_) (snd by_)) value)
    (zrange (fst bz) (snd bz)) 0%R.

(** [downsampling]: the value written for the cell [coord] of the low
    resolution volume, or [None] for a work item outside of it;
    [voxel i j k] is the [.x] of
    [read_imagef(volData, nearestIntSmp, (int4)(i, j, k, 0))]. *)
Definition downsampling (voxel : Z -> Z -> Z -> R) (volDim lowDim : int3)
    (coord : int3) : option R :=
  if (ix lowDim <=? ix coord) || (iy lowDim <=? iy coord)
     || (iz lowDim <=? iz coord) then None
  else
    let value :=
      sumBlock voxel
        (brickBounds (ix volDim) (ix lowDim) (ix coord))
        (brickBounds (iy volDim) (iy lowDim) (iy coord))
        (brickBounds (iz volDim) (iz lowDim) (iz coord)) in
    let voxPerCell :=
      wrapInt (ceilDivF (ix volDim) (ix lowDim)
               * ceilDivF (iy volDim) (iy lowDim)
               * ceilDivF (iz volDim) (iz lowDim)) in
    Some (value / IZR voxPerCell)%R.

End Resample.

(** *** Ray generation (volumeRender, lines 577-617) *)

Module RayGen.

Import CL Kernel.
Open Scope R_scope.

(** The view-plane coordinates of the work item [(gx, gy)] in a launch of
    [gs0] x [gs1] work items. *)
Definition imgCoords (gs0 gs1 gx gy : Z) : R * R :=
  let aspectRatio := IZR gs1 / IZR gs0 in
  let aspectRatio := Rmin aspectRatio (IZR gs0 / IZR gs1) in
  let maxImgSize := Z.max gs0 gs1 in
  let x := (IZR gx + 5 / 10) / IZR maxImgSize * 2 in
  let y := (IZR gy + 5 / 10) / IZR maxImgSize * 2 in
  let '(ox, oy) := if (gs1 <? gs0)%Z then (1, aspectRatio)
                   else (aspectRatio, 1) in
  (x - ox, (y - oy) * -1).

(** Component [i] of the [float16] view matrix. *)
Definition s (viewMat : list R) (i : nat) : R := nth i viewMat 0.

(** The jitter, the ray origin and the ray direction of a work item. *)
Definition generate (gs0 gs1 gx gy : Z) (viewMat : list R) (orthoCam : Z)
    (modelScale : float3) : R * float3 * float3 :=
  let rand :=
    IZR (RNG.ParallelRNG2 gx gy) / IZR UINT_MAX in
  let '(cx, cy) := imgCoords gs0 gs1 gx gy in
  let nearPlanePos := Shade.normalize (mk3 cx cy (-1)) in
  let rayDir :=
    mk3 (dot3 (mk3 (s viewMat 0) (s viewMat 1) (s viewMat 2)) nearPlanePos)
        (dot3 (mk3 (s viewMat 4) (s viewMat 5) (s viewMat 6)) nearPlanePos)
        (dot3 (mk3 (s viewMat 8) (s viewMat 9) (s viewMat 10)) nearPlanePos) in
  let s37b := mk3 (s viewMat 3) (s viewMat 7) (s viewMat 11) in
  let camPos := mul3 s37b modelScale in
  let '(camPos, rayDir) :=
    if truthy orthoCam then
      let camPos := s37b in
      let viewPlane_x := mk3 (s viewMat 0) (s viewMat 4) (s viewMat 8) in
      let viewPlane_y := mk3 (s viewMat 1) (s viewMat 5) (s viewMat 9) in
      let viewPlane_z := mk3 (s viewMat 2) (s viewMat 6) (s viewMat 10) in
      let rayDir := neg3 viewPlane_z in
      let nearPlanePos :=
        add3 (add3 camPos (scale3 viewPlane_x cx)) (scale3 viewPlane_y cy) in
      let nearPlanePos := scale3 nearPlanePos (length3 camPos) in
      (mul3 nearPlanePos modelScale, rayDir)
    else (camPos, rayDir) in
  (rand, camPos, Shade.normalize (mul3 rayDir modelScale)).

End RayGen.

(** *** Frames of the progressive renderer *)

Module Frames.

Import CL Kernel.
Open Scope Z_scope.

(** The launch size of [runRaycast] and of the host's [generateBricks]
    along one axis: [n + (local - n % local)], on [size_t]. *)
Definition globalSize (local n : Z) : Z := n + (local - n mod local).




End Frames.

(** * Concrete objects used by the examples *)

Module Examples.

Import CL.
Open Scope Z_scope.
Open Scope string_scope.

(** A one-voxel [UCHAR] data set with a single time step. *)
Definition props1 : Host.Properties :=
  {| Host.raw_file_names := ["one.raw"];
     Host.volume_res := (1, 1, 1, 1);
     Host.slice_thickness := (1%R, 1%R, 1%R);
     Host.format := "UCHAR";
     Host.image_channel_order := "R" |}.


Definition camera0 : Host.camera_params :=
  {| Host.viewMat := []; Host.bbox_bl := splat3 (-1)%R;
     Host.bbox_tr := splat3 1%R; Host.ortho := 0 |}.

Definition rendering0 : Host.rendering_params :=
  {| Host.backgroundColor := mk4 0%R 0%R 0%R 0%R;
     Host.modelScale := splat3 1%R;
     Host.illumType := 0; Host.imgEss := 0; Host.showEss := 0;
     Host.useLinear := 0; Host.useGradient := 0; Host.technique := 0;
     Host.seed := 0; Host.iteration := 0 |}.

Definition raycast0 : Host.raycast_params :=
  {| Host.samplingRate := 1%R; Host.useAO := 0; Host.contours := 0;
     Host.aerial := 0; Host.brickRes := splat3 1%R |}.

Definition pathtrace0 : Host.pathtrace_params :=
  {| Host.max_extinction := 80%R |}.

(** The object after construction and [initialize]. *)
Definition fresh : Host.VolumeRenderCL :=
  {| Host._raycastKernel :=
       {| Host.arg_CAMERA := camera0; Host.arg_RENDERING := rendering0;
          Host.arg_RAYCAST := raycast0; Host.arg_PATHTRACE := pathtrace0;
          Host.built_with_ESS := true |};
     Host._volumesMem := []; Host._bricksMem := []; Host._tffMem := [];
     Host._tffPrefixMem := []; Host._volLoaded := false;
     Host._modelScale := [1%R; 1%R; 1%R]; Host._useImgESS := false;
     Host._timestep := 0; Host._camera_params := camera0;
     Host._rendering_params := rendering0;
     Host._raycast_params := raycast0;
     Host._pathtrace_params := pathtrace0;
     Host._dr := {| Host._prop := props1; Host._raw_data := [] |} |}.

(** The one-voxel data set loaded. *)
Definition loaded : Host.VolumeRenderCL :=
  fst (Host.loadVolumeData props1 [[x4d]] fresh).

(** The same object after five rendered frames. *)
Definition frame5 : Host.VolumeRenderCL :=
  Host.with_rendering
    (Host.set_iteration 5 (Host._rendering_params loaded)) loaded.

(** A transfer function table of two entries: transparent black, then
    opaque white. *)
Definition tff2 : list byte :=
  [x00; x00; x00; x00; xff; xff; xff; xff].

(** *** Kernel scenes *)

Open Scope R_scope.


(** Sampling rate 1, black background, every toggle off. *)
Definition args1 : Kernel.Args :=
  {| Kernel.samplingRate := 1; Kernel.illumType := 0%Z; Kernel.showEss := 0%Z;
     Kernel.useLinear := 0%Z; Kernel.background := mk4 0 0 0 0;
     Kernel.useAO := 0%Z; Kernel.contours := 0%Z; Kernel.aerial := 0%Z;
     Kernel.imgEss := 0%Z; Kernel.seed := 0%Z; Kernel.iteration := 0%Z |}.

(** A ray of unit direction (6/7, 2/7, 3/7) that enters the cube through
    the face x = -1 at t = 7/6 and leaves it through x = 1 at t = 7/2. *)
Definition rayA : Kernel.WorkItem :=
  {| Kernel.texCoords := (0, 0)%Z; Kernel.groupId := (0, 0)%Z;
     Kernel.camPos := mk3 (-2) (- (5 / 6)) (- (5 / 4));
     Kernel.rayDir := mk3 (6 / 7) (2 / 7) (3 / 7);
     Kernel.rand := 1 / 2 |}.

(** The transfer function of two entries (white, alpha 0) and (white,
    alpha 255) under the linear sampler, and its prefix image [0; 255]. *)
Definition rampTff (d : R) : float4 := mk4 1 1 1 (clamp (2 * d - 1 / 2) 0 1).
Definition rampPrefix (d : R) : Z := if Rltb d (1 / 2) then 0%Z else 255%Z.

(** A volume of one voxel of density 1/2 under the ramp: a uniform fog of
    alpha 1/2.  Its brick image has two cells along x. *)
Definition fog : Kernel.Scene :=
  {| Kernel.volDataLinear := fun _ => mk4 (1 / 2) 0 0 1;
     Kernel.volDataNearest := fun _ => mk4 (1 / 2) 0 0 1;
     Kernel.volOrder := CLK_R;
     Kernel.volRes := mki3 1 1 1;
     Kernel.volBrickData := fun _ => (1 / 2, 1 / 2);
     Kernel.bricksRes := mki3 2 1 1;
     Kernel.tffData := rampTff;
     Kernel.tffPrefix := rampPrefix;
     Kernel.inHitImg := fun _ _ => 1%Z;
     Kernel.inAccumulate := fun _ _ => mk4 0 0 0 0 |}.



(** The values [setup] computes for [rayA] in a scene of one voxel and
    2x1x1 bricks at sampling rate 1. *)
Definition suA : Kernel.RaySetup :=
  {| Kernel.tnear := 7 / 6; Kernel.tfar := 7 / 2; Kernel.sampleDist := 7 / 3;
     Kernel.stepSize := 7 / 9; Kernel.offset := 7 / 20;
     Kernel.voxLen := mk3 1 1 1; Kernel.refSamplingInterval := 1;
     Kernel.step := mki3 1 1 1; Kernel.deltaT := mk3 (7 / 6) 7 (14 / 3);
     Kernel.exit := mki3 2 1 1; Kernel.brickDia := 3 |}.

(** The state in which [rayA] reaches the first loop test. *)
Definition stA (bg : float4) : Kernel.RayState :=
  {| Kernel.t := 7 / 6; Kernel.t_exit := 7 / 2; Kernel.result := bg;
     Kernel.alpha := 0; Kernel.pos := splat3 0;
     Kernel.tfColor := mk4 0 0 0 0; Kernel.cell := mki3 0 0 0;
     Kernel.tv := mk3 (7 / 3) (77 / 12) (21 / 4) |}.

End Examples.

(** * Notions used in the statements *)

(** An action of the host class that leaves a component of the object as it
    found it, whether it returns or throws. *)
Definition keeps {X A : Type} (proj : Host.VolumeRenderCL -> X)
    (m : Host.M A) : Prop :=
  forall s s1 r, m s = (s1, r) -> proj s1 = proj s.

(** A (min, max) pair of [generateBricks] with both parts in [0,1], and one
    whose parts are in order. *)
Definition unitPair (acc : R * R) : Prop :=
  (0 <= fst acc <= 1)%R /\ (0 <= snd acc <= 1)%R.

Definition ordered (acc : R * R) : Prop := (fst acc <= snd acc)%R.


(** A point inside the closed box from [lo] to [hi]. *)
Definition in_box (lo hi p : CL.float3) : Prop :=
  (CL.fx lo <= CL.fx p <= CL.fx hi)%R /\
  (CL.fy lo <= CL.fy p <= CL.fy hi)%R /\
  (CL.fz lo <= CL.fz p <= CL.fz hi)%R.

(** A generator state whose components are 32-bit unsigned values. *)
Definition uint4_ok (taus : Taus.uint4) : Prop :=
  0 <= Taus.ux taus < 2 ^ 32 /\ 0 <= Taus.uy taus < 2 ^ 32 /\
  0 <= Taus.uz taus < 2 ^ 32 /\ 0 <= Taus.uw taus < 2 ^ 32.

(** * Properties *)

(** ** The alpha prefix sum *)

Section PrefixSum.

Import Tff.







End PrefixSum.


Section HostFrames.

Import Host.

Lemma keeps_ret {X A} (proj : VolumeRenderCL -> X) (a : A) :
  keeps proj (ret a).
Proof. intros s s1 r H; inversion H; reflexivity. Qed.

Lemma keeps_throw {X A} (proj : VolumeRenderCL -> X) (e : exception) :
  keeps proj (@throw A e).
Proof. intros s s1 r H; inversion H; reflexivity. Qed.

Lemma keeps_get {X} (proj : VolumeRenderCL -> X) : keeps proj get.
Proof. intros s s1 r H; inversion H; reflexivity. Qed.

Lemma keeps_modify {X} (proj : VolumeRenderCL -> X) f :
  (forall s, proj (f s) = proj s) -> keeps proj (modify f).
Proof. intros Hf s s1 r H; inversion H; apply Hf. Qed.

Lemma keeps_bind {X A B} (proj : VolumeRenderCL -> X) (m : M A) (k : A -> M B) :
  keeps proj m -> (forall a, keeps proj (k a)) -> keeps proj (bind m k).
Proof.
  intros Hm Hk s s1 r H. unfold bind in H.
  destruct (m s) as [s' [e|a]] eqn:E.
  - inversion H; subst. eapply Hm; eauto.
  - apply Hk in H. rewrite H. eapply Hm; eauto.
Qed.

Lemma keeps_if {X A} (proj : VolumeRenderCL -> X) (c : bool) (m1 m2 : M A) :
  keeps proj m1 -> keeps proj m2 -> keeps proj (if c then m1 else m2).
Proof. destruct c; auto. Qed.




End HostFrames.



(** ** Setters and the iteration counter *)

Section Setters.

Import Host.

Lemma uploadLoop_keeps {X} (proj : VolumeRenderCL -> X) order ty m res vs :
  (forall v s, proj (with_volumesMem v s) = proj s) ->
  (forall d s, proj (with_dr d s) = proj s) ->
  keeps proj (uploadLoop order ty m res vs).
Proof.
  intros Hv Hd. induction vs as [|v vs IH]; simpl.
  - apply keeps_ret.
  - apply keeps_if.
    + apply keeps_bind; [apply keeps_modify; intros; apply Hd|].
      intros _; apply keeps_throw.
    + apply keeps_bind; [|intros _; exact IH].
      apply keeps_modify. intros s0.
      destruct res as [[[rx ry] rz] rt]. apply Hv.
Qed.

Lemma volDataToCLmem_keeps {X} (proj : VolumeRenderCL -> X) vs :
  (forall v s, proj (with_volumesMem v s) = proj s) ->
  (forall d s, proj (with_dr d s) = proj s) ->
  keeps proj (volDataToCLmem vs).
Proof.
  intros Hv Hd. unfold volDataToCLmem.
  apply keeps_bind; [apply keeps_get|]. intros s0.
  apply keeps_if; [apply keeps_ret|].
  destruct (channelOrderOf _); [|apply keeps_throw].
  destruct (dataTypeOf _) as [[ty m]|]; [|apply keeps_throw].
  apply keeps_bind; [apply keeps_modify; intros; apply Hv|]. intros _.
  apply uploadLoop_keeps; assumption.
Qed.

Lemma setObjEss_counter (b : bool) (s : VolumeRenderCL) :
  counter (fst (setObjEss b s)) = counter s.
Proof.
  assert (K : keeps counter (setObjEss b)).
  { unfold setObjEss.
    apply keeps_bind; [apply keeps_modify; reflexivity|]. intros _.
    apply keeps_bind; [apply keeps_get|]. intros s0.
    apply keeps_if; [|apply keeps_ret].
    apply volDataToCLmem_keeps; reflexivity. }
  destruct (setObjEss b s) as [s1 r] eqn:E.
  exact (K _ _ _ E).
Qed.

End Setters.

(** C6, as the code has it: the setters of the view matrix (with a volume
    loaded), the clip box and the technique leave the iteration counter,
    and the copy of it bound to the kernel, at zero; the setters of the
    projection kind, the sampling rate, the illumination mode, the boolean
    toggles, the background and the extinction coefficient leave the counter
    as it was. *)
Theorem setters_iteration_counter (s : Host.VolumeRenderCL) :
  (forall view,
     let s' := fst (Host.updateView view s) in
     if Host.has_data (Host._dr s)
        && (3 <=? List.length (Host._modelScale s))%nat
     then Host.counter s' = 0 /\ Host.boundCounter s' = 0
     else Host.counter s' = Host.counter s) /\
  (forall bl tr,
     let s' := fst (Host.setBBox bl tr s) in
     Host.counter s' = 0 /\ Host.boundCounter s' = 0) /\
  (forall tech,
     let s' := fst (Host.setTechnique tech s) in
     Host.counter s' = 0 /\ Host.boundCounter s' = 0) /\
  (forall b, Host.counter (fst (Host.setCamOrtho b s)) = Host.counter s) /\
  (forall r, Host.counter (fst (Host.updateSamplingRate r s)) = Host.counter s) /\
  (forall i, Host.counter (fst (Host.setIllumination i s)) = Host.counter s) /\
  (forall b, Host.counter (fst (Host.setAmbientOcclusion b s)) = Host.counter s) /\
  (forall b, Host.counter (fst (Host.setShowESS b s)) = Host.counter s) /\
  (forall b,
     Host.counter (fst (Host.setLinearInterpolation b s)) = Host.counter s) /\
  (forall b, Host.counter (fst (Host.setContours b s)) = Host.counter s) /\
  (forall b, Host.counter (fst (Host.setAerial b s)) = Host.counter s) /\
  (forall b, Host.counter (fst (Host.setImgEss b s)) = Host.counter s) /\
  (forall b, Host.counter (fst (Host.setObjEss b s)) = Host.counter s) /\
  (forall b, Host.counter (fst (Host.setUseGradient b s)) = Host.counter s) /\
  (forall c, Host.counter (fst (Host.setBackground c s)) = Host.counter s) /\
  (forall e, Host.counter (fst (Host.setExtinction e s)) = Host.counter s).
Proof.
  repeat split; intros; try reflexivity.
  - subst s'. unfold Host.updateView, Host.bind, Host.get.
    destruct (Host.has_data (Host._dr s)); simpl; [|reflexivity].
    destruct (List.length (Host._modelScale s)) as [|[|[|n]]];
      simpl; try reflexivity.
    split; reflexivity.
  - apply setObjEss_counter.
Qed.

(** C6 fails for the projection kind and for the sampling rate: after five
    frames the counter is still 5 behind either setter. *)
Lemma setters_iteration_counter_counterexample :
  Host.counter Examples.frame5 = 5 /\
  Host.counter (fst (Host.setCamOrtho true Examples.frame5)) <> 0 /\
  Host.counter (fst (Host.updateSamplingRate 2%R Examples.frame5)) <> 0.
Proof.
  repeat split; vm_compute; discriminate.
Qed.

(** ** Loading a volume *)

Section LoadVolume.

Import Host.



End LoadVolume.




(** ** Free-flight sampling of the path tracer *)

Section FreeFlight.

Import CL Kernel.
Open Scope Z_scope.

Variables (sc : Scene) (rand : Z) (ray_pos ray_dir : float3)
          (max_extinction : R) (color0 : float4).

Let loop := sample_loop sc rand ray_pos ray_dir max_extinction color0.

(** From a counter [cnt <= 512] the loop needs at most [513 - cnt] passes;
    it comes back with the counter advanced and at most 513. *)
Lemma sample_loop_bounded (fuel : nat) : forall (cnt : Z) (t : R),
  0 <= cnt <= 512 -> 513 - cnt <= Z.of_nat fuel ->
  exists r,
    loop fuel cnt t = Some r /\
    cnt < cnt_out r <= 513 /\
    (interacts r = true ->
       in_volume (ray_pos_out r) = true /\ cnt_out r <= 512) /\
    (interacts r = false ->
       ray_pos_out r = ray_pos /\ colorOut r = color0).
Proof.
  induction fuel as [|fuel IH]; intros cnt t Hc Hf.
  - change (Z.of_nat 0) with 0 in Hf. lia.
  - unfold loop. cbn [sample_loop].
    assert (Hw : wrap32 (cnt + 1) = cnt + 1).
    { unfold wrap32. apply Z.mod_small. lia. }
    rewrite Hw.
    set (t' := (t - ln (1 - RNG.mapUintFloat (RNG.ParallelRNG rand))
                    / max_extinction)%R).
    set (pos' := add3 ray_pos (scale3 ray_dir t')).
    destruct (in_volume pos') eqn:Hin; cbn [negb].
    + destruct (512 <? cnt + 1) eqn:Hb.
      * eexists; split; [reflexivity|]. cbn.
        apply Z.ltb_lt in Hb.
        repeat split; try lia; discriminate.
      * apply Z.ltb_ge in Hb.
        match goal with
        | |- context [Rltb ?x ?y] => destruct (Rltb x y)
        end.
        -- destruct (IH (cnt + 1) t') as (r & Hr & Hcnt & Hi & Hn);
             [lia | lia |].
           exists r. fold loop. rewrite Hr.
           repeat split; try lia; tauto.
        -- eexists; split; [reflexivity|]. cbn.
           repeat split; try lia; auto; discriminate.
    + eexists; split; [reflexivity|]. cbn.
      repeat split; try lia; discriminate.
Qed.

(** More fuel than the counter allows does not change the result. *)
Lemma sample_loop_fuel (fuel : nat) : forall (cnt : Z) (t : R) r,
  loop fuel cnt t = Some r ->
  forall fuel', (fuel <= fuel')%nat -> loop fuel' cnt t = Some r.
Proof.
  induction fuel as [|fuel IH]; intros cnt t r H fuel' Hle.
  - discriminate H.
  - destruct fuel' as [|fuel']; [lia|].
    unfold loop in *. cbn [sample_loop] in *.
    destruct (negb (in_volume _)); [exact H|].
    destruct (512 <? wrap32 (cnt + 1)); [exact H|].
    destruct (Rltb _ _); [|exact H].
    apply IH; [exact H | lia].
Qed.

End FreeFlight.

(** C7: the rejection loop of [sample_interaction] always returns, after at
    most 513 passes (the counter test [cnt > 512] stops it); it reports an
    interaction only for a sample inside the volume found within the first
    512 passes, and otherwise reports none and leaves the ray position and
    the colour untouched; [trace_volume] then returns the environment
    colour. *)
Theorem sample_interaction_terminates
    (sc : Kernel.Scene) (sh : Kernel.Shaders) (rand : Z)
    (ray_pos ray_dir : CL.float3) (t0 max_extinction : R) :
  let start := CL.add3 ray_pos (CL.scale3 ray_dir t0) in
  let color := CL.mk4 1 1 1 1 in
  exists r,
    Kernel.sample_interaction sc rand start ray_dir max_extinction color
      = Some r /\
    (forall fuel, (513 <= fuel)%nat ->
       Kernel.sample_loop sc rand start ray_dir max_extinction color fuel 0 0%R
         = Some r) /\
    1 <= Kernel.cnt_out r <= 513 /\
    (Kernel.interacts r = true ->
       Kernel.in_volume (Kernel.ray_pos_out r) = true /\
       Kernel.cnt_out r <= 512) /\
    (Kernel.interacts r = false ->
       Kernel.ray_pos_out r = start /\ Kernel.colorOut r = color /\
       Kernel.trace_volume sc sh rand ray_pos ray_dir t0 max_extinction
         = Some (CL.splat3 1)).
Proof.
  intros start color.
  destruct (sample_loop_bounded sc rand start ray_dir max_extinction color
              Kernel.sample_fuel 0 0%R) as (r & Hr & Hc & Hi & Hn).
  - lia.
  - unfold Kernel.sample_fuel. lia.
  - exists r. split; [exact Hr|]. split; [|split; [lia|split; [exact Hi|]]].
    + intros fuel Hf.
      eapply sample_loop_fuel; [exact Hr | exact Hf].
    + intros Hfalse. destruct (Hn Hfalse) as [Hp Hcol].
      split; [exact Hp|]. split; [exact Hcol|].
      unfold Kernel.trace_volume. fold start. fold color.
      unfold Kernel.sample_interaction in *. rewrite Hr, Hfalse. reflexivity.
Qed.

(** ** Progressive accumulation *)

Lemma trace_volume_total
    (sc : Kernel.Scene) (sh : Kernel.Shaders) (rand : Z)
    (ray_pos ray_dir : CL.float3) (t0 max_extinction : R) :
  exists col,
    Kernel.trace_volume sc sh rand ray_pos ray_dir t0 max_extinction = Some col.
Proof.
  unfold Kernel.trace_volume, Kernel.sample_interaction.
  destruct (sample_loop_bounded sc rand
              (CL.add3 ray_pos (CL.scale3 ray_dir t0)) ray_dir max_extinction
              (CL.mk4 1 1 1 1) Kernel.sample_fuel 0 0%R) as (r & Hr & _).
  - lia.
  - unfold Kernel.sample_fuel. lia.
  - rewrite Hr. destruct (Kernel.interacts r); eexists; reflexivity.
Qed.

(** C8: the pixel a work item writes to the accumulation buffer.  At
    iteration 0 it is the new sample [col]; at an iteration [n > 0] it is
    [prev + (col - prev) / (n + 1)], where [prev] is the pixel read from the
    input accumulation buffer.  The [uint] sum [n + 1] does not wrap for
    [n < 2^32 - 1]. *)
Theorem pathTrace_running_mean
    (sc : Kernel.Scene) (sh : Kernel.Shaders) (a : Kernel.Args)
    (wi : Kernel.WorkItem) (tnear0 : R) :
  0 <= Kernel.iteration a < 2 ^ 32 - 1 ->
  let n := Kernel.iteration a in
  let prev :=
    CL.xyz (Kernel.inAccumulate sc (fst (Kernel.texCoords wi))
              (snd (Kernel.texCoords wi))) in
  exists col out,
    Kernel.trace_volume sc sh
      (RNG.ParallelRNG3 (fst (Kernel.texCoords wi)) (snd (Kernel.texCoords wi))
         (Kernel.seed a))
      (Kernel.camPos wi) (Kernel.rayDir wi) tnear0 80 = Some col /\
    Kernel.pathTrace sc sh a wi tnear0 =
      Some (if n =? 0
            then CL.mk4 (CL.fx col) (CL.fy col) (CL.fz col) 1
            else CL.mk4
                   (CL.fx prev + (CL.fx col - CL.fx prev) / IZR (n + 1))
                   (CL.fy prev + (CL.fy col - CL.fy prev) / IZR (n + 1))
                   (CL.fz prev + (CL.fz col - CL.fz prev) / IZR (n + 1))
                   1,
            out).
Proof.
  intros Hn n prev.
  destruct (trace_volume_total sc sh
              (RNG.ParallelRNG3 (fst (Kernel.texCoords wi))
                 (snd (Kernel.texCoords wi)) (Kernel.seed a))
              (Kernel.camPos wi) (Kernel.rayDir wi) tnear0 80) as [col Hcol].
  assert (Hw : wrap32 (n + 1) = n + 1).
  { unfold wrap32. apply Z.mod_small. subst n. lia. }
  exists col.
  unfold Kernel.pathTrace. rewrite Hcol.
  unfold Kernel.accumulate. fold n. fold prev. rewrite Hw.
  destruct (n =? 0); eexists; (split; reflexivity).
Qed.

Lemma pathTrace_running_mean_witness :
  let a :=
    {| Kernel.samplingRate := 1; Kernel.illumType := 0; Kernel.showEss := 0;
       Kernel.useLinear := 0; Kernel.background := CL.mk4 0 0 0 0;
       Kernel.useAO := 0; Kernel.contours := 0; Kernel.aerial := 0;
       Kernel.imgEss := 0; Kernel.seed := 7; Kernel.iteration := 3 |} in
  0 <= Kernel.iteration a < 2 ^ 32 - 1 /\
  forall sc sh wi tnear0,
  exists col out,
    Kernel.trace_volume sc sh
      (RNG.ParallelRNG3 (fst (Kernel.texCoords wi)) (snd (Kernel.texCoords wi))
         (Kernel.seed a))
      (Kernel.camPos wi) (Kernel.rayDir wi) tnear0 80 = Some col /\
    Kernel.pathTrace sc sh a wi tnear0 =
      Some (let prev :=
              CL.xyz (Kernel.inAccumulate sc (fst (Kernel.texCoords wi))
                        (snd (Kernel.texCoords wi))) in
            CL.mk4
              (CL.fx prev + (CL.fx col - CL.fx prev) / IZR (3 + 1))
              (CL.fy prev + (CL.fy col - CL.fy prev) / IZR (3 + 1))
              (CL.fz prev + (CL.fz col - CL.fz prev) / IZR (3 + 1))
              1,
            out).
Proof.
  intros a.
  assert (Hn : 0 <= Kernel.iteration a < 2 ^ 32 - 1) by (simpl; lia).
  split; [exact Hn|].
  intros sc sh wi tnear0.
  exact (pathTrace_running_mean sc sh a wi tnear0 Hn).
Defined.

(** ** Facts on the float operations *)

Section FloatFacts.

Import CL.
Open Scope R_scope.

Lemma Rltb_true a b : a < b -> Rltb a b = true.
Proof. intros H. unfold Rltb. destruct (Rlt_dec a b); [reflexivity | lra]. Qed.

Lemma Rltb_false a b : b <= a -> Rltb a b = false.
Proof. intros H. unfold Rltb. destruct (Rlt_dec a b); [lra | reflexivity]. Qed.

Lemma Rleb_true a b : a <= b -> Rleb a b = true.
Proof. intros H. unfold Rleb. destruct (Rle_dec a b); [reflexivity | lra]. Qed.

Lemma Rleb_false a b : b < a -> Rleb a b = false.
Proof. intros H. unfold Rleb. destruct (Rle_dec a b); [lra | reflexivity]. Qed.

Lemma Rltb_spec a b : Rltb a b = true <-> a < b.
Proof.
  unfold Rltb. destruct (Rlt_dec a b); split; auto; discriminate.
Qed.

Lemma Rleb_spec a b : Rleb a b = true <-> a <= b.
Proof.
  unfold Rleb. destruct (Rle_dec a b); split; auto; discriminate.
Qed.

(** [powr] of a base in [0,1] with a positive exponent stays in [0,1]. *)
Lemma native_powr_unit x y : 0 <= x <= 1 -> 0 < y -> 0 <= native_powr x y <= 1.
Proof.
  intros Hx Hy. unfold native_powr.
  destruct (Req_dec_T x 0) as [E|E]; [lra|].
  assert (Hpos : 0 < x) by lra.
  unfold Rpower. split.
  - left. apply exp_pos.
  - rewrite <- exp_0. destruct Hx as [_ Hx1].
    destruct Hx1 as [Hlt|Heq].
    + left. apply exp_increasing.
      assert (ln x < 0) by (rewrite <- ln_1; apply ln_increasing; lra).
      nra.
    + subst x. rewrite ln_1. right. f_equal. lra.
Qed.



End FloatFacts.

(** ** The compositing loop *)

Section Compositing.

Import CL Kernel.
Open Scope R_scope.

Variables (ess : bool) (sc : Scene) (sh : Shaders) (a : Args) (wi : WorkItem)
          (su : RaySetup).

Let step := ray_step ess sc sh a wi su.







(** *** Single transitions, by the tests that select them *)




Lemma outer_done (st : RayState) :
  tfar su <= t st -> step (Outer, st) = (Done, st).
Proof.
  intros H. unfold step, ray_step, outer_step. cbn [fst snd].
  rewrite Rltb_false by exact H. reflexivity.
Qed.






End Compositing.


(** ** Evaluation on concrete rays *)

(** Decide the comparisons, minima and maxima of closed terms. *)
Ltac rdecide :=
  repeat match goal with
  | |- context [CL.Rltb ?x ?y] =>
      first [ rewrite (Rltb_true x y) by lra
            | rewrite (Rltb_false x y) by lra ]
  | |- context [CL.Rleb ?x ?y] =>
      first [ rewrite (Rleb_true x y) by lra
            | rewrite (Rleb_false x y) by lra ]
  | |- context [Rmin ?x ?y] =>
      first [ rewrite (Rmin_left x y) by lra
            | rewrite (Rmin_right x y) by lra ]
  | |- context [Rmax ?x ?y] =>
      first [ rewrite (Rmax_left x y) by lra
            | rewrite (Rmax_right x y) by lra ]
  end.

Section RayA.

Import CL Kernel Examples.
Open Scope R_scope.




Lemma select_minus1 {A : Type} (x y : A) : select x y (-1) = y.
Proof. reflexivity. Qed.






End RayA.

Section Fog.

Import CL Kernel Examples.
Open Scope R_scope.





Lemma fog_not_skipped (c : int3) :
  brickSkipped fog (volBrickData fog c) = false.
Proof.
  unfold brickSkipped. cbn [fog volBrickData tffData snd fst].
  unfold rampTff, clamp. cbn [w4]. rdecide. reflexivity.
Qed.





End Fog.

(** ** The brick skip test *)

Lemma outer_step_phase (sc : Kernel.Scene) (su : Kernel.RaySetup)
    (st : Kernel.RayState) :
  (Kernel.t st < Kernel.tfar su)%R ->
  let next := Kernel.outer_step sc su st in
  fst next
  = (if Kernel.brickSkipped sc (Kernel.volBrickData sc (Kernel.cell st))
     then Kernel.Outer else Kernel.Inner) /\
  Kernel.alpha (snd next) = Kernel.alpha st /\
  Kernel.result (snd next) = Kernel.result st /\
  Kernel.t (snd next)
  = (if Kernel.brickSkipped sc (Kernel.volBrickData sc (Kernel.cell st))
     then Kernel.t_exit (snd next) else Kernel.t st).
Proof.
  intros Ht next. subst next. unfold Kernel.outer_step.
  rewrite Rltb_true by exact Ht.
  destruct (Kernel.brickSkipped sc _); cbn; auto.
Qed.

(** C3, as the code has it: in the brick loop a brick is skipped (the ray
    parameter jumps to the brick's exit and the loop goes on with the next
    brick, nothing composited) if and only if the transfer function's alpha
    at the brick's largest density is below 1e-6 and the alpha prefix sums
    looked up at its smallest and largest density are equal; otherwise the
    brick is sampled from the current ray parameter. *)
Theorem brick_skip_condition (sc : Kernel.Scene) (su : Kernel.RaySetup)
    (st : Kernel.RayState) :
  (Kernel.t st < Kernel.tfar su)%R ->
  let mm := Kernel.volBrickData sc (Kernel.cell st) in
  let next := Kernel.outer_step sc su st in
  (fst next = Kernel.Outer <->
   (CL.w4 (Kernel.tffData sc (snd mm)) < 1 / 1000000)%R /\
   Kernel.tffPrefix sc (fst mm) = Kernel.tffPrefix sc (snd mm)) /\
  (fst next = Kernel.Outer ->
   Kernel.t (snd next) = Kernel.t_exit (snd next) /\
   Kernel.alpha (snd next) = Kernel.alpha st /\
   Kernel.result (snd next) = Kernel.result st) /\
  (fst next <> Kernel.Outer ->
   fst next = Kernel.Inner /\ Kernel.t (snd next) = Kernel.t st).
Proof.
  intros Ht mm next.
  destruct (outer_step_phase sc su st Ht) as (Hph & Hal & Hres & Htt).
  fold next in Hph, Hal, Hres, Htt. fold mm in Hph, Htt.
  assert (Hskip : Kernel.brickSkipped sc mm = true <->
                  (CL.w4 (Kernel.tffData sc (snd mm)) < 1 / 1000000)%R /\
                  Kernel.tffPrefix sc (fst mm) = Kernel.tffPrefix sc (snd mm)).
  { unfold Kernel.brickSkipped.
    destruct (CL.Rltb _ _) eqn:E.
    - apply Rltb_spec in E. rewrite Z.eqb_eq. tauto.
    - split; [discriminate|]. intros [Hlt _].
      apply Rltb_spec in Hlt. congruence. }
  destruct (Kernel.brickSkipped sc mm) eqn:Hb.
  - split; [|split].
    + rewrite Hph. split; [intros _; apply Hskip; reflexivity | reflexivity].
    + intros _. auto.
    + intros Hne. congruence.
  - split; [|split].
    + rewrite Hph. split; [discriminate|].
      intros H. apply Hskip in H. discriminate.
    + rewrite Hph. discriminate.
    + intros _. auto.
Qed.

Lemma brick_skip_condition_witness :
  let st := Examples.stA (CL.mk4 0 0 0 0) in
  let mm := Kernel.volBrickData Examples.fog (Kernel.cell st) in
  let next := Kernel.outer_step Examples.fog Examples.suA st in
  (Kernel.t st < Kernel.tfar Examples.suA)%R /\
  (fst next = Kernel.Outer <->
   (CL.w4 (Kernel.tffData Examples.fog (snd mm)) < 1 / 1000000)%R /\
   Kernel.tffPrefix Examples.fog (fst mm)
   = Kernel.tffPrefix Examples.fog (snd mm)).
Proof.
  intros st mm next.
  assert (Ht : (Kernel.t st < Kernel.tfar Examples.suA)%R) by (simpl; lra).
  split; [exact Ht|].
  exact (proj1 (brick_skip_condition Examples.fog Examples.suA st Ht)).
Defined.

(** C3 fails on a brick of uniform density 1/2 under the ramp transfer
    function: the prefix sums looked up at its smallest and largest density
    are equal, and the brick is not skipped but sampled, because its alpha
    1/2 is not below 1e-6. *)
Lemma brick_skip_counterexample :
  let st := Examples.stA (CL.mk4 0 0 0 0) in
  let mm := Kernel.volBrickData Examples.fog (Kernel.cell st) in
  Kernel.tffPrefix Examples.fog (fst mm) = Kernel.tffPrefix Examples.fog (snd mm) /\
  fst (Kernel.outer_step Examples.fog Examples.suA st) = Kernel.Inner.
Proof.
  intros st mm. split; [reflexivity|].
  assert (Ht : (Kernel.t st < Kernel.tfar Examples.suA)%R) by (simpl; lra).
  destruct (outer_step_phase Examples.fog Examples.suA st Ht) as [Hph _].
  rewrite Hph, fog_not_skipped. reflexivity.
Qed.

(** ** Brick generation *)

Section Bricks.

Import CL Kernel.
Open Scope R_scope.

Variable voxel : Z -> Z -> Z -> R.
Hypothesis voxel_unit : forall i j k, 0 <= voxel i j k <= 1.

Let visit (j k : Z) (acc : R * R) (i : Z) : R * R :=
  (Rmin (fst acc) (voxel i j k), Rmax (snd acc) (voxel i j k)).

Lemma visit_unit j k acc i : unitPair acc -> unitPair (visit j k acc i).
Proof.
  intros [H1 H2]. pose proof (voxel_unit i j k) as Hv.
  unfold unitPair, visit. cbn [fst snd].
  unfold Rmin, Rmax.
  destruct (Rle_dec (fst acc) (voxel i j k)), (Rle_dec (snd acc) (voxel i j k));
    lra.
Qed.

Lemma visit_ordered j k acc i : ordered (visit j k acc i).
Proof.
  unfold ordered, visit. cbn [fst snd].
  pose proof (Rmin_r (fst acc) (voxel i j k)).
  pose proof (Rmax_r (snd acc) (voxel i j k)). lra.
Qed.

Lemma visit_keeps_ordered j k acc i :
  ordered acc -> ordered (visit j k acc i).
Proof. intros _. apply visit_ordered. Qed.

(** A fold of steps that keep an invariant keeps it; a fold over a
    non-empty list of steps that establish a property establishes it. *)
Lemma fold_keeps {A B : Type} (P : A -> Prop) (f : A -> B -> A) (l : list B) :
  (forall x b, P x -> P (f x b)) -> forall x, P x -> P (fold_left f l x).
Proof.
  intros Hf. induction l as [|b l IH]; intros x Hx; [exact Hx|].
  cbn. apply IH, Hf, Hx.
Qed.

Lemma fold_establishes {A B : Type} (P Q : A -> Prop) (f : A -> B -> A)
    (l : list B) :
  (forall x b, P x -> P (f x b)) ->
  (forall x b, P x -> Q (f x b)) ->
  (forall x b, Q x -> Q (f x b)) ->
  l <> [] -> forall x, P x -> Q (fold_left f l x).
Proof.
  intros HP HPQ HQ Hl x Hx. destruct l as [|b l]; [congruence|].
  cbn. apply fold_keeps; [exact HQ | apply HPQ, Hx].
Qed.

Lemma zrange_nonempty lo hi : (lo < hi)%Z -> zrange lo hi <> [].
Proof.
  intros H. unfold zrange.
  destruct (Z.to_nat (hi - lo)) eqn:E; [lia | discriminate].
Qed.

Lemma scanBlock_unit bx by_ bz : unitPair (scanBlock voxel bx by_ bz).
Proof.
  unfold scanBlock.
  apply fold_keeps; [|unfold unitPair; cbn; lra].
  intros acc k Hacc. apply fold_keeps; [|exact Hacc].
  intros acc' j Hacc'. apply fold_keeps; [|exact Hacc'].
  intros acc'' i. apply visit_unit.
Qed.

Lemma scanBlock_ordered bx by_ bz :
  (fst bx < snd bx)%Z -> (fst by_ < snd by_)%Z -> (fst bz < snd bz)%Z ->
  ordered (scanBlock voxel bx by_ bz).
Proof.
  intros Hx Hy Hz. unfold scanBlock.
  set (row k acc j :=
         fold_left (fun acc i => visit j k acc i)
                   (zrange (fst bx) (snd bx)) acc).
  set (slab acc k :=
         fold_left (row k) (zrange (fst by_) (snd by_)) acc).
  assert (Hrow_o : forall k acc j, ordered (row k acc j)).
  { intros k acc j.
    apply (fold_establishes (fun _ => True) ordered);
      auto using visit_ordered, zrange_nonempty. }
  assert (Hslab_o : forall acc k, ordered (slab acc k)).
  { intros acc k.
    apply (fold_establishes (fun _ => True) ordered);
      auto using zrange_nonempty. }
  change (ordered (fold_left slab (zrange (fst bz) (snd bz)) (1, 0))).
  apply (fold_establishes (fun _ => True) ordered);
    auto using zrange_nonempty.
Qed.

End Bricks.

Section BrickGrid.

Import CL Kernel.
Open Scope Z_scope.

(** [ceil] of a quotient of integers, by a positive divisor. *)
Lemma ceilDivF_bound (a b : Z) :
  0 < b -> (ceilDivF a b - 1) * b < a <= ceilDivF a b * b.
Proof.
  intros Hb. unfold ceilDivF.
  pose proof (Zceil_bound (IZR a / IZR b)) as [H1 H2].
  set (c := Zceil (IZR a / IZR b)) in *.
  assert (Hb' : (0 < IZR b)%R) by (apply IZR_lt; exact Hb).
  split.
  - apply lt_IZR. rewrite mult_IZR, minus_IZR.
    apply (Rmult_lt_compat_r (IZR b)) in H1; [|exact Hb'].
    replace (IZR a / IZR b * IZR b)%R with (IZR a) in H1
      by (field; lra).
    exact H1.
  - apply le_IZR. rewrite mult_IZR.
    apply (Rmult_le_compat_r (IZR b)) in H2; [|lra].
    replace (IZR a / IZR b * IZR b)%R with (IZR a) in H2
      by (field; lra).
    exact H2.
Qed.

Lemma brickEdge_pos (res : Z) : 1 <= Host.brickEdge res.
Proof. unfold Host.brickEdge. lia. Qed.

(** With the brick image sized by the host, every cell of the image covers
    at least one voxel. *)
Lemma brickBounds_nonempty (res coord : Z) :
  0 <= coord < Host.bricksTexSize res ->
  let b := brickBounds res (Host.bricksTexSize res) coord in
  fst b < snd b.
Proof.
  intros Hc. unfold brickBounds. cbn [fst snd].
  pose proof (brickEdge_pos res) as He.
  pose proof (ceilDivF_bound res (Host.brickEdge res) ltac:(lia)) as Ht.
  change (ceilDivF res (Host.brickEdge res)) with (Host.bricksTexSize res) in Ht.
  set (tex := Host.bricksTexSize res) in *.
  set (e := Host.brickEdge res) in *.
  pose proof (ceilDivF_bound res tex ltac:(lia)) as Hv.
  set (vpc := ceilDivF res tex) in *.
  assert (Hres : 0 < res) by nia.
  assert (Hvpc1 : 1 <= vpc) by nia.
  assert (Hvpce : vpc <= e) by nia.
  assert (Hlow : vpc * coord < res) by nia.
  unfold clampZ. nia.
Qed.

End BrickGrid.

(** C10: for a volume with samples in [0,1] and the brick image the host
    allocates for its resolution, the [generateBricks] kernel writes, for
    every cell of the brick image, a pair with 0 <= min <= max <= 1. *)
Theorem generateBricks_min_le_max
    (voxel : Z -> Z -> Z -> R) (rx ry rz : Z) (coord : CL.int3) :
  (forall i j k, (0 <= voxel i j k <= 1)%R) ->
  0 <= CL.ix coord < Host.bricksTexSize rx ->
  0 <= CL.iy coord < Host.bricksTexSize ry ->
  0 <= CL.iz coord < Host.bricksTexSize rz ->
  exists mn mx,
    Kernel.generateBricks voxel (CL.mki3 rx ry rz)
      (CL.mki3 (Host.bricksTexSize rx) (Host.bricksTexSize ry)
         (Host.bricksTexSize rz)) coord = Some (mn, mx) /\
    (0 <= mn)%R /\ (mn <= mx)%R /\ (mx <= 1)%R.
Proof.
  intros Hv Hx Hy Hz.
  unfold Kernel.generateBricks. cbn [CL.ix CL.iy CL.iz].
  replace (Host.bricksTexSize rx <=? CL.ix coord) with false
    by (symmetry; apply Z.leb_gt; lia).
  replace (Host.bricksTexSize ry <=? CL.iy coord) with false
    by (symmetry; apply Z.leb_gt; lia).
  replace (Host.bricksTexSize rz <=? CL.iz coord) with false
    by (symmetry; apply Z.leb_gt; lia).
  cbn [orb].
  match goal with
  | |- context [Kernel.scanBlock voxel ?bx ?by_ ?bz] =>
      pose proof (scanBlock_unit voxel Hv bx by_ bz) as [Hu1 Hu2];
      pose proof (scanBlock_ordered voxel bx by_ bz
                    (brickBounds_nonempty rx _ Hx)
                    (brickBounds_nonempty ry _ Hy)
                    (brickBounds_nonempty rz _ Hz)) as Ho;
      destruct (Kernel.scanBlock voxel bx by_ bz) as [mn mx]
  end.
  unfold ordered in Ho. cbn [fst snd] in *.
  exists mn, mx. repeat split; try reflexivity; lra.
Qed.

(** ** Rays on which every sample is transparent *)

Section Transparent.

Import CL Kernel.
Open Scope R_scope.

Variables (ess : bool) (sc : Scene) (sh : Shaders) (a : Args) (wi : WorkItem)
          (su : RaySetup).

Hypothesis stepSize_pos : 0 < stepSize su.
Hypothesis brickDia_pos : 0 < brickDia su.
Hypothesis transparent :
  forall tt prev, w4 prev = 0 -> w4 (sampleColor sc sh a wi su tt prev) = 0.

Let step := ray_step ess sc sh a wi su.












End Transparent.

Section TransparentPixel.

Import CL Kernel.
Open Scope R_scope.

Variables (sc : Scene) (sh : Shaders) (a : Args) (wi : WorkItem).


Lemma sqr_pos (x : R) : x <> 0 -> 0 < x * x.
Proof. intros H. nra. Qed.

Lemma length3_pos (v : float3) :
  fx v <> 0 \/ fy v <> 0 \/ fz v <> 0 -> 0 < length3 v.
Proof.
  intros H. unfold length3, dot3. apply sqrt_lt_R0.
  pose proof (Rle_0_sqr (fx v)) as Hx. pose proof (Rle_0_sqr (fy v)) as Hy.
  pose proof (Rle_0_sqr (fz v)) as Hz. unfold Rsqr in *.
  destruct H as [H|[H|H]]; apply sqr_pos in H; lra.
Qed.

Hypothesis rate_pos : 0 < samplingRate a.
Hypothesis dir_nonzero :
  fx (rayDir wi) <> 0 \/ fy (rayDir wi) <> 0 \/ fz (rayDir wi) <> 0.
Hypothesis volRes_pos :
  (1 <= ix (volRes sc) /\ 1 <= iy (volRes sc) /\ 1 <= iz (volRes sc))%Z.
Hypothesis bricksRes_pos :
  (1 <= ix (bricksRes sc) /\ 1 <= iy (bricksRes sc)
   /\ 1 <= iz (bricksRes sc))%Z.





Hypothesis showEss_off : showEss a = 0%Z.
Hypothesis transparent :
  forall tn tf tt prev, w4 prev = 0 ->
    w4 (sampleColor sc sh a wi (setup sc a wi tn tf) tt prev) = 0.


End TransparentPixel.


(** ** Transparent transfer functions *)



Section RedCube.

Import CL Kernel Examples.
Open Scope R_scope.




End RedCube.


(** ** Empty-space skipping and the image *)




(** ** Witnesses on the fog and on a small volume *)


Lemma bricksTexSize_pos (res : Z) : 0 < res -> 0 < Host.bricksTexSize res.
Proof.
  intros H.
  pose proof (brickEdge_pos res) as He.
  pose proof (ceilDivF_bound res (Host.brickEdge res) ltac:(lia)) as Ht.
  change (Kernel.ceilDivF res (Host.brickEdge res))
    with (Host.bricksTexSize res) in Ht.
  nia.
Qed.

Lemma generateBricks_min_le_max_witness :
  exists mn mx,
    Kernel.generateBricks (fun _ _ _ => (1 / 2)%R) (CL.mki3 2 2 2)
      (CL.mki3 (Host.bricksTexSize 2) (Host.bricksTexSize 2)
         (Host.bricksTexSize 2)) (CL.mki3 0 0 0) = Some (mn, mx) /\
    (0 <= mn)%R /\ (mn <= mx)%R /\ (mx <= 1)%R.
Proof.
  apply (generateBricks_min_le_max (fun _ _ _ => (1 / 2)%R) 2 2 2
           (CL.mki3 0 0 0)).
  - intros i j k. lra.
  - cbn [CL.ix]. split; [lia | apply bricksTexSize_pos; lia].
  - cbn [CL.iy]. split; [lia | apply bricksTexSize_pos; lia].
  - cbn [CL.iz]. split; [lia | apply bricksTexSize_pos; lia].
Defined.

(** * Further properties of the kernels and of the host class *)

(** ** Ray against box *)

Section Slabs.

Import CL.
Open Scope R_scope.

(** The point of the ray at parameter [t]. *)
Let at_ (o d : float3) (t : R) : float3 := add3 o (scale3 d t).

(** One axis of the slab test. *)
Lemma slab_axis (o d lo hi t : R) :
  d <> 0 -> lo <= hi ->
  (Rmin (1 / d * (hi - o)) (1 / d * (lo - o)) <= t
   /\ t <= Rmax (1 / d * (hi - o)) (1 / d * (lo - o)))
  <-> lo <= o + d * t <= hi.
Proof.
  intros Hd Hlh.
  set (a := 1 / d * (lo - o)). set (b := 1 / d * (hi - o)).
  assert (Ha : a * d = lo - o) by (subst a; field; exact Hd).
  assert (Hb : b * d = hi - o) by (subst b; field; exact Hd).
  destruct (Rlt_dec 0 d) as [Hpos|Hneg].
  - assert (Hab : a <= b) by nra.
    rewrite Rmin_right, Rmax_left by lra. split; intros H; nra.
  - assert (Hd' : d < 0) by lra.
    assert (Hab : b <= a) by nra.
    rewrite Rmin_left, Rmax_right by lra. split; intros H; nra.
Qed.

Lemma Rmax3_le (x y z t : R) :
  Rmax (Rmax x y) (Rmax x z) <= t <-> x <= t /\ y <= t /\ z <= t.
Proof.
  split.
  - intros H.
    pose proof (Rmax_l (Rmax x y) (Rmax x z)).
    pose proof (Rmax_r (Rmax x y) (Rmax x z)).
    pose proof (Rmax_l x y). pose proof (Rmax_r x y).
    pose proof (Rmax_r x z). lra.
  - intros (Hx & Hy & Hz). repeat apply Rmax_lub; assumption.
Qed.

Lemma Rmin3_ge (x y z t : R) :
  t <= Rmin (Rmin x y) (Rmin x z) <-> t <= x /\ t <= y /\ t <= z.
Proof.
  split.
  - intros H.
    pose proof (Rmin_l (Rmin x y) (Rmin x z)).
    pose proof (Rmin_r (Rmin x y) (Rmin x z)).
    pose proof (Rmin_l x y). pose proof (Rmin_r x y).
    pose proof (Rmin_r x z). lra.
  - intros (Hx & Hy & Hz). repeat apply Rmin_glb; assumption.
Qed.

Lemma intersectBBox_slabs (o d lo hi : float3) (t : R) :
  fx d <> 0 -> fy d <> 0 -> fz d <> 0 ->
  fx lo <= fx hi -> fy lo <= fy hi -> fz lo <= fz hi ->
  let '(_, tnear, tfar) := Geom.intersectBBox o d lo hi in
  (tnear <= t <= tfar) <-> in_box lo hi (at_ o d t).
Proof.
  intros Hdx Hdy Hdz Hx Hy Hz.
  unfold Geom.intersectBBox, in_box, at_.
  unfold min3, max3, mul3, div3, sub3, add3, scale3, splat3, zip3, map3.
  cbn [fx fy fz].
  pose proof (slab_axis (fx o) (fx d) (fx lo) (fx hi) t Hdx Hx) as Sx.
  pose proof (slab_axis (fy o) (fy d) (fy lo) (fy hi) t Hdy Hy) as Sy.
  pose proof (slab_axis (fz o) (fz d) (fz lo) (fz hi) t Hdz Hz) as Sz.
  rewrite <- Sx, <- Sy, <- Sz.
  split.
  - intros [H1 H2]. apply Rmax3_le in H1. apply Rmin3_ge in H2. tauto.
  - intros H. split; [apply Rmax3_le | apply Rmin3_ge]; tauto.
Qed.

Lemma intersectBox_as_BBox (o d : float3) :
  Kernel.intersectBox o d = Geom.intersectBBox o d (splat3 (-1)) (splat3 1).
Proof. reflexivity. Qed.

End Slabs.

(** X1: [intersectBox] is the slab test of the cube from (-1,-1,-1) to
    (1,1,1).  For a direction with no zero component, the points of the ray
    inside the closed cube are exactly those with [tnear <= t <= tfar]; a
    reported hit means that the ray enters at [tnear] and leaves at [tfar],
    both on the cube; without a hit the ray has at most one point in the
    cube. *)
Theorem intersectBox_slab (o d : CL.float3) :
  (CL.fx d <> 0)%R -> (CL.fy d <> 0)%R -> (CL.fz d <> 0)%R ->
  let cube := in_box (CL.splat3 (-1)) (CL.splat3 1) in
  let at_ t := CL.add3 o (CL.scale3 d t) in
  let hit := fst (fst (Kernel.intersectBox o d)) in
  let tnear := snd (fst (Kernel.intersectBox o d)) in
  let tfar := snd (Kernel.intersectBox o d) in
  (forall t, (tnear <= t <= tfar)%R <-> cube (at_ t)) /\
  (hit = true -> (tnear < tfar)%R /\ cube (at_ tnear) /\ cube (at_ tfar)) /\
  (hit = false -> forall t1 t2, cube (at_ t1) -> cube (at_ t2) -> t1 = t2).
Proof.
  intros Hx Hy Hz cube at_ hit tnear tfar.
  assert (Hslab : forall t, (tnear <= t <= tfar)%R <-> cube (at_ t)).
  { intros t.
    pose proof (intersectBBox_slabs o d (CL.splat3 (-1)) (CL.splat3 1) t
                  Hx Hy Hz) as H.
    rewrite <- intersectBox_as_BBox in H.
    subst tnear tfar cube at_.
    destruct (Kernel.intersectBox o d) as [[h tn] tf]. cbn [fst snd].
    apply H; cbn; lra. }
  assert (Hhit : hit = CL.Rltb tnear tfar) by reflexivity.
  split; [exact Hslab|]. split.
  - intros Ht. rewrite Hhit in Ht. apply Rltb_spec in Ht.
    split; [exact Ht|]. split; apply Hslab; lra.
  - intros Hf t1 t2 H1 H2. rewrite Hhit in Hf.
    apply Hslab in H1, H2.
    destruct (Rlt_dec tnear tfar) as [Hlt|Hge].
    + apply Rltb_true in Hlt. congruence.
    + lra.
Qed.

Lemma intersectBox_slab_witness :
  let o := CL.mk3 (-2) (-5 / 6) (-5 / 4) in
  let d := CL.mk3 (6 / 7) (2 / 7) (3 / 7) in
  (snd (fst (Kernel.intersectBox o d)) <= 2 <= snd (Kernel.intersectBox o d))%R
  <-> in_box (CL.splat3 (-1)) (CL.splat3 1) (CL.add3 o (CL.scale3 d 2)).
Proof.
  intros o d.
  refine (proj1 (intersectBox_slab o d _ _ _) 2%R); cbn; lra.
Defined.

(** X2: [intersectBBox] is the slab test of the box from [lower] to
    [upper]: for a direction with no zero component and
    [lower <= upper] on each axis, the points of the ray inside the closed
    box are exactly those with [tnear <= t <= tfar], and a hit is reported
    exactly when that interval has more than one point.  On the cube from
    (-1,-1,-1) to (1,1,1) it returns what [intersectBox] returns. *)
Theorem intersectBBox_slab (o d lower upper : CL.float3) :
  (CL.fx d <> 0)%R -> (CL.fy d <> 0)%R -> (CL.fz d <> 0)%R ->
  (CL.fx lower <= CL.fx upper)%R -> (CL.fy lower <= CL.fy upper)%R ->
  (CL.fz lower <= CL.fz upper)%R ->
  let hit := fst (fst (Geom.intersectBBox o d lower upper)) in
  let tnear := snd (fst (Geom.intersectBBox o d lower upper)) in
  let tfar := snd (Geom.intersectBBox o d lower upper) in
  (forall t, (tnear <= t <= tfar)%R
             <-> in_box lower upper (CL.add3 o (CL.scale3 d t))) /\
  (hit = true <->
   exists t1 t2, (t1 < t2)%R /\
     in_box lower upper (CL.add3 o (CL.scale3 d t1)) /\
     in_box lower upper (CL.add3 o (CL.scale3 d t2))) /\
  Geom.intersectBBox o d (CL.splat3 (-1)) (CL.splat3 1)
  = Kernel.intersectBox o d.
Proof.
  intros Hx Hy Hz Hlx Hly Hlz hit tnear tfar.
  assert (Hslab : forall t, (tnear <= t <= tfar)%R
            <-> in_box lower upper (CL.add3 o (CL.scale3 d t))).
  { intros t.
    pose proof (intersectBBox_slabs o d lower upper t Hx Hy Hz Hlx Hly Hlz)
      as H.
    subst tnear tfar.
    destruct (Geom.intersectBBox o d lower upper) as [[h tn] tf].
    exact H. }
  assert (Hhit : hit = CL.Rltb tnear tfar) by reflexivity.
  split; [exact Hslab|]. split; [|reflexivity].
  rewrite Hhit, Rltb_spec. split.
  - intros Hlt. exists tnear, tfar.
    split; [exact Hlt|]. split; apply Hslab; lra.
  - intros (t1 & t2 & Hlt & H1 & H2). apply Hslab in H1, H2. lra.
Qed.

Lemma intersectBBox_slab_witness :
  let o := CL.mk3 (-2) (-5 / 6) (-5 / 4) in
  let d := CL.mk3 (6 / 7) (2 / 7) (3 / 7) in
  let lower := CL.mk3 (-1) (-1 / 2) 0 in
  let upper := CL.mk3 1 (1 / 2) 1 in
  (snd (fst (Geom.intersectBBox o d lower upper)) <= 3
   <= snd (Geom.intersectBBox o d lower upper))%R
  <-> in_box lower upper (CL.add3 o (CL.scale3 d 3)).
Proof.
  intros o d lower upper.
  refine (proj1 (intersectBBox_slab o d lower upper _ _ _ _ _ _) 3%R);
    cbn; lra.
Defined.

(** X3: a ray that starts inside the volume ([in_volume] holds for its
    origin) and has no zero direction component is reported as a hit by
    [intersectBox], with the entry behind the origin and the exit ahead of
    it: [tnear < 0 < tfar]. *)
Theorem intersectBox_from_inside (o d : CL.float3) :
  (CL.fx d <> 0)%R -> (CL.fy d <> 0)%R -> (CL.fz d <> 0)%R ->
  Kernel.in_volume o = true ->
  exists tnear tfar,
    Kernel.intersectBox o d = (true, tnear, tfar) /\
    (tnear < 0)%R /\ (0 < tfar)%R.
Proof.
  intros Hx Hy Hz Hin.
  unfold Kernel.in_volume in Hin. apply Rltb_spec in Hin.
  assert (Hox : (Rabs (CL.fx o) < 1)%R).
  { eapply Rle_lt_trans; [apply Rmax_l | exact Hin]. }
  assert (Hoy : (Rabs (CL.fy o) < 1)%R).
  { eapply Rle_lt_trans; [|exact Hin].
    eapply Rle_trans; [apply Rmax_l | apply Rmax_r]. }
  assert (Hoz : (Rabs (CL.fz o) < 1)%R).
  { eapply Rle_lt_trans; [|exact Hin].
    eapply Rle_trans; [apply Rmax_r | apply Rmax_r]. }
  apply Rabs_def2 in Hox, Hoy, Hoz.
  assert (Haxis : forall oi di, (di <> 0 -> -1 < oi < 1 ->
            Rmin (1 / di * (1 - oi)) (1 / di * (-1 - oi)) < 0
            /\ 0 < Rmax (1 / di * (1 - oi)) (1 / di * (-1 - oi)))%R).
  { intros oi di Hd Ho.
    set (a := (1 / di * (-1 - oi))%R). set (b := (1 / di * (1 - oi))%R).
    assert (Ha : (a * di = -1 - oi)%R) by (subst a; field; exact Hd).
    assert (Hb : (b * di = 1 - oi)%R) by (subst b; field; exact Hd).
    destruct (Rlt_dec 0 di) as [Hpos|Hneg].
    - assert (a < 0 /\ 0 < b)%R as [H1 H2] by (split; nra).
      rewrite Rmin_right, Rmax_left by lra. lra.
    - assert (0 < a /\ b < 0)%R as [H1 H2] by (split; nra).
      rewrite Rmin_left, Rmax_right by lra. lra. }
  destruct (Haxis (CL.fx o) _ Hx ltac:(lra)) as [Ax1 Ax2].
  destruct (Haxis (CL.fy o) _ Hy ltac:(lra)) as [Ay1 Ay2].
  destruct (Haxis (CL.fz o) _ Hz ltac:(lra)) as [Az1 Az2].
  unfold Kernel.intersectBox.
  unfold CL.min3, CL.max3, CL.mul3, CL.div3, CL.sub3, CL.splat3, CL.zip3.
  cbn [CL.fx CL.fy CL.fz].
  set (tn := Rmax _ _). set (tf := Rmin _ _).
  assert (Hn : (tn < 0)%R).
  { subst tn. repeat apply Rmax_lub_lt; assumption. }
  assert (Hf : (0 < tf)%R).
  { subst tf. repeat apply Rmin_glb_lt; assumption. }
  exists tn, tf. rewrite Rltb_true by lra. auto.
Qed.

Lemma intersectBox_from_inside_witness :
  exists tnear tfar,
    Kernel.intersectBox (CL.mk3 0 (1 / 2) (-1 / 2)) (CL.mk3 (6 / 7) (2 / 7) (3 / 7))
    = (true, tnear, tfar) /\ (tnear < 0)%R /\ (0 < tfar)%R.
Proof.
  apply intersectBox_from_inside; try (cbn; lra).
  unfold Kernel.in_volume. cbn [CL.fx CL.fy CL.fz].
  apply Rltb_true.
  rewrite Rabs_R0, (Rabs_pos_eq (1 / 2)), (Rabs_left (-1 / 2)) by lra.
  repeat apply Rmax_lub_lt; lra.
Defined.

(** ** Gradients and shading *)

Section Vectors.

Import CL.
Open Scope R_scope.

Lemma dot3_self_nonneg (v : float3) : 0 <= dot3 v v.
Proof. unfold dot3. nra. Qed.

Lemma length3_nonneg (v : float3) : 0 <= length3 v.
Proof. apply sqrt_pos. Qed.

Lemma length3_sqr (v : float3) : length3 v * length3 v = dot3 v v.
Proof. apply sqrt_sqrt, dot3_self_nonneg. Qed.

Lemma length3_zero (v : float3) :
  length3 v = 0 <-> fx v = 0 /\ fy v = 0 /\ fz v = 0.
Proof.
  split.
  - intros H. pose proof (length3_sqr v) as Hs. rewrite H in Hs.
    unfold dot3 in Hs. repeat split; nra.
  - intros (Hx & Hy & Hz). unfold length3, dot3. rewrite Hx, Hy, Hz.
    replace (0 * 0 + 0 * 0 + 0 * 0) with 0 by ring. apply sqrt_0.
Qed.

(** A normalised vector has length 1, unless it is the zero vector. *)
Lemma length3_normalize (v : float3) :
  length3 v <> 0 -> length3 (Shade.normalize v) = 1.
Proof.
  intros Hv. pose proof (length3_sqr v) as Hs.
  unfold length3 at 1. unfold Shade.normalize, div3, splat3, zip3, dot3.
  cbn [fx fy fz].
  replace (fx v / length3 v * (fx v / length3 v)
           + fy v / length3 v * (fy v / length3 v)
           + fz v / length3 v * (fz v / length3 v))
    with (dot3 v v / (length3 v * length3 v))
    by (unfold dot3; field; exact Hv).
  rewrite Hs. unfold Rdiv. rewrite Rinv_r; [apply sqrt_1|].
  rewrite <- Hs. nra.
Qed.

Lemma normalize_zero (v : float3) :
  length3 v = 0 -> length3 (Shade.normalize v) = 0.
Proof.
  intros Hv. apply length3_zero in Hv as Hc. destruct Hc as (Hx & Hy & Hz).
  apply length3_zero.
  unfold Shade.normalize, div3, splat3, zip3. cbn [fx fy fz].
  rewrite Hx, Hy, Hz. unfold Rdiv. rewrite !Rmult_0_l. auto.
Qed.

Lemma length3_normalize_le (v : float3) : length3 (Shade.normalize v) <= 1.
Proof.
  destruct (Req_dec_T (length3 v) 0) as [H|H].
  - rewrite normalize_zero by exact H. lra.
  - rewrite length3_normalize by exact H. lra.
Qed.

(** Cauchy-Schwarz in three dimensions. *)
Lemma dot3_le_length (a b : float3) : dot3 a b <= length3 a * length3 b.
Proof.
  pose proof (length3_nonneg a) as Ha. pose proof (length3_nonneg b) as Hb.
  pose proof (length3_sqr a) as Sa. pose proof (length3_sqr b) as Sb.
  assert (Hcs : dot3 a b * dot3 a b <= dot3 a a * dot3 b b).
  { unfold dot3.
    assert (H : (fx a * fx a + fy a * fy a + fz a * fz a)
                * (fx b * fx b + fy b * fy b + fz b * fz b)
                - (fx a * fx b + fy a * fy b + fz a * fz b)
                  * (fx a * fx b + fy a * fy b + fz a * fz b)
                = (fx a * fy b - fy a * fx b) * (fx a * fy b - fy a * fx b)
                  + (fx a * fz b - fz a * fx b) * (fx a * fz b - fz a * fx b)
                  + (fy a * fz b - fz a * fy b) * (fy a * fz b - fz a * fy b))
      by ring.
    pose proof (Rle_0_sqr (fx a * fy b - fy a * fx b)) as H1.
    pose proof (Rle_0_sqr (fx a * fz b - fz a * fx b)) as H2.
    pose proof (Rle_0_sqr (fy a * fz b - fz a * fy b)) as H3.
    unfold Rsqr in H1, H2, H3. lra. }
  destruct (Rle_dec (dot3 a b) 0) as [Hn|Hp]; [nra|].
  rewrite <- Sa, <- Sb in Hcs.
  set (x := dot3 a b) in *. set (y := length3 a * length3 b).
  assert (Hy : 0 <= y) by (subst y; nra).
  assert (Hxy : x * x <= y * y) by (subst y; nra).
  nra.
Qed.

End Vectors.

(** X4: the two central-difference gradients ([gradientCentralDiff] on the
    densities, [gradientCentralDiffTff] on the transfer function's alpha)
    return a magnitude that is zero exactly when the three central
    differences vanish, and a direction that is never the zero vector: it
    has length 1 when the magnitude is not zero and is the diagonal
    (0.57735, 0.57735, 0.57735) otherwise. *)
Theorem gradientCentralDiff_normal (sc : Kernel.Scene) (pos : CL.float3) :
  let ok (samples : CL.float3 * CL.float3) (g : CL.float4) :=
    (0 <= CL.w4 g)%R /\
    (CL.w4 g = 0%R <-> fst samples = snd samples) /\
    (CL.w4 g <> 0%R -> CL.length3 (CL.xyz g) = 1%R) /\
    (CL.w4 g = 0%R -> CL.xyz g = CL.splat3 (57735 / 100000)) in
  ok (Shade.centralSamples sc CL.x4 pos) (Shade.gradientCentralDiff sc pos) /\
  ok (Shade.centralSamples sc
        (fun v => CL.w4 (Kernel.tffData sc (CL.x4 v))) pos)
     (Shade.gradientCentralDiffTff sc pos).
Proof.
  assert (H : forall s1 s2 : CL.float3,
            let g := Shade.gradientOf s1 s2 in
            (0 <= CL.w4 g)%R /\
            (CL.w4 g = 0%R <-> s1 = s2) /\
            (CL.w4 g <> 0%R -> CL.length3 (CL.xyz g) = 1%R) /\
            (CL.w4 g = 0%R -> CL.xyz g = CL.splat3 (57735 / 100000))).
  { intros s1 s2 g. subst g. unfold Shade.gradientOf. cbn [CL.w4].
    split; [apply length3_nonneg|]. split; [|split].
    - rewrite length3_zero.
      unfold CL.sub3, CL.zip3. cbn [CL.fx CL.fy CL.fz].
      destruct s1 as [a b c], s2 as [a' b' c']. cbn [CL.fx CL.fy CL.fz].
      split.
      + intros (Hx & Hy & Hz). f_equal; lra.
      + intros E. injection E as -> -> ->. lra.
    - intros Hw.
      rewrite (length3_normalize _ Hw).
      destruct (Req_dec_T 1 0) as [E|_]; [lra|].
      unfold CL.xyz. cbn [CL.x4 CL.y4 CL.z4].
      rewrite <- (length3_normalize _ Hw). f_equal.
    - intros Hw. rewrite (normalize_zero _ Hw).
      destruct (Req_dec_T 0 0) as [_|E]; [reflexivity | lra]. }
  intros ok. split.
  - unfold Shade.gradientCentralDiff.
    destruct (Shade.centralSamples sc CL.x4 pos) as [s1 s2].
    apply H.
  - unfold Shade.gradientCentralDiffTff.
    destruct (Shade.centralSamples sc _ pos) as [s1 s2].
    apply H.
Qed.

Lemma sobelSum_constant (sc : Kernel.Scene) (pos : CL.float3) (c : R)
    (dir : nat) :
  (forall p, CL.x4 (Kernel.volDataLinear sc p) = c) ->
  (dir < 3)%nat -> Shade.sobelSum sc pos dir = 0%R.
Proof.
  intros Hc Hdir. unfold Shade.sobelSum.
  cbn [fold_left]. rewrite !Hc.
  destruct dir as [|[|[|dir]]]; [| | |lia];
    repeat match goal with
    | |- context [Shade.sobelWeights ?d ?i ?j ?k] =>
        let z :=
          eval vm_compute in
            (nth (Z.to_nat (k + 1))
               (nth (Z.to_nat (j + 1))
                  (nth (Z.to_nat (i + 1)) (nth d Shade.sobelTable []) []) [])
               0%Z) in
        change (Shade.sobelWeights d i j k) with (IZR z)
    end;
    ring.
Qed.

(** X5: [gradientSobel] always returns a direction of length 1 and a
    magnitude that is not negative; in a volume of one density throughout
    the magnitude is 0 and the direction is the normalised diagonal
    (1,1,1), the stand-in of the code for a vanishing gradient. *)
Theorem gradientSobel_unit (sc : Kernel.Scene) (pos : CL.float3) :
  let g := Shade.gradientSobel sc pos in
  CL.length3 (CL.xyz g) = 1%R /\ (0 <= CL.w4 g)%R /\
  forall c, (forall p, CL.x4 (Kernel.volDataLinear sc p) = c) ->
    CL.w4 g = 0%R /\ CL.xyz g = Shade.normalize (CL.splat3 1).
Proof.
  intros g. subst g. unfold Shade.gradientSobel.
  set (g0 := CL.div3 _ _).
  assert (Hdiag : CL.length3 (CL.splat3 1) <> 0%R).
  { rewrite length3_zero. cbn. lra. }
  cbn [CL.w4]. split; [|split].
  - unfold CL.xyz. cbn [CL.x4 CL.y4 CL.z4].
    assert (Heta : forall v, CL.mk3 (CL.fx v) (CL.fy v) (CL.fz v) = v)
      by (intros [x y z]; reflexivity).
    rewrite Heta.
    destruct (Req_dec_T (CL.length3 g0) 0) as [E|E];
      apply length3_normalize; assumption.
  - apply length3_nonneg.
  - intros c Hc.
    assert (Hg0 : CL.length3 g0 = 0%R).
    { apply length3_zero. subst g0.
      unfold CL.div3, CL.splat3, CL.zip3. cbn [CL.fx CL.fy CL.fz].
      rewrite !(sobelSum_constant sc pos c) by (auto; lia).
      unfold Rdiv. rewrite Rmult_0_l. auto. }
    split; [exact Hg0|].
    destruct (Req_dec_T (CL.length3 g0) 0) as [_|E]; [|contradiction].
    unfold CL.xyz. cbn [CL.x4 CL.y4 CL.z4].
    destruct (Shade.normalize (CL.splat3 1)); reflexivity.
Qed.

(** X6: for a normal of length at most 1 and a colour without negative
    channels, every channel of the colour shaded by [illumination] lies
    between the ambient part, a fifth of the channel, and the channel plus
    the specular part of at most 0.2. *)
Theorem illumination_bounds (pos color toLightDir n : CL.float3) :
  (CL.length3 n <= 1)%R ->
  (0 <= CL.fx color)%R -> (0 <= CL.fy color)%R -> (0 <= CL.fz color)%R ->
  let out := Shade.illumination pos color toLightDir n in
  (2 / 10 * CL.fx color <= CL.fx out <= CL.fx color + 2 / 10)%R /\
  (2 / 10 * CL.fy color <= CL.fy out <= CL.fy color + 2 / 10)%R /\
  (2 / 10 * CL.fz color <= CL.fz out <= CL.fz color + 2 / 10)%R.
Proof.
  intros Hn Hr Hg Hb out. subst out. unfold Shade.illumination.
  set (l := Shade.normalize toLightDir).
  assert (Hdot : forall v, (CL.dot3 n (Shade.normalize v) <= 1)%R).
  { intros v.
    pose proof (dot3_le_length n (Shade.normalize v)) as H.
    pose proof (length3_normalize_le v) as Hl.
    pose proof (length3_nonneg n). pose proof (length3_nonneg (Shade.normalize v)).
    nra. }
  assert (Hd : (0 <= Rmax 0 (CL.dot3 n l) <= 1)%R).
  { split; [apply Rmax_l|]. apply Rmax_lub; [lra | apply Hdot]. }
  set (k := Rmax 0 (CL.dot3 n l)) in *.
  assert (Hs : exists s, (0 <= s <= 1)%R /\
            Shade.specularBlinnPhong (CL.splat3 1) 40 (CL.splat3 1) n l
              toLightDir = CL.splat3 s).
  { unfold Shade.specularBlinnPhong.
    destruct (CL.Rltb _ _).
    - exists 0%R. split; [lra | reflexivity].
    - set (h := Shade.normalize _).
      exists (CL.native_powr (Rmax (CL.dot3 n h) 0) 40). split.
      + apply native_powr_unit; [|lra].
        split; [apply Rmax_r|]. apply Rmax_lub; [apply Hdot | lra].
      + unfold CL.scale3, CL.mul3, CL.splat3, CL.zip3, CL.map3.
        cbn [CL.fx CL.fy CL.fz]. f_equal; lra. }
  destruct Hs as (s & Hs & ->).
  unfold CL.add3, CL.scale3, CL.splat3, CL.zip3, CL.map3.
  cbn [CL.fx CL.fy CL.fz].
  repeat split; nra.
Qed.

Lemma illumination_bounds_witness :
  let out :=
    Shade.illumination (CL.splat3 0) (CL.mk3 1 (1 / 2) 0) (CL.mk3 0 0 1)
      (CL.mk3 0 0 1) in
  (2 / 10 * 1 <= CL.fx out <= 1 + 2 / 10)%R /\
  (2 / 10 * (1 / 2) <= CL.fy out <= 1 / 2 + 2 / 10)%R /\
  (2 / 10 * 0 <= CL.fz out <= 0 + 2 / 10)%R.
Proof.
  apply (illumination_bounds (CL.splat3 0) (CL.mk3 1 (1 / 2) 0)
           (CL.mk3 0 0 1) (CL.mk3 0 0 1)); cbn [CL.fx CL.fy CL.fz]; try lra.
  unfold CL.length3, CL.dot3. cbn [CL.fx CL.fy CL.fz].
  replace (0 * 0 + 0 * 0 + 1 * 1)%R with 1%R by ring.
  rewrite sqrt_1. lra.
Defined.

(** X7: with the bounds (0, 1), [checkBoundingBox] holds exactly for the
    positions that lie within a voxel length of two faces of the unit cube
    on two different axes, that is, along one of its twelve edges. *)
Theorem checkBoundingBox_edges (pos voxLen : CL.float3) :
  let near p v := (p < v \/ 1 - v < p)%R in
  let nx := near (CL.fx pos) (CL.fx voxLen) in
  let ny := near (CL.fy pos) (CL.fy voxLen) in
  let nz := (CL.fz pos < 0 + CL.fz voxLen \/ 1 - CL.fz voxLen < CL.fz pos)%R in
  Kernel.checkBoundingBox pos voxLen 0 1 = true
  <-> (nx /\ ny) \/ (nx /\ nz) \/ (ny /\ nz).
Proof.
  intros near nx ny nz. subst nx ny nz near. cbv beta.
  unfold Kernel.checkBoundingBox.
  rewrite !orb_true_iff, !andb_true_iff, !Rltb_spec.
  tauto.
Qed.

(** X8: when the ray direction has a component of more than 1e-6 along the
    plane normal, [intersectPlane] stores the parameter of the point where
    the ray's line meets the plane, and reports a hit whatever the sign of
    that parameter; in every other case (ray parallel to the plane or
    running against the normal) it reports no hit and stores nothing. *)
Theorem intersectPlane_on_plane (o d normal planePos : CL.float3) :
  let denom := CL.dot3 d normal in
  ((1 / 1000000 < denom)%R ->
   exists t,
     Geom.intersectPlane o d normal planePos = (true, Some t) /\
     CL.dot3 (CL.sub3 (CL.add3 o (CL.scale3 d t)) planePos) normal = 0%R) /\
  ((denom <= 1 / 1000000)%R ->
   Geom.intersectPlane o d normal planePos = (false, None)).
Proof.
  intros denom. unfold Geom.intersectPlane. fold denom. split.
  - intros Hd. rewrite Rltb_true by exact Hd.
    eexists. split; [reflexivity|].
    subst denom. unfold CL.dot3, CL.sub3, CL.add3, CL.scale3, CL.zip3, CL.map3
      in *.
    cbn [CL.fx CL.fy CL.fz] in *. field. lra.
  - intros Hd. rewrite Rltb_false by exact Hd. reflexivity.
Qed.

(** ** The hybrid Tausworthe generator and ambient occlusion *)

Section TausFacts.

Open Scope Z_scope.

Lemma wrap32_range (z : Z) : 0 <= wrap32 z < 2 ^ 32.
Proof. unfold wrap32. apply Z.mod_pos_bound. lia. Qed.


Lemma lxor_range (a b : Z) :
  0 <= a < 2 ^ 32 -> 0 <= b < 2 ^ 32 -> 0 <= Z.lxor a b < 2 ^ 32.
Proof.
  intros Ha Hb.
  assert (Hn : 0 <= Z.lxor a b) by (apply Z.lxor_nonneg; lia).
  split; [exact Hn|].
  destruct (Z.eq_dec (Z.lxor a b) 0) as [E|E]; [rewrite E; lia|].
  apply Z.log2_lt_pow2; [lia|].
  eapply Z.le_lt_trans; [apply Z.log2_lxor; lia|].
  assert (Hl : forall x, 0 <= x < 2 ^ 32 -> Z.log2 x < 32).
  { intros x Hx. destruct (Z.eq_dec x 0) as [->|Hx0]; [cbn; lia|].
    apply Z.log2_lt_pow2; lia. }
  apply Z.max_lub_lt; apply Hl; assumption.
Qed.

Lemma shiftr_range (a k : Z) :
  0 <= a < 2 ^ 32 -> 0 <= k -> 0 <= Z.shiftr a k < 2 ^ 32.
Proof.
  intros Ha Hk. rewrite Z.shiftr_div_pow2 by exact Hk.
  assert (Hp : 0 < 2 ^ k) by (apply Z.pow_pos_nonneg; lia).
  split; [apply Z.div_pos; lia|].
  apply Z.div_lt_upper_bound; [exact Hp | nia].
Qed.

(** One Tausworthe step on a 32-bit component gives a 32-bit value. *)
Lemma taus_component_range (locZ s1 s2 s3 m : Z) :
  0 <= locZ < 2 ^ 32 -> 0 <= s2 ->
  0 <= Z.lxor (wrap32 (Z.shiftl (Z.land locZ m) s3))
         (Z.shiftr (Z.lxor (wrap32 (Z.shiftl locZ s1)) locZ) s2) < 2 ^ 32.
Proof.
  intros Hl Hs.
  apply lxor_range; [apply wrap32_range|].
  apply shiftr_range; [|exact Hs].
  apply lxor_range; [apply wrap32_range | exact Hl].
Qed.

End TausFacts.

(** X9: on a state of four 32-bit components [hybridTaus] returns a value
    in [0,1] and leaves a state of four 32-bit components.  Each of its
    four steps reads and writes one component of its own, so that the value
    and the new state are what the steps give when each is applied to the
    initial state: the order in which the four calls are evaluated plays no
    role. *)
Theorem hybridTaus_range (taus : Taus.uint4) :
  uint4_ok taus ->
  exists r1 r2 r3 t1 t2 t3 v taus',
    Taus.tausStep taus 0 13 19 12 4294967294 = Some (r1, t1) /\
    Taus.tausStep taus 1 2 25 4 4294967288 = Some (r2, t2) /\
    Taus.tausStep taus 2 3 11 17 4294967280 = Some (r3, t3) /\
    Taus.hybridTaus taus = Some (v, taus') /\
    taus' = Taus.mku4 r1 r2 r3
              (snd (Taus.lcgStep taus 1664525 1013904223)).(Taus.uw) /\
    v = (23283064365387 / 100000000000000000000000
         * IZR (Z.lxor (Z.lxor (Z.lxor r1 r2) r3) (Taus.uw taus)))%R /\
    (0 <= v <= 1)%R /\ uint4_ok taus'.
Proof.
  intros (Hx & Hy & Hz & Hw).
  unfold Taus.hybridTaus, Taus.tausStep, Taus.lcgStep.
  cbn [Z.eqb Pos.eqb Taus.ux Taus.uy Taus.uz Taus.uw snd].
  set (r1 := Z.lxor _ _). set (r2 := Z.lxor _ _). set (r3 := Z.lxor _ _).
  assert (H1 : 0 <= r1 < 2 ^ 32) by (apply taus_component_range; lia).
  assert (H2 : 0 <= r2 < 2 ^ 32) by (apply taus_component_range; lia).
  assert (H3 : 0 <= r3 < 2 ^ 32) by (apply taus_component_range; lia).
  clearbody r1 r2 r3.
  do 8 eexists.
  split; [reflexivity|]. split; [reflexivity|]. split; [reflexivity|].
  split; [reflexivity|]. split; [reflexivity|]. split; [reflexivity|].
  split.
  - set (x := Z.lxor (Z.lxor (Z.lxor r1 r2) r3) (Taus.uw taus)).
    assert (Hx' : 0 <= x < 2 ^ 32) by (repeat apply lxor_range; assumption).
    assert (Hr : (0 <= IZR x <= 4294967295)%R).
    { split; [apply IZR_le; lia|]. apply IZR_le. lia. }
    lra.
  - unfold uint4_ok. cbn [Taus.ux Taus.uy Taus.uz Taus.uw].
    repeat split; try lia; apply wrap32_range.
Qed.

Lemma hybridTaus_range_witness :
  exists r1 r2 r3 t1 t2 t3 v taus',
    Taus.tausStep (Taus.initRNG 512 512 1) 0 13 19 12 4294967294
      = Some (r1, t1) /\
    Taus.tausStep (Taus.initRNG 512 512 1) 1 2 25 4 4294967288
      = Some (r2, t2) /\
    Taus.tausStep (Taus.initRNG 512 512 1) 2 3 11 17 4294967280
      = Some (r3, t3) /\
    Taus.hybridTaus (Taus.initRNG 512 512 1) = Some (v, taus') /\
    taus' = Taus.mku4 r1 r2 r3
              (snd (Taus.lcgStep (Taus.initRNG 512 512 1) 1664525
                      1013904223)).(Taus.uw) /\
    v = (23283064365387 / 100000000000000000000000
         * IZR (Z.lxor (Z.lxor (Z.lxor r1 r2) r3)
                  (Taus.uw (Taus.initRNG 512 512 1))))%R /\
    (0 <= v <= 1)%R /\ uint4_ok taus'.
Proof.
  apply hybridTaus_range.
  unfold uint4_ok. vm_compute. repeat split; discriminate.
Defined.

Section SampleDirection.

Import CL.
Open Scope R_scope.

Lemma hybridTaus_unit (taus : Taus.uint4) :
  uint4_ok taus ->
  exists v taus', Taus.hybridTaus taus = Some (v, taus') /\
                  0 <= v <= 1 /\ uint4_ok taus'.
Proof.
  intros (Hx & Hy & Hz & Hw).
  unfold Taus.hybridTaus, Taus.tausStep, Taus.lcgStep.
  cbn [Z.eqb Pos.eqb Taus.ux Taus.uy Taus.uz Taus.uw snd].
  set (r1 := Z.lxor (wrap32 (Z.shiftl (Z.land (Taus.ux taus) _) _)) _).
  set (r2 := Z.lxor (wrap32 (Z.shiftl (Z.land (Taus.uy taus) _) _)) _).
  set (r3 := Z.lxor (wrap32 (Z.shiftl (Z.land (Taus.uz taus) _) _)) _).
  assert (H1 : (0 <= r1 < 2 ^ 32)%Z) by (apply taus_component_range; lia).
  assert (H2 : (0 <= r2 < 2 ^ 32)%Z) by (apply taus_component_range; lia).
  assert (H3 : (0 <= r3 < 2 ^ 32)%Z) by (apply taus_component_range; lia).
  clearbody r1 r2 r3.
  do 2 eexists. split; [reflexivity|]. split.
  - set (x := Z.lxor (Z.lxor (Z.lxor r1 r2) r3) (Taus.uw taus)).
    assert (Hx' : (0 <= x < 2 ^ 32)%Z) by (repeat apply lxor_range; assumption).
    assert (Hr : 0 <= IZR x <= 4294967295).
    { split; [apply IZR_le; lia|]. apply IZR_le. lia. }
    lra.
  - unfold uint4_ok. cbn [Taus.ux Taus.uy Taus.uz Taus.uw].
    repeat split; try lia; apply wrap32_range.
Qed.

Lemma sampleDirection_dir (n : float3) (taus : Taus.uint4) :
  uint4_ok taus ->
  exists dir taus',
    Taus.getUniformRandomSampleDirectionUpper n taus = Some (dir, taus') /\
    uint4_ok taus'.
Proof.
  intros Hok. unfold Taus.getUniformRandomSampleDirectionUpper.
  destruct (hybridTaus_unit taus Hok) as (u1 & t1 & -> & _ & Hok1).
  destruct (hybridTaus_unit t1 Hok1) as (u2 & t2 & -> & _ & Hok2).
  do 2 eexists. split; [reflexivity | exact Hok2].
Qed.

End SampleDirection.

(** X10: on a state of four 32-bit components
    [getUniformRandomSampleDirectionUpper] returns a direction of length 1
    in the half space of the normal: its scalar product with [n] is not
    negative. *)
Theorem sampleDirection_upper (n : CL.float3) (taus : Taus.uint4) :
  uint4_ok taus ->
  exists dir taus',
    Taus.getUniformRandomSampleDirectionUpper n taus = Some (dir, taus') /\
    CL.length3 dir = 1%R /\ (0 <= CL.dot3 n dir)%R /\ uint4_ok taus'.
Proof.
  intros Hok. unfold Taus.getUniformRandomSampleDirectionUpper.
  destruct (hybridTaus_unit taus Hok) as (u1 & t1 & -> & Hu1 & Hok1).
  destruct (hybridTaus_unit t1 Hok1) as (u2 & t2 & -> & Hu2 & Hok2).
  set (z := (u1 * 2 - 1)%R). set (phi := (u2 * 2 * PI)%R).
  set (s := sqrt (1 - z * z)).
  assert (Hs : (s * s = 1 - z * z)%R).
  { subst s. apply sqrt_sqrt. subst z. nra. }
  pose proof (sin2_cos2 phi) as Htrig. unfold Rsqr in Htrig.
  set (d0 := CL.mk3 (s * sin phi) (s * cos phi) z).
  assert (Hd0 : CL.dot3 d0 d0 = 1%R).
  { subst d0. unfold CL.dot3. cbn [CL.fx CL.fy CL.fz].
    replace (s * sin phi * (s * sin phi) + s * cos phi * (s * cos phi)
             + z * z)%R
      with (s * s * (sin phi * sin phi + cos phi * cos phi) + z * z)%R
      by ring.
    rewrite Htrig, Hs. ring. }
  do 2 eexists. split; [reflexivity|].
  destruct (CL.Rltb (CL.dot3 n d0) 0) eqn:Hc.
  - apply Rltb_spec in Hc. split; [|split; [|exact Hok2]].
    + unfold CL.length3.
      replace (CL.dot3 (CL.scale3 d0 (-1)) (CL.scale3 d0 (-1)))
        with (CL.dot3 d0 d0)
        by (unfold CL.dot3, CL.scale3, CL.map3; cbn [CL.fx CL.fy CL.fz]; ring).
      rewrite Hd0. apply sqrt_1.
    + replace (CL.dot3 n (CL.scale3 d0 (-1))) with (- CL.dot3 n d0)%R
        by (unfold CL.dot3, CL.scale3, CL.map3; cbn [CL.fx CL.fy CL.fz]; ring).
      lra.
  - split; [|split; [|exact Hok2]].
    + unfold CL.length3. rewrite Hd0. apply sqrt_1.
    + destruct (Rlt_dec (CL.dot3 n d0) 0) as [H|H]; [|lra].
      apply Rltb_true in H. congruence.
Qed.

Lemma sampleDirection_upper_witness :
  exists dir taus',
    Taus.getUniformRandomSampleDirectionUpper (CL.mk3 0 0 1)
      (Taus.initRNG 512 512 1) = Some (dir, taus') /\
    CL.length3 dir = 1%R /\ (0 <= CL.dot3 (CL.mk3 0 0 1) dir)%R /\
    uint4_ok taus'.
Proof.
  apply sampleDirection_upper.
  unfold uint4_ok. vm_compute. repeat split; discriminate.
Defined.

Section AmbientOcclusion.

Import CL Kernel.
Open Scope R_scope.

Variables (sc : Scene) (pos : float3) (stepSize r : R).

Hypothesis tff_unit : forall d, 0 <= w4 (tffData sc d) <= 1.

(** The marching loop of one occlusion ray ends, with a sum of at most one
    per sample taken. *)
Lemma aoRay_bounded (dir : float3) (k : nat) :
  forall cnt sample,
    (0 <= cnt)%Z -> 0 <= sample <= IZR cnt ->
    r - IZR cnt * stepSize <= INR k * stepSize ->
    forall fuel, (S k <= fuel)%nat ->
    exists cnt' sample',
      Taus.aoRay sc pos dir stepSize r fuel cnt sample = Some (cnt', sample') /\
      (cnt <= cnt')%Z /\ 0 <= sample' <= IZR cnt' /\
      (IZR cnt * stepSize < r -> (cnt < cnt')%Z).
Proof.
  induction k as [|k IH]; intros cnt sample Hc Hs Hk fuel Hf;
    (destruct fuel as [|fuel]; [lia|]); cbn [Taus.aoRay].
  - rewrite Rltb_false by (cbn in Hk; lra).
    exists cnt, sample. repeat split; try lra; try lia.
    cbn in Hk. lra.
  - destruct (Rltb (IZR cnt * stepSize) r) eqn:Hlt.
    2:{ exists cnt, sample. repeat split; try lra; try lia.
        intros H. apply Rltb_true in H. congruence. }
    set (a := w4 (tffData sc _)).
    assert (Ha : 0 <= a <= 1) by apply tff_unit.
    assert (Hc1 : IZR (cnt + 1) = IZR cnt + 1) by (rewrite plus_IZR; reflexivity).
    destruct (Rltb (98 / 100) (sample + a)).
    + exists (cnt + 1)%Z, (sample + a). rewrite Hc1.
      repeat split; try lra; lia.
    + destruct (IH (cnt + 1)%Z (sample + a)) with (fuel := fuel)
        as (cnt' & s' & Hrun & Hle & Hs' & _).
      * lia.
      * rewrite Hc1. lra.
      * rewrite Hc1. rewrite S_INR in Hk. lra.
      * lia.
      * exists cnt', s'. repeat split; try lra; try lia. exact Hrun.
Qed.

(** One occlusion ray, from the first sample on: its mean lies in [0,1]. *)
Lemma aoRay_mean (dir : float3) (k : nat) :
  0 < r -> r <= INR k * stepSize ->
  forall fuel, (S k <= fuel)%nat ->
  exists cnt sample,
    Taus.aoRay sc pos dir stepSize r fuel 0 0 = Some (cnt, sample) /\
    0 <= sample / IZR cnt <= 1.
Proof.
  intros Hr Hk fuel Hf.
  destruct (aoRay_bounded dir k 0%Z 0) with (fuel := fuel)
    as (cnt & s & Hrun & _ & Hs & Hpos); try lra; try lia.
  exists cnt, s. split; [exact Hrun|].
  assert (Hc : (0 < cnt)%Z) by (apply Hpos; lra).
  assert (Hc' : 0 < IZR cnt) by (apply IZR_lt; exact Hc).
  split.
  - apply Rmult_le_pos; [lra|]. left. apply Rinv_0_lt_compat. exact Hc'.
  - apply (Rmult_le_reg_r (IZR cnt)); [exact Hc'|].
    unfold Rdiv. rewrite Rmult_assoc, Rinv_l by lra. lra.
Qed.

Lemma aoRays_bounded (n : float3) (k : nat) :
  0 < r -> r <= INR k * stepSize ->
  forall fuel, (S k <= fuel)%nat ->
  forall rays taus ao,
    uint4_ok taus ->
    exists ao' taus',
      Taus.aoRays sc n pos stepSize r fuel rays taus ao = Some (ao', taus') /\
      ao <= ao' <= ao + INR rays /\ uint4_ok taus'.
Proof.
  intros Hr Hk fuel Hf. induction rays as [|rays IH]; intros taus ao Hok.
  - exists ao, taus. cbn. split; [reflexivity|]. split; [lra | exact Hok].
  - cbn [Taus.aoRays].
    destruct (sampleDirection_dir n taus Hok) as (dir & t1 & -> & Hok1).
    destruct (aoRay_mean dir k Hr Hk fuel Hf) as (cnt & s & -> & Hm).
    destruct (IH t1 (ao + s / IZR cnt) Hok1) as (ao' & t2 & Hrun & Hb & Hok2).
    exists ao', t2. rewrite S_INR.
    split; [exact Hrun|]. split; [lra | exact Hok2].
Qed.

End AmbientOcclusion.

(** X11: with transfer-function alphas in [0,1] and a positive radius of
    at most [k] steps, [calcAO] returns (the sampling loop of each of
    its 16 rays ends within [k + 1] tests of its condition), its occlusion
    factor lies in [0,1] and the generator state it hands back has four 32-bit
    components. *)
Theorem calcAO_unit (sc : Kernel.Scene) (n : CL.float3) (taus : Taus.uint4)
    (pos : CL.float3) (stepSize r : R) (k : nat) :
  (forall d, (0 <= CL.w4 (Kernel.tffData sc d) <= 1)%R) ->
  (0 < r)%R -> (r <= INR k * stepSize)%R ->
  uint4_ok taus ->
  forall fuel, (S k <= fuel)%nat ->
  exists ao taus',
    Taus.calcAO sc n taus pos stepSize r fuel = Some (ao, taus') /\
    (0 <= ao <= 1)%R /\ uint4_ok taus'.
Proof.
  intros Htf Hr Hk Hok fuel Hf. unfold Taus.calcAO.
  destruct (aoRays_bounded sc pos stepSize r Htf n k Hr Hk fuel Hf
              16%nat taus 0%R Hok) as (ao & taus' & -> & Hb & Hok').
  exists (ao / 16)%R, taus'. split; [reflexivity|]. split; [|exact Hok'].
  replace (INR 16) with 16%R in Hb by (cbn; lra). lra.
Qed.

Lemma calcAO_unit_witness :
  exists ao taus',
    Taus.calcAO Examples.fog (CL.mk3 0 0 1) (Taus.initRNG 512 512 1)
      (CL.mk3 (1 / 2) (1 / 2) (1 / 2)) (9 / 10) 5 7 = Some (ao, taus') /\
    (0 <= ao <= 1)%R /\ uint4_ok taus'.
Proof.
  refine (calcAO_unit Examples.fog (CL.mk3 0 0 1) (Taus.initRNG 512 512 1)
            (CL.mk3 (1 / 2) (1 / 2) (1 / 2)) (9 / 10) 5 6 _ _ _ _ 7%nat
            (le_n 7)).
  - intros d. cbn [Examples.fog Kernel.tffData].
    unfold Examples.rampTff, CL.clamp. cbn [CL.w4].
    split.
    + apply Rmin_glb; [|lra]. apply Rmax_r.
    + apply Rmin_r.
  - lra.
  - cbn. lra.
  - unfold uint4_ok. vm_compute. repeat split; discriminate.
Defined.

(** ** Random numbers of random.cl and the jitter of the rays *)

Section RngFacts.

Open Scope Z_scope.

Lemma ParallelRNG_range (x : Z) :
  0 <= x < 2 ^ 32 -> 0 <= RNG.ParallelRNG x < 2 ^ 32.
Proof.
  intros Hx. unfold RNG.ParallelRNG.
  apply lxor_range; [|apply shiftr_range; [|lia]];
    apply wrap32_range.
Qed.

End RngFacts.

(** X12: on 32-bit unsigned arguments the hashes [ParallelRNG],
    [ParallelRNG2] and [ParallelRNG3] return 32-bit unsigned values, which
    [mapUintFloat] maps into [0,1]; the jitter of a ray, taken from
    [ParallelRNG2] at the pixel, therefore shifts the first sample by at
    most 0.9 steps. *)
Theorem rng_unit (x y z : Z) :
  0 <= x < 2 ^ 32 -> 0 <= y < 2 ^ 32 -> 0 <= z < 2 ^ 32 ->
  0 <= RNG.ParallelRNG x < 2 ^ 32 /\
  0 <= RNG.ParallelRNG2 x y < 2 ^ 32 /\
  0 <= RNG.ParallelRNG3 x y z < 2 ^ 32 /\
  (0 <= RNG.mapUintFloat (RNG.ParallelRNG2 x y) <= 1)%R /\
  forall stepSize : R, (0 <= stepSize)%R ->
    (0 <= stepSize * RNG.mapUintFloat (RNG.ParallelRNG2 x y) * (9 / 10)
     <= 9 / 10 * stepSize)%R.
Proof.
  intros Hx Hy Hz.
  pose proof (ParallelRNG_range x Hx) as H1.
  assert (H2 : 0 <= RNG.ParallelRNG2 x y < 2 ^ 32).
  { unfold RNG.ParallelRNG2. apply ParallelRNG_range, lxor_range; assumption. }
  assert (H3 : 0 <= RNG.ParallelRNG3 x y z < 2 ^ 32).
  { unfold RNG.ParallelRNG3. apply ParallelRNG_range, lxor_range; [assumption|].
    apply ParallelRNG_range, lxor_range; assumption. }
  assert (Hu : (0 <= RNG.mapUintFloat (RNG.ParallelRNG2 x y) <= 1)%R).
  { unfold RNG.mapUintFloat, UINT_MAX.
    set (v := RNG.ParallelRNG2 x y) in *.
    assert (Hv : (0 <= IZR v <= 4294967295)%R)
      by (split; apply IZR_le; lia).
    split.
    - apply Rmult_le_pos; [lra|]. left. apply Rinv_0_lt_compat. lra.
    - apply (Rmult_le_reg_r 4294967295); [lra|].
      unfold Rdiv. rewrite Rmult_assoc, Rinv_l by lra. lra. }
  repeat split; try lia; try apply Hu; nra.
Qed.

Lemma rng_unit_witness :
  (0 <= RNG.mapUintFloat (RNG.ParallelRNG2 17 4) <= 1)%R.
Proof.
  refine (proj1 (proj2 (proj2 (proj2 (rng_unit 17 4 0 _ _ _))))); lia.
Defined.

(** ** The step of the ray caster *)

(** X13: for a ray that crosses the box, a positive sampling rate, a ray
    direction other than zero and a volume of at least one voxel per axis,
    the ray caster divides the distance through the box into a whole
    number [n >= 1] of equal steps; the step is not longer than the
    distance over the sampling rate times the number of voxels crossed,
    [n] is the least number of steps with that property, and with a jitter
    in [0,1] the first sample is shifted by at most 0.9 steps. *)
Theorem setup_steps (sc : Kernel.Scene) (a : Kernel.Args)
    (wi : Kernel.WorkItem) (tnear0 tfar0 : R) :
  (0 < tfar0 - tnear0)%R ->
  (0 < Kernel.samplingRate a)%R ->
  (CL.fx (Kernel.rayDir wi) <> 0 \/ CL.fy (Kernel.rayDir wi) <> 0
   \/ CL.fz (Kernel.rayDir wi) <> 0)%R ->
  1 <= CL.ix (Kernel.volRes sc) /\ 1 <= CL.iy (Kernel.volRes sc)
  /\ 1 <= CL.iz (Kernel.volRes sc) ->
  (0 <= Kernel.rand wi <= 1)%R ->
  let su := Kernel.setup sc a wi tnear0 tfar0 in
  let dist := (tfar0 - tnear0)%R in
  let voxels :=
    CL.length3 (CL.mul3 (CL.scale3 (Kernel.rayDir wi) dist)
                  (CL.convert_float3 (Kernel.volRes sc))) in
  exists n : Z,
    1 <= n /\
    (Kernel.stepSize su * IZR n = dist)%R /\
    (Kernel.stepSize su <= dist)%R /\
    (Kernel.stepSize su * (Kernel.samplingRate a * voxels) <= dist)%R /\
    (forall m : Z, 1 <= m ->
       (dist / IZR m <= dist)%R ->
       (dist / IZR m * (Kernel.samplingRate a * voxels) <= dist)%R ->
       n <= m) /\
    (0 <= Kernel.offset su <= 9 / 10 * Kernel.stepSize su)%R.
Proof.
  intros Hsd Hrate Hdir Hvol Hrand su dist voxels.
  assert (Hd : (0 < dist)%R) by exact Hsd.
  assert (HL : (0 < voxels)%R).
  { subst voxels. apply length3_pos.
    destruct Hvol as (Hx & Hy & Hz).
    apply IZR_le in Hx, Hy, Hz.
    unfold CL.mul3, CL.scale3, CL.convert_float3, CL.zip3, CL.map3.
    cbn [CL.fx CL.fy CL.fz]. subst dist.
    destruct Hdir as [H|[H|H]]; [left | right; left | right; right];
      repeat apply Rmult_integral_contrapositive_currified; lra. }
  set (q := (dist / (Kernel.samplingRate a * voxels))%R).
  assert (Hq : (0 < q)%R).
  { subst q. apply Rdiv_lt_0_compat; [exact Hsd|].
    apply Rmult_lt_0_compat; assumption. }
  set (s0 := Rmin dist q).
  assert (Hs0 : (0 < s0)%R) by (apply Rmin_glb_lt; assumption).
  set (n := Zceil (dist / s0)).
  pose proof (Zceil_bound (dist / s0)) as [Hn1 Hn2]. fold n in Hn1, Hn2.
  assert (Hx1 : (1 <= dist / s0)%R).
  { apply (Rmult_le_reg_r s0); [exact Hs0|].
    unfold Rdiv. rewrite Rmult_assoc, Rinv_l by lra.
    pose proof (Rmin_l dist q). fold s0 in H. lra. }
  assert (Hn : (1 <= IZR n)%R) by lra.
  assert (Hstep : Kernel.stepSize su = (dist / IZR n)%R) by reflexivity.
  assert (Hoff : Kernel.offset su
                 = (dist / IZR n * Kernel.rand wi * (9 / 10))%R)
    by reflexivity.
  assert (Hds : (dist = dist / s0 * s0)%R) by (field; lra).
  assert (Hst : (dist / IZR n * IZR n = dist)%R) by (field; lra).
  assert (Hle : (dist / IZR n <= s0)%R).
  { apply (Rmult_le_reg_r (IZR n)); [lra|]. rewrite Hst.
    rewrite Hds at 1. nra. }
  assert (Hqd : (q * (Kernel.samplingRate a * voxels) = dist)%R).
  { subst q. field. split; lra. }
  assert (Hrv : (0 < Kernel.samplingRate a * voxels)%R)
    by (apply Rmult_lt_0_compat; assumption).
  exists n. rewrite Hstep, Hoff.
  split; [apply le_IZR; exact Hn|].
  split; [exact Hst|].
  split; [pose proof (Rmin_l dist q); fold s0 in H; lra|].
  split.
  { pose proof (Rmin_r dist q) as H. fold s0 in H.
    apply Rle_trans with (q * (Kernel.samplingRate a * voxels))%R; [|lra].
    apply Rmult_le_compat_r; lra. }
  split.
  - intros m Hm Hm1 Hm2.
    assert (Hm' : (1 <= IZR m)%R) by (apply IZR_le; exact Hm).
    assert (Hms : (dist / IZR m <= s0)%R).
    { subst s0. apply Rmin_glb; [exact Hm1|].
      apply (Rmult_le_reg_r (Kernel.samplingRate a * voxels));
        [exact Hrv | lra]. }
    assert (Hdm : (dist / s0 <= IZR m)%R).
    { apply (Rmult_le_reg_r s0); [exact Hs0|]. rewrite <- Hds.
      assert (Hmm : (dist / IZR m * IZR m = dist)%R) by (field; lra).
      nra. }
    apply Z.lt_succ_r, lt_IZR. rewrite succ_IZR. lra.
  - assert (Hx : (0 < dist / IZR n)%R) by (apply Rdiv_lt_0_compat; lra).
    set (x := (dist / IZR n)%R) in *.
    assert (Hxr : (0 <= x * Kernel.rand wi <= x)%R) by nra.
    lra.
Qed.

Lemma setup_steps_witness :
  let su := Kernel.setup Examples.fog Examples.args1 Examples.rayA (7 / 6) (7 / 2) in
  exists n : Z, 1 <= n /\ (Kernel.stepSize su * IZR n = 7 / 2 - 7 / 6)%R.
Proof.
  intros su.
  assert (H1 : (0 < 7 / 2 - 7 / 6)%R) by lra.
  assert (H2 : (0 < Kernel.samplingRate Examples.args1)%R) by (cbn; lra).
  assert (H3 : (CL.fx (Kernel.rayDir Examples.rayA) <> 0
                \/ CL.fy (Kernel.rayDir Examples.rayA) <> 0
                \/ CL.fz (Kernel.rayDir Examples.rayA) <> 0)%R)
    by (left; cbn; lra).
  assert (H4 : 1 <= CL.ix (Kernel.volRes Examples.fog)
               /\ 1 <= CL.iy (Kernel.volRes Examples.fog)
               /\ 1 <= CL.iz (Kernel.volRes Examples.fog)) by (cbn; lia).
  assert (H5 : (0 <= Kernel.rand Examples.rayA <= 1)%R) by (cbn; lra).
  destruct (setup_steps Examples.fog Examples.args1 Examples.rayA (7 / 6)
              (7 / 2) H1 H2 H3 H4 H5) as (n & Hn & Hs & _).
  exists n. split; assumption.
Defined.

(** ** The pixel of the path tracer *)

Section ToneMap.

Import CL.
Open Scope R_scope.

Lemma native_powr_nonneg (x y : R) : 0 <= native_powr x y.
Proof.
  unfold native_powr. destruct (Req_dec_T x 0); [lra|].
  left. unfold Rpower. apply exp_pos.
Qed.

Lemma toneMap_unit (c : R) : 0 <= Kernel.toneMap c <= 1.
Proof.
  unfold Kernel.toneMap. split.
  - apply Rmin_glb; [apply native_powr_nonneg | lra].
  - apply Rmin_r.
Qed.

End ToneMap.

(** X14: the path-tracing block always writes its two pixels: the pixel of
    the accumulation buffer has alpha 1, and the tone-mapped pixel of the
    output image has alpha 1 and colour channels in [0,1], whatever the
    sample and the accumulated colour are. *)
Theorem pathTrace_displayable (sc : Kernel.Scene) (sh : Kernel.Shaders)
    (a : Kernel.Args) (wi : Kernel.WorkItem) (tnear0 : R) :
  exists acc img,
    Kernel.pathTrace sc sh a wi tnear0 = Some (acc, img) /\
    CL.w4 acc = 1%R /\ CL.w4 img = 1%R /\
    (0 <= CL.x4 img <= 1)%R /\ (0 <= CL.y4 img <= 1)%R /\
    (0 <= CL.z4 img <= 1)%R.
Proof.
  unfold Kernel.pathTrace.
  destruct (trace_volume_total sc sh
              (RNG.ParallelRNG3 (fst (Kernel.texCoords wi))
                 (snd (Kernel.texCoords wi)) (Kernel.seed a))
              (Kernel.camPos wi) (Kernel.rayDir wi) tnear0 80) as [col ->].
  do 2 eexists. split; [reflexivity|].
  split.
  - unfold Kernel.accumulate. destruct (_ =? _); reflexivity.
  - split; [reflexivity|].
    unfold CL.with_xyz, CL.map3. cbn [CL.x4 CL.y4 CL.z4 CL.fx CL.fy CL.fz].
    repeat split; apply toneMap_unit.
Qed.

(** ** Progressive accumulation over frames *)

Section Accumulation.

Import CL Kernel.
Open Scope R_scope.



End Accumulation.



(** ** The brick grid bounds every voxel *)

Section BrickSound.

Import CL Kernel.
Open Scope Z_scope.

Lemma in_zrange (lo hi i : Z) : lo <= i < hi -> In i (zrange lo hi).
Proof.
  intros H. unfold zrange. apply in_map_iff.
  exists (Z.to_nat (i - lo)). split; [lia|].
  apply in_seq. lia.
Qed.

(** A fold whose steps keep a property keeps it from the step on that
    establishes it. *)
Lemma fold_reaches {A B : Type} (P : A -> Prop) (f : A -> B -> A)
    (l : list B) (x : B) :
  (forall a b, P a -> P (f a b)) -> (forall a, P (f a x)) -> In x l ->
  forall a, P (fold_left f l a).
Proof.
  intros Hkeep Hx. induction l as [|b l IH]; intros Hin a; [destruct Hin|].
  cbn [fold_left]. destruct Hin as [->|Hin].
  - apply fold_keeps; [exact Hkeep | apply Hx].
  - apply IH, Hin.
Qed.

Lemma scanBlock_bounds (voxel : Z -> Z -> Z -> R) (bx by_ bz : Z * Z)
    (i j k : Z) :
  fst bx <= i < snd bx -> fst by_ <= j < snd by_ -> fst bz <= k < snd bz ->
  (fst (scanBlock voxel bx by_ bz) <= voxel i j k
   <= snd (scanBlock voxel bx by_ bz))%R.
Proof.
  intros Hi Hj Hk. unfold scanBlock.
  set (P := fun acc : R * R => (fst acc <= voxel i j k <= snd acc)%R).
  assert (Hvisit_keep : forall i' j' k' acc, P acc ->
            P (Rmin (fst acc) (voxel i' j' k'), Rmax (snd acc) (voxel i' j' k'))).
  { intros i' j' k' acc [H1 H2]. unfold P. cbn [fst snd].
    pose proof (Rmin_l (fst acc) (voxel i' j' k')).
    pose proof (Rmax_l (snd acc) (voxel i' j' k')). lra. }
  assert (Hvisit : forall acc : R * R,
            P (Rmin (fst acc) (voxel i j k), Rmax (snd acc) (voxel i j k))).
  { intros acc. unfold P. cbn [fst snd].
    pose proof (Rmin_r (fst acc) (voxel i j k)).
    pose proof (Rmax_r (snd acc) (voxel i j k)). lra. }
  set (row k' acc j' :=
         fold_left
           (fun (acc : R * R) i' =>
              let value := voxel i' j' k' in
              (Rmin (fst acc) value, Rmax (snd acc) value))
           (zrange (fst bx) (snd bx)) acc).
  set (slab acc k' := fold_left (row k') (zrange (fst by_) (snd by_)) acc).
  assert (Hrow_keep : forall k' acc j', P acc -> P (row k' acc j')).
  { intros k' acc j' H. apply fold_keeps; [|exact H].
    intros a b Ha. apply Hvisit_keep, Ha. }
  assert (Hrow : forall acc, P (row k acc j)).
  { intros acc. apply (fold_reaches P _ _ i); [| |apply in_zrange, Hi].
    - intros a b Ha. apply Hvisit_keep, Ha.
    - intros a. apply Hvisit. }
  assert (Hslab_keep : forall acc k', P acc -> P (slab acc k')).
  { intros acc k' H. apply fold_keeps; [|exact H].
    intros a b Ha. apply Hrow_keep, Ha. }
  assert (Hslab : forall acc, P (slab acc k)).
  { intros acc. apply (fold_reaches P _ _ j); [| |apply in_zrange, Hj].
    - intros a b Ha. apply Hrow_keep, Ha.
    - intros a. apply Hrow. }
  change (P (fold_left slab (zrange (fst bz) (snd bz)) (1%R, 0%R))).
  apply (fold_reaches P _ _ k); [| |apply in_zrange, Hk].
  - intros a b Ha. apply Hslab_keep, Ha.
  - intros a. apply Hslab.
Qed.

(** Along one axis every voxel lies in the block of the cell
    [i / voxPerCell], and in no other. *)
Lemma brickBounds_cell (volDim brickDim i : Z) :
  1 <= brickDim -> 0 <= i < volDim ->
  let c := i / ceilDivF volDim brickDim in
  0 <= c < brickDim /\
  fst (brickBounds volDim brickDim c) <= i < snd (brickBounds volDim brickDim c)
  /\ forall c', fst (brickBounds volDim brickDim c') <= i
                < snd (brickBounds volDim brickDim c') -> c' = c.
Proof.
  intros Hb Hi.
  pose proof (ceilDivF_bound volDim brickDim ltac:(lia)) as Hv.
  set (vpc := ceilDivF volDim brickDim) in *.
  assert (Hvpc : 1 <= vpc) by nia.
  intros c.
  pose proof (Z.div_mod i vpc ltac:(lia)) as Hdm.
  pose proof (Z.mod_pos_bound i vpc ltac:(lia)) as Hm.
  fold c in Hdm.
  assert (Hc0 : 0 <= c) by (apply Z.div_pos; lia).
  assert (Hc1 : c < brickDim).
  { apply Z.div_lt_upper_bound; [lia | nia]. }
  unfold brickBounds, clampZ. cbn [fst snd]. fold vpc.
  split; [lia|]. split; [nia|].
  intros c' Hc'.
  assert (Hlow : vpc * c' <= i) by lia.
  assert (Hup : i < vpc * c' + vpc) by lia.
  subst c. apply (Z.div_unique i vpc c' (i - vpc * c')); lia.
Qed.

End BrickSound.

(** X16: the brick grid is sound for empty-space skipping.  For a brick
    image of at least one cell per axis, every voxel of the volume lies in
    the block of exactly one cell, the one at the voxel's coordinates
    divided by the voxels per cell, and the pair [generateBricks] writes
    for that cell encloses the voxel's value: min <= value <= max. *)
Theorem generateBricks_encloses (voxel : Z -> Z -> Z -> R)
    (volDim brickDim : CL.int3) (i j k : Z) :
  1 <= CL.ix brickDim -> 1 <= CL.iy brickDim -> 1 <= CL.iz brickDim ->
  0 <= i < CL.ix volDim -> 0 <= j < CL.iy volDim -> 0 <= k < CL.iz volDim ->
  let coord :=
    CL.mki3 (i / Kernel.ceilDivF (CL.ix volDim) (CL.ix brickDim))
            (j / Kernel.ceilDivF (CL.iy volDim) (CL.iy brickDim))
            (k / Kernel.ceilDivF (CL.iz volDim) (CL.iz brickDim)) in
  let block c axis dim := Kernel.brickBounds (axis volDim) (axis brickDim) c in
  (exists mn mx,
     Kernel.generateBricks voxel volDim brickDim coord = Some (mn, mx) /\
     (mn <= voxel i j k <= mx)%R) /\
  forall c : CL.int3,
    fst (block (CL.ix c) CL.ix volDim) <= i < snd (block (CL.ix c) CL.ix volDim) ->
    fst (block (CL.iy c) CL.iy volDim) <= j < snd (block (CL.iy c) CL.iy volDim) ->
    fst (block (CL.iz c) CL.iz volDim) <= k < snd (block (CL.iz c) CL.iz volDim) ->
    c = coord.
Proof.
  intros Hbx Hby Hbz Hi Hj Hk coord block.
  destruct (brickBounds_cell _ _ i Hbx Hi) as (Hcx & Hix & Ux).
  destruct (brickBounds_cell _ _ j Hby Hj) as (Hcy & Hiy & Uy).
  destruct (brickBounds_cell _ _ k Hbz Hk) as (Hcz & Hiz & Uz).
  split.
  - unfold Kernel.generateBricks. subst coord. cbn [CL.ix CL.iy CL.iz].
    replace (CL.ix brickDim <=? _) with false by (symmetry; apply Z.leb_gt; lia).
    replace (CL.iy brickDim <=? _) with false by (symmetry; apply Z.leb_gt; lia).
    replace (CL.iz brickDim <=? _) with false by (symmetry; apply Z.leb_gt; lia).
    cbn [orb].
    pose proof (scanBlock_bounds voxel _ _ _ i j k Hix Hiy Hiz) as Hb.
    destruct (Kernel.scanBlock voxel _ _ _) as [mn mx]. cbn [fst snd] in Hb.
    exists mn, mx. split; [reflexivity | exact Hb].
  - intros [cx cy cz]. cbn [CL.ix CL.iy CL.iz]. subst block. cbv beta.
    intros Hx Hy Hz. subst coord. f_equal; [apply Ux | apply Uy | apply Uz];
      assumption.
Qed.

Lemma generateBricks_encloses_witness :
  exists mn mx,
    Kernel.generateBricks (fun i _ _ => IZR i / 8)%R (CL.mki3 5 1 1)
      (CL.mki3 3 1 1) (CL.mki3 (3 / Kernel.ceilDivF 5 3) (0 / Kernel.ceilDivF 1 1)
                          (0 / Kernel.ceilDivF 1 1))
    = Some (mn, mx) /\ (mn <= IZR 3 / 8 <= mx)%R.
Proof.
  refine (proj1 (generateBricks_encloses (fun i _ _ => IZR i / 8)%R
                   (CL.mki3 5 1 1) (CL.mki3 3 1 1) 3 0 0 _ _ _ _ _ _));
    cbn; lia.
Defined.

(** ** The downsampling kernel *)

Section Downsampling.

Import CL Kernel.
Open Scope R_scope.

Variable voxel : Z -> Z -> Z -> R.
Hypothesis voxel_unit : forall i j k, 0 <= voxel i j k <= 1.

(** A fold of steps that each add between 0 and [w] adds between 0 and
    [w] times the length of the list. *)
Lemma fold_adds {B : Type} (f : R -> B -> R) (w : R) (l : list B) :
  (forall v b, v <= f v b <= v + w) ->
  forall v, v <= fold_left f l v <= v + INR (List.length l) * w.
Proof.
  intros Hf. induction l as [|b l IH]; intros v.
  - cbn. lra.
  - cbn [fold_left List.length]. rewrite S_INR.
    specialize (IH (f v b)). specialize (Hf v b). lra.
Qed.

Lemma zrange_length (lo hi : Z) :
  List.length (zrange lo hi) = Z.to_nat (hi - lo).
Proof. unfold zrange. rewrite length_map, length_seq. reflexivity. Qed.

Lemma sumBlock_bounds (bx by_ bz : Z * Z) :
  0 <= Resample.sumBlock voxel bx by_ bz
    <= INR (List.length (zrange (fst bz) (snd bz)))
       * (INR (List.length (zrange (fst by_) (snd by_)))
          * INR (List.length (zrange (fst bx) (snd bx)))).
Proof.
  unfold Resample.sumBlock.
  set (lx := zrange (fst bx) (snd bx)).
  set (ly := zrange (fst by_) (snd by_)).
  set (lz := zrange (fst bz) (snd bz)).
  pose proof (fold_adds
    (fun value k =>
       fold_left
         (fun value j =>
            fold_left (fun value i => value + voxel i j k) lx value)
         ly value)
    (INR (List.length ly) * INR (List.length lx)) lz) as H.
  specialize (H ltac:(
    intros v k;
    pose proof (fold_adds
      (fun value j => fold_left (fun value i => value + voxel i j k) lx value)
      (INR (List.length lx)) ly) as H2;
    specialize (H2 ltac:(
      intros v' j;
      pose proof (fold_adds (fun value i => value + voxel i j k) 1 lx) as H3;
      specialize (H3 ltac:(intros v'' i; pose proof (voxel_unit i j k); lra) v');
      lra) v);
    lra) 0).
  lra.
Qed.

Lemma brickBounds_count (volD lowD c : Z) :
  (1 <= ceilDivF volD lowD)%Z -> (0 <= c)%Z ->
  let b := brickBounds volD lowD c in
  0 <= INR (List.length (zrange (fst b) (snd b))) <= IZR (ceilDivF volD lowD).
Proof.
  intros Hv Hc b. subst b. rewrite zrange_length.
  unfold brickBounds, clampZ. cbn [fst snd].
  split; [apply pos_INR|].
  rewrite INR_IZR_INZ. apply IZR_le.
  set (v := ceilDivF volD lowD) in *.
  assert (Hl : (0 <= v * c)%Z) by nia.
  set (l := (v * c)%Z) in *. lia.
Qed.

End Downsampling.

(** X17: for a volume with samples in [0,1] and a low-resolution image
    whose cells hold fewer than 2^31 voxels each, the value the
    [downsampling] kernel writes for a cell lies in [0,1]: the kernel sums
    the voxels of the cell's block and divides by the full number of voxels
    per cell, also for the blocks cut off at the border of the volume. *)
Theorem downsampling_unit (voxel : Z -> Z -> Z -> R)
    (volDim lowDim coord : CL.int3) :
  (forall i j k, (0 <= voxel i j k <= 1)%R) ->
  1 <= CL.ix volDim -> 1 <= CL.iy volDim -> 1 <= CL.iz volDim ->
  0 <= CL.ix coord < CL.ix lowDim -> 0 <= CL.iy coord < CL.iy lowDim ->
  0 <= CL.iz coord < CL.iz lowDim ->
  Kernel.ceilDivF (CL.ix volDim) (CL.ix lowDim)
  * Kernel.ceilDivF (CL.iy volDim) (CL.iy lowDim)
  * Kernel.ceilDivF (CL.iz volDim) (CL.iz lowDim) < 2 ^ 31 ->
  exists value,
    Resample.downsampling voxel volDim lowDim coord = Some value /\
    (0 <= value <= 1)%R.
Proof.
  intros Hv Hvx Hvy Hvz Hx Hy Hz Hprod.
  unfold Resample.downsampling.
  replace (CL.ix lowDim <=? _) with false by (symmetry; apply Z.leb_gt; lia).
  replace (CL.iy lowDim <=? _) with false by (symmetry; apply Z.leb_gt; lia).
  replace (CL.iz lowDim <=? _) with false by (symmetry; apply Z.leb_gt; lia).
  cbn [orb]. eexists. split; [reflexivity|].
  pose proof (ceilDivF_bound (CL.ix volDim) (CL.ix lowDim) ltac:(lia)) as Bx.
  pose proof (ceilDivF_bound (CL.iy volDim) (CL.iy lowDim) ltac:(lia)) as By.
  pose proof (ceilDivF_bound (CL.iz volDim) (CL.iz lowDim) ltac:(lia)) as Bz.
  set (vx := Kernel.ceilDivF (CL.ix volDim) (CL.ix lowDim)) in *.
  set (vy := Kernel.ceilDivF (CL.iy volDim) (CL.iy lowDim)) in *.
  set (vz := Kernel.ceilDivF (CL.iz volDim) (CL.iz lowDim)) in *.
  assert (Hvx1 : 1 <= vx) by nia.
  assert (Hvy1 : 1 <= vy) by nia.
  assert (Hvz1 : 1 <= vz) by nia.
  assert (Hp1 : 1 <= vx * vy * vz) by nia.
  assert (Hw : Resample.wrapInt (vx * vy * vz) = vx * vy * vz).
  { unfold Resample.wrapInt. rewrite Z.mod_small; lia. }
  rewrite Hw.
  pose proof (sumBlock_bounds voxel Hv
                (Kernel.brickBounds (CL.ix volDim) (CL.ix lowDim) (CL.ix coord))
                (Kernel.brickBounds (CL.iy volDim) (CL.iy lowDim) (CL.iy coord))
                (Kernel.brickBounds (CL.iz volDim) (CL.iz lowDim) (CL.iz coord)))
    as [Hs0 Hs1].
  set (sum := Resample.sumBlock _ _ _ _) in *.
  pose proof (brickBounds_count (CL.ix volDim) (CL.ix lowDim) (CL.ix coord)
                Hvx1 ltac:(lia)) as [Lx0 Lx].
  pose proof (brickBounds_count (CL.iy volDim) (CL.iy lowDim) (CL.iy coord)
                Hvy1 ltac:(lia)) as [Ly0 Ly].
  pose proof (brickBounds_count (CL.iz volDim) (CL.iz lowDim) (CL.iz coord)
                Hvz1 ltac:(lia)) as [Lz0 Lz].
  fold vx in Lx. fold vy in Ly. fold vz in Lz.
  set (nx := INR (List.length (Kernel.zrange
                (fst (Kernel.brickBounds (CL.ix volDim) (CL.ix lowDim) (CL.ix coord)))
                _))) in *.
  set (ny := INR (List.length (Kernel.zrange
                (fst (Kernel.brickBounds (CL.iy volDim) (CL.iy lowDim) (CL.iy coord)))
                _))) in *.
  set (nz := INR (List.length (Kernel.zrange
                (fst (Kernel.brickBounds (CL.iz volDim) (CL.iz lowDim) (CL.iz coord)))
                _))) in *.
  assert (Hxr : (1 <= IZR vx)%R) by (apply IZR_le; lia).
  assert (Hyr : (1 <= IZR vy)%R) by (apply IZR_le; lia).
  assert (Hzr : (1 <= IZR vz)%R) by (apply IZR_le; lia).
  rewrite !mult_IZR.
  assert (Hp : (0 < IZR vx * IZR vy * IZR vz)%R)
    by (repeat apply Rmult_lt_0_compat; lra).
  assert (Hle : (sum <= IZR vx * IZR vy * IZR vz)%R).
  { assert (H1 : (ny * nx <= IZR vy * IZR vx)%R)
      by (apply Rmult_le_compat; lra).
    assert (H0 : (0 <= ny * nx)%R) by (apply Rmult_le_pos; lra).
    assert (H2 : (nz * (ny * nx) <= IZR vz * (IZR vy * IZR vx))%R)
      by (apply Rmult_le_compat; lra).
    lra. }
  split.
  - apply Rmult_le_pos; [exact Hs0|]. left. apply Rinv_0_lt_compat, Hp.
  - apply (Rmult_le_reg_r (IZR vx * IZR vy * IZR vz)); [exact Hp|].
    unfold Rdiv. rewrite Rmult_assoc, Rinv_l by lra. lra.
Qed.

Lemma downsampling_unit_witness :
  exists value,
    Resample.downsampling (fun i _ _ => if i <? 3 then 1 / 4 else 3 / 4)%R (CL.mki3 5 1 1)
      (CL.mki3 3 1 1) (CL.mki3 2 0 0) = Some value /\
    (0 <= value <= 1)%R.
Proof.
  apply (downsampling_unit (fun i _ _ => if i <? 3 then 1 / 4 else 3 / 4)%R (CL.mki3 5 1 1)
           (CL.mki3 3 1 1) (CL.mki3 2 0 0)); try (cbn; lia).
  - intros i j k. cbn. destruct (i <? 3); lra.
  - cbn [CL.ix CL.iy CL.iz].
    pose proof (ceilDivF_bound 5 3 ltac:(lia)).
    pose proof (ceilDivF_bound 1 1 ltac:(lia)). nia.
Defined.

(** ** Ray generation *)

Section RayGeneration.

Import CL.
Open Scope R_scope.

Lemma mapUintFloat_unit (v : Z) :
  (0 <= v < 2 ^ 32)%Z -> 0 <= RNG.mapUintFloat v <= 1.
Proof.
  intros Hv. unfold RNG.mapUintFloat, UINT_MAX.
  assert (Hr : 0 <= IZR v <= 4294967295) by (split; apply IZR_le; lia).
  split.
  - apply Rmult_le_pos; [lra|]. left. apply Rinv_0_lt_compat. lra.
  - apply (Rmult_le_reg_r 4294967295); [lra|].
    unfold Rdiv. rewrite Rmult_assoc, Rinv_l by lra. lra.
Qed.

(** The two cases of [imgCoords], by the longer side of the launch. *)
Lemma imgCoords_wide (gs0 gs1 gx gy : Z) :
  (1 <= gs1 < gs0)%Z ->
  RayGen.imgCoords gs0 gs1 gx gy
  = ((IZR gx + 5 / 10) / IZR gs0 * 2 - 1,
     ((IZR gy + 5 / 10) / IZR gs0 * 2 - IZR gs1 / IZR gs0) * -1).
Proof.
  intros H. unfold RayGen.imgCoords.
  replace (gs1 <? gs0)%Z with true by (symmetry; apply Z.ltb_lt; lia).
  rewrite Z.max_l by lia.
  assert (H0 : 0 < IZR gs0) by (apply IZR_lt; lia).
  assert (H1 : 0 < IZR gs1) by (apply IZR_lt; lia).
  assert (H01 : IZR gs1 < IZR gs0) by (apply IZR_lt; lia).
  rewrite Rmin_left; [reflexivity|].
  apply Rle_trans with 1.
  - apply (Rmult_le_reg_r (IZR gs0)); [exact H0|].
    unfold Rdiv. rewrite Rmult_assoc, Rinv_l by lra. lra.
  - apply (Rmult_le_reg_r (IZR gs1)); [exact H1|].
    unfold Rdiv. rewrite Rmult_assoc, Rinv_l by lra. lra.
Qed.

Lemma imgCoords_tall (gs0 gs1 gx gy : Z) :
  (1 <= gs0 <= gs1)%Z ->
  RayGen.imgCoords gs0 gs1 gx gy
  = ((IZR gx + 5 / 10) / IZR gs1 * 2 - IZR gs0 / IZR gs1,
     ((IZR gy + 5 / 10) / IZR gs1 * 2 - 1) * -1).
Proof.
  intros H. unfold RayGen.imgCoords.
  replace (gs1 <? gs0)%Z with false by (symmetry; apply Z.ltb_ge; lia).
  rewrite Z.max_r by lia.
  assert (H0 : 0 < IZR gs0) by (apply IZR_lt; lia).
  assert (H1 : 0 < IZR gs1) by (apply IZR_lt; lia).
  assert (H01 : IZR gs0 <= IZR gs1) by (apply IZR_le; lia).
  rewrite Rmin_right; [reflexivity|].
  apply Rle_trans with 1.
  - apply (Rmult_le_reg_r (IZR gs1)); [exact H1|].
    unfold Rdiv. rewrite Rmult_assoc, Rinv_l by lra. lra.
  - apply (Rmult_le_reg_r (IZR gs0)); [exact H0|].
    unfold Rdiv. rewrite Rmult_assoc, Rinv_l by lra. lra.
Qed.

End RayGeneration.

(** X18: the view-plane coordinates of a work item lie strictly between -1
    and 1 on both axes, and they are centred on the launch grid: the work
    item mirrored at the centre of the [gs0] x [gs1] launch has the
    negated coordinates.  The centre is that of the launch, whose sides
    the host rounds up, and not that of the image. *)
Theorem imgCoords_centred (gs0 gs1 gx gy : Z) :
  1 <= gs0 -> 1 <= gs1 -> 0 <= gx < gs0 -> 0 <= gy < gs1 ->
  let c := RayGen.imgCoords gs0 gs1 gx gy in
  let m := RayGen.imgCoords gs0 gs1 (gs0 - 1 - gx) (gs1 - 1 - gy) in
  (-1 < fst c < 1)%R /\ (-1 < snd c < 1)%R /\
  fst m = (- fst c)%R /\ snd m = (- snd c)%R.
Proof.
  intros H0 H1 Hx Hy c m. subst c m.
  assert (R0 : (1 <= IZR gs0)%R) by (apply IZR_le; lia).
  assert (R1 : (1 <= IZR gs1)%R) by (apply IZR_le; lia).
  assert (Rx : (0 <= IZR gx <= IZR gs0 - 1)%R).
  { split; [apply IZR_le; lia|]. rewrite <- minus_IZR. apply IZR_le. lia. }
  assert (Ry : (0 <= IZR gy <= IZR gs1 - 1)%R).
  { split; [apply IZR_le; lia|]. rewrite <- minus_IZR. apply IZR_le. lia. }
  assert (Hdiv : forall a b : R, (0 < b)%R -> (a / b * b = a)%R)
    by (intros a b Hb; field; lra).
  destruct (Z_lt_le_dec gs1 gs0) as [Hw|Ht].
  - rewrite !imgCoords_wide by lia. cbn [fst snd].
    rewrite !minus_IZR.
    assert (R01 : (IZR gs1 <= IZR gs0)%R) by (apply IZR_le; lia).
    set (g := IZR gs0) in *. set (h := IZR gs1) in *.
    set (x := IZR gx) in *. set (y := IZR gy) in *.
    assert (Ex : ((x + 5 / 10) / g * g = x + 5 / 10)%R) by (apply Hdiv; lra).
    assert (Ey : ((y + 5 / 10) / g * g = y + 5 / 10)%R) by (apply Hdiv; lra).
    assert (Eh : (h / g * g = h)%R) by (apply Hdiv; lra).
    split; [|split; [|split; [field; lra | field; lra]]].
    + set (X := ((x + 5 / 10) / g)%R) in *. split; nra.
    + set (Y := ((y + 5 / 10) / g)%R) in *. set (A := (h / g)%R) in *.
      split; nra.
  - rewrite !imgCoords_tall by lia. cbn [fst snd].
    rewrite !minus_IZR.
    assert (R01 : (IZR gs0 <= IZR gs1)%R) by (apply IZR_le; lia).
    set (g := IZR gs0) in *. set (h := IZR gs1) in *.
    set (x := IZR gx) in *. set (y := IZR gy) in *.
    assert (Ex : ((x + 5 / 10) / h * h = x + 5 / 10)%R) by (apply Hdiv; lra).
    assert (Ey : ((y + 5 / 10) / h * h = y + 5 / 10)%R) by (apply Hdiv; lra).
    assert (Eh : (g / h * h = g)%R) by (apply Hdiv; lra).
    split; [|split; [|split; [field; lra | field; lra]]].
    + set (X := ((x + 5 / 10) / h)%R) in *. set (A := (g / h)%R) in *.
      split; nra.
    + set (Y := ((y + 5 / 10) / h)%R) in *. split; nra.
Qed.

Lemma imgCoords_centred_witness :
  let c := RayGen.imgCoords 104 64 10 3 in
  let m := RayGen.imgCoords 104 64 (104 - 1 - 10) (64 - 1 - 3) in
  (-1 < fst c < 1)%R /\ (-1 < snd c < 1)%R /\
  fst m = (- fst c)%R /\ snd m = (- snd c)%R.
Proof. apply (imgCoords_centred 104 64 10 3); lia. Defined.

(** X19: the two cameras of the ray generation.  With the perspective
    camera every work item of a launch has the same ray origin, the
    translation of the view matrix scaled by the model scale; with the
    orthographic camera every work item has the same ray direction.  In
    both, the direction has length 1 unless it is the zero vector, and the
    jitter lies in [0,1]. *)
Theorem generate_cameras (gs0 gs1 gx gy gx' gy' : Z) (viewMat : list R)
    (orthoCam : Z) (modelScale : CL.float3) :
  0 <= gx < 2 ^ 32 -> 0 <= gy < 2 ^ 32 ->
  let ray := RayGen.generate gs0 gs1 gx gy viewMat orthoCam modelScale in
  let ray' := RayGen.generate gs0 gs1 gx' gy' viewMat orthoCam modelScale in
  let rand := fst (fst ray) in
  let camPos := snd (fst ray) in
  let rayDir := snd ray in
  (orthoCam = 0 ->
   camPos = snd (fst ray') /\
   camPos = CL.mul3 (CL.mk3 (RayGen.s viewMat 3) (RayGen.s viewMat 7)
                       (RayGen.s viewMat 11)) modelScale) /\
  (orthoCam <> 0 -> rayDir = snd ray') /\
  (CL.length3 rayDir = 1%R \/ CL.length3 rayDir = 0%R) /\
  (0 <= rand <= 1)%R.
Proof.
  intros Hx Hy ray ray' rand camPos rayDir.
  subst rand camPos rayDir ray ray'. unfold RayGen.generate.
  destruct (RayGen.imgCoords gs0 gs1 gx gy) as [cx cy].
  destruct (RayGen.imgCoords gs0 gs1 gx' gy') as [cx' cy'].
  unfold CL.truthy.
  split; [|split; [|split]].
  - intros ->. cbn [Z.eqb negb fst snd]. split; reflexivity.
  - intros Ho. apply Z.eqb_neq in Ho. rewrite Ho. cbn [negb fst snd].
    reflexivity.
  - destruct (negb (orthoCam =? 0)); cbn [fst snd];
      match goal with
      | |- CL.length3 (Shade.normalize ?v) = _ \/ _ =>
          destruct (Req_dec_T (CL.length3 v) 0) as [E|E];
            [right; apply normalize_zero, E
            | left; apply length3_normalize, E]
      end.
  - destruct (negb (orthoCam =? 0)); cbn [fst snd];
      apply (mapUintFloat_unit (RNG.ParallelRNG2 gx gy));
      unfold RNG.ParallelRNG2; apply ParallelRNG_range, lxor_range;
      try assumption; apply ParallelRNG_range; assumption.
Qed.

Lemma generate_cameras_witness :
  let ray :=
    RayGen.generate 104 64 10 3 [1; 0; 0; 0; 0; 1; 0; 0; 0; 0; 1; 3]%R 0
      (CL.mk3 1 1 2) in
  (0 <= fst (fst ray) <= 1)%R.
Proof.
  intros ray.
  refine (proj2 (proj2 (proj2
            (generate_cameras 104 64 10 3 10 3
               [1; 0; 0; 0; 0; 1; 0; 0; 0; 0; 1; 3]%R 0 (CL.mk3 1 1 2)
               _ _)))); lia.
Defined.

(** ** The launch grids of the host *)

(** X20: the launch size [n + (local - n % local)] that [runRaycast] (with
    work groups of 8 x 8) and the host's [generateBricks] (4 x 4 x 4) use
    along each axis is a multiple of the work-group size that exceeds [n]
    by at least one and at most [local] work items; when [n] is already a
    multiple, a whole extra work group is launched. *)
Theorem globalSize_covers (local n : Z) :
  0 < local -> 0 <= n ->
  let g := Frames.globalSize local n in
  g mod local = 0 /\ n < g <= n + local /\
  (n mod local = 0 -> g = n + local).
Proof.
  intros Hl Hn g. subst g. unfold Frames.globalSize.
  pose proof (Z.mod_pos_bound n local Hl) as Hm.
  pose proof (Z.div_mod n local ltac:(lia)) as Hd.
  split; [|split; [lia | intros ->; lia]].
  replace (n + (local - n mod local))
    with ((n / local + 1) * local) by nia.
  apply Z.mod_mul. lia.
Qed.

Lemma globalSize_covers_witness :
  Frames.globalSize 8 512 mod 8 = 0 /\
  512 < Frames.globalSize 8 512 <= 512 + 8 /\
  (512 mod 8 = 0 -> Frames.globalSize 8 512 = 512 + 8).
Proof. apply (globalSize_covers 8 512); lia. Defined.

(** ** The brick edge of the host *)

Section Smear.

Open Scope Z_scope.





End Smear.




(** ** The host class: scaling, time steps, bricks *)

(** X22: with data loaded, at least one voxel per axis and positive slice
    thicknesses, [calcScaling] leaves a model scale of three factors, each
    at least 1 and one of them equal to 1, that are inversely proportional
    to the extents (resolution times slice thickness) of the axes: the
    scaled extents are equal. *)
Theorem calcScaling_fits (s : Host.VolumeRenderCL)
    (rx ry rz rt : Z) (tx ty tz : R) :
  Host.has_data (Host._dr s) = true ->
  Host.volume_res (Host._prop (Host._dr s)) = (rx, ry, rz, rt) ->
  Host.slice_thickness (Host._prop (Host._dr s)) = (tx, ty, tz) ->
  1 <= rx -> 1 <= ry -> 1 <= rz ->
  (0 < tx)%R -> (0 < ty)%R -> (0 < tz)%R ->
  exists a b c : R,
    Host.calcScaling s = (Host.with_modelScale [a; b; c] s, inr tt) /\
    (1 <= a)%R /\ (1 <= b)%R /\ (1 <= c)%R /\
    (a = 1 \/ b = 1 \/ c = 1)%R /\
    (a * (IZR rx * tx) = b * (IZR ry * ty))%R /\
    (b * (IZR ry * ty) = c * (IZR rz * tz))%R.
Proof.
  intros Hd Hres Hth Hrx Hry Hrz Htx Hty Htz.
  unfold Host.calcScaling, Host.bind, Host.get, Host.modify, Host.ret.
  rewrite Hd, Hres, Hth. cbn [negb].
  apply IZR_le in Hrx, Hry, Hrz.
  set (sx := (IZR rx * (tx * (1 / tx)))%R).
  set (sy := (IZR ry * (ty * (1 / tx)))%R).
  set (sz := (IZR rz * (tz * (1 / tx)))%R).
  assert (Hsx : (sx * tx = IZR rx * tx)%R) by (subst sx; field; lra).
  assert (Hsy : (sy * tx = IZR ry * ty)%R) by (subst sy; field; lra).
  assert (Hsz : (sz * tx = IZR rz * tz)%R) by (subst sz; field; lra).
  assert (Px : (0 < sx)%R) by nra.
  assert (Py : (0 < sy)%R) by nra.
  assert (Pz : (0 < sz)%R) by nra.
  set (m := Rmax sx (Rmax sy sz)).
  assert (Hm : (sx <= m /\ sy <= m /\ sz <= m
                /\ (m = sx \/ m = sy \/ m = sz))%R).
  { subst m. unfold Rmax.
    destruct (Rle_dec sy sz), (Rle_dec sx sz), (Rle_dec sx sy);
      repeat split; try lra; auto. }
  destruct Hm as (Mx & My & Mz & Hmax).
  assert (Hdiv : forall d, (0 < d)%R -> (m / d * d = m)%R)
    by (intros d Hd0; field; lra).
  pose proof (Hdiv sx Px) as Ex. pose proof (Hdiv sy Py) as Ey.
  pose proof (Hdiv sz Pz) as Ez.
  exists (m / sx)%R, (m / sy)%R, (m / sz)%R.
  split; [reflexivity|].
  set (a := (m / sx)%R) in *. set (b := (m / sy)%R) in *.
  set (c := (m / sz)%R) in *.
  assert (Ha : (1 <= a)%R) by nra.
  assert (Hb : (1 <= b)%R) by nra.
  assert (Hc : (1 <= c)%R) by nra.
  repeat split; try assumption.
  - destruct Hmax as [E|[E|E]]; [left | right; left | right; right]; nra.
  - rewrite <- Hsx, <- Hsy. nra.
  - rewrite <- Hsy, <- Hsz. nra.
Qed.

Lemma calcScaling_fits_witness :
  exists a b c : R,
    Host.calcScaling Examples.loaded
    = (Host.with_modelScale [a; b; c] Examples.loaded, inr tt) /\
    (1 <= a)%R /\ (1 <= b)%R /\ (1 <= c)%R /\
    (a = 1 \/ b = 1 \/ c = 1)%R /\
    (a * (IZR 1 * 1) = b * (IZR 1 * 1))%R /\
    (b * (IZR 1 * 1) = c * (IZR 1 * 1))%R.
Proof.
  apply (calcScaling_fits Examples.loaded 1 1 1 1 1 1 1);
    try reflexivity; try lia; lra.
Defined.

(** X23: with data loaded, [setTimestep] keeps the time step below the
    number of time steps of the data set: a request at or beyond that
    number changes nothing, any other request is stored and sets the
    iteration counter and its bound copy to 0. *)
Theorem setTimestep_in_range (s : Host.VolumeRenderCL) (t : Z) :
  Host.has_data (Host._dr s) = true ->
  let steps := snd (Host.volume_res (Host._prop (Host._dr s))) in
  let s' := fst (Host.setTimestep t s) in
  snd (Host.setTimestep t s) = inr tt /\
  (steps <= t -> s' = s) /\
  (t < steps ->
   Host._timestep s' = t /\ Host.counter s' = 0 /\ Host.boundCounter s' = 0) /\
  (Host._timestep s < steps -> Host._timestep s' < steps).
Proof.
  intros Hd steps s'. subst steps s'.
  unfold Host.setTimestep, Host.bind, Host.get.
  destruct (Host.volume_res (Host._prop (Host._dr s))) as [[[rx ry] rz] rt].
  cbn [snd]. rewrite Hd. cbn [andb].
  destruct (rt <=? t) eqn:E; [apply Z.leb_le in E | apply Z.leb_gt in E].
  - cbn. repeat split; auto; lia.
  - cbn. repeat split; auto; lia.
Qed.

Lemma setTimestep_in_range_witness :
  let steps := snd (Host.volume_res (Host._prop (Host._dr Examples.loaded))) in
  let s' := fst (Host.setTimestep 5 Examples.loaded) in
  snd (Host.setTimestep 5 Examples.loaded) = inr tt /\
  (steps <= 5 -> s' = Examples.loaded) /\
  (5 < steps ->
   Host._timestep s' = 5 /\ Host.counter s' = 0 /\ Host.boundCounter s' = 0) /\
  (Host._timestep Examples.loaded < steps -> Host._timestep s' < steps).
Proof.
  apply (setTimestep_in_range Examples.loaded 5).
  vm_compute. reflexivity.
Defined.

Section HostBricks.

Import Host.

Lemma brickLoop_cons (ty : channel_type) (dim : Z * Z * Z) (i : nat)
    (rest : list nat) (s : VolumeRenderCL) :
  let s1 :=
    with_bricksMem
      (_bricksMem s ++ [{| brick_type := ty; brick_dim := dim;
                           brick_of := i |}])%list s in
  brickLoop ty dim (i :: rest) s
  = if (List.length (_volumesMem s1) <=? i)%nat
       || (List.length (_bricksMem s1) <=? i)%nat
    then (s1, inl (runtime_error
                     "Error loading timeseries data: size mismatch."))
    else brickLoop ty dim rest s1.
Proof.
  cbn [brickLoop].
  cbv beta iota zeta delta [bind modify setMemObjectsBrickGen get throw ret].
  destruct (_ || _); reflexivity.
Qed.

(** The loop of [generateBricks] from time step [a] on, with [a] brick
    images made so far and at least [a] volumes on the device. *)
Lemma brickLoop_run (ty : channel_type) (dim : Z * Z * Z) (n : nat) :
  forall (a : nat) (s : VolumeRenderCL),
    List.length (_bricksMem s) = a ->
    (a <= List.length (_volumesMem s))%nat ->
    let s' := fst (brickLoop ty dim (seq a n) s) in
    let r := snd (brickLoop ty dim (seq a n) s) in
    _volumesMem s' = _volumesMem s /\
    if (a + n <=? List.length (_volumesMem s))%nat
    then r = inr tt /\
         _bricksMem s'
         = (_bricksMem s
            ++ map (fun i => {| brick_type := ty; brick_dim := dim;
                                brick_of := i |}) (seq a n))%list
    else r = inl (runtime_error
                    "Error loading timeseries data: size mismatch.") /\
         List.length (_bricksMem s') = S (List.length (_volumesMem s)).
Proof.
  induction n as [|n IH]; intros a s Ha Hle; cbn zeta.
  - cbn [seq brickLoop map]. unfold ret. cbn [fst snd].
    split; [reflexivity|].
    replace (a + 0 <=? List.length (_volumesMem s))%nat with true
      by (symmetry; apply Nat.leb_le; lia).
    rewrite app_nil_r. auto.
  - cbn [seq map]. rewrite brickLoop_cons. cbv zeta.
    set (s1 := with_bricksMem _ s).
    assert (Hb1 : List.length (_bricksMem s1) = S a).
    { subst s1. cbn [_bricksMem with_bricksMem]. rewrite length_app.
      cbn [List.length]. lia. }
    assert (Hv1 : _volumesMem s1 = _volumesMem s) by reflexivity.
    rewrite Hv1, Hb1.
    replace (S a <=? a)%nat with false by (symmetry; apply Nat.leb_gt; lia).
    rewrite orb_false_r.
    destruct (List.length (_volumesMem s) <=? a)%nat eqn:E.
    + apply Nat.leb_le in E. cbn [fst snd].
      split; [exact Hv1|].
      replace (a + S n <=? List.length (_volumesMem s))%nat with false
        by (symmetry; apply Nat.leb_gt; lia).
      split; [reflexivity|]. rewrite Hb1. lia.
    + apply Nat.leb_gt in E.
      specialize (IH (S a) s1 Hb1). rewrite Hv1 in IH.
      specialize (IH ltac:(lia)). cbn zeta in IH.
      destruct IH as [Hv IH]. split; [exact Hv|].
      replace (a + S n)%nat with (S a + n)%nat by lia.
      destruct (S a + n <=? List.length (_volumesMem s))%nat.
      * destruct IH as [Hr Hb]. split; [exact Hr|].
        rewrite Hb. subst s1. cbn [_bricksMem with_bricksMem].
        rewrite <- app_assoc. reflexivity.
      * exact IH.
Qed.

End HostBricks.

(** X24: the host's [generateBricks] on loaded data of a known sample
    format.  When the device holds a volume for every raw file, it returns
    and leaves one brick image per raw file, in the order of the time
    steps, each of the size the brick edge gives; when volumes are missing
    it throws the size-mismatch error at the first time step without a
    volume, with the brick images made so far left in place. *)
Theorem generateBricks_per_timestep (s : Host.VolumeRenderCL)
    (rx ry rz rt : Z) (ty : Host.channel_type) (m : Z) :
  Host.has_data (Host._dr s) = true ->
  Host.volume_res (Host._prop (Host._dr s)) = (rx, ry, rz, rt) ->
  Host.dataTypeOf (Host.format (Host._prop (Host._dr s))) = Some (ty, m) ->
  let files := List.length (Host.raw_file_names (Host._prop (Host._dr s))) in
  let volumes := List.length (Host._volumesMem s) in
  let dim :=
    (Host.bricksTexSize rx, Host.bricksTexSize ry, Host.bricksTexSize rz) in
  let s' := fst (Host.generateBricks s) in
  let r := snd (Host.generateBricks s) in
  Host._volumesMem s' = Host._volumesMem s /\
  if (files <=? volumes)%nat
  then r = inr tt /\
       Host._bricksMem s'
       = map (fun i => {| Host.brick_type := ty; Host.brick_dim := dim;
                          Host.brick_of := i |}) (seq 0 files)
  else r = inl (Host.runtime_error
                  "Error loading timeseries data: size mismatch.") /\
       List.length (Host._bricksMem s') = S volumes.
Proof.
  intros Hd Hres Hf files volumes dim s' r. subst s' r.
  cbv beta iota zeta delta
    [Host.generateBricks Host.bind Host.get Host.modify Host.setRaycastArgs
     Host.ret Host.throw].
  rewrite Hd, Hres, Hf. cbn [negb].
  match goal with
  | |- context [Host.brickLoop ty ?d ?l ?s1] =>
      pose proof (brickLoop_run ty d files 0 s1 eq_refl (Nat.le_0_l _)) as H;
      cbn zeta in H
  end.
  exact H.
Qed.

Lemma generateBricks_per_timestep_witness :
  let s' := fst (Host.generateBricks Examples.loaded) in
  Host._volumesMem s' = Host._volumesMem Examples.loaded /\
  if (1 <=? 1)%nat
  then snd (Host.generateBricks Examples.loaded) = inr tt /\
       Host._bricksMem s'
       = map (fun i => {| Host.brick_type := Host.CL_UNORM_INT8;
                          Host.brick_dim :=
                            (Host.bricksTexSize 1, Host.bricksTexSize 1,
                             Host.bricksTexSize 1);
                          Host.brick_of := i |}) (seq 0 1)
  else snd (Host.generateBricks Examples.loaded)
       = inl (Host.runtime_error
                "Error loading timeseries data: size mismatch.") /\
       List.length (Host._bricksMem s') = 2%nat.
Proof.
  apply (generateBricks_per_timestep Examples.loaded 1 1 1 1
           Host.CL_UNORM_INT8 1); reflexivity.
Defined.

(** ** The host class: upload of the volumes *)

Section Upload.

Import Host.




End Upload.







(** ** The host class: calls without data, failed loads, a new transfer
    function *)

(** X27 (volumerendercl.cpp, the [if (!_dr.has_data()) return;] guards):
    while the reader holds no data, [updateView], [setTransferFunction],
    [setTffPrefixSum], [generateBricks], [calcScaling] and [volDataToCLmem]
    return without an error and leave the whole object as it was; a new
    view matrix, transfer function or prefix sum given then is dropped. *)
Theorem no_data_no_effect (s : Host.VolumeRenderCL) (view : list R)
    (tff : list byte) (prefix : list Z) (volumeData : list (list byte)) :
  Host.has_data (Host._dr s) = false ->
  Host.updateView view s = (s, inr tt) /\
  Host.setTransferFunction tff s = (s, inr tt) /\
  Host.setTffPrefixSum prefix s = (s, inr tt) /\
  Host.generateBricks s = (s, inr tt) /\
  Host.calcScaling s = (s, inr tt) /\
  Host.volDataToCLmem volumeData s = (s, inr tt).
Proof.
  intros Hd.
  repeat split;
    cbv beta iota delta
      [Host.updateView Host.setTransferFunction Host.setTffPrefixSum
       Host.generateBricks Host.calcScaling Host.volDataToCLmem
       Host.bind Host.get];
    rewrite Hd; reflexivity.
Qed.

Lemma no_data_no_effect_witness :
  Host.updateView [1%R] Examples.fresh = (Examples.fresh, inr tt) /\
  Host.setTransferFunction Examples.tff2 Examples.fresh
  = (Examples.fresh, inr tt).
Proof.
  destruct (no_data_no_effect Examples.fresh [1%R] Examples.tff2 [] []
              eq_refl) as (Hv & Ht & _).
  split; [exact Hv | exact Ht].
Defined.



Section HostTff.

Import Host.

Lemma brickLoop_ok (ty : channel_type) (dim : Z * Z * Z) (n : nat) :
  forall (a : nat) (s : VolumeRenderCL),
    List.length (_bricksMem s) = a ->
    (a + n <= List.length (_volumesMem s))%nat ->
    brickLoop ty dim (seq a n) s
    = (with_bricksMem
         (_bricksMem s
          ++ map (fun i => {| brick_type := ty; brick_dim := dim;
                              brick_of := i |}) (seq a n))%list s, inr tt).
Proof.
  induction n as [|n IH]; intros a s Ha Hle.
  - cbn [seq brickLoop map]. unfold ret. rewrite app_nil_r.
    destruct s; reflexivity.
  - cbn [seq map]. rewrite brickLoop_cons. cbv zeta.
    set (s1 := with_bricksMem _ s).
    assert (Hb1 : List.length (_bricksMem s1) = S a).
    { subst s1. cbn [_bricksMem with_bricksMem]. rewrite length_app.
      cbn [List.length]. lia. }
    assert (Hv1 : _volumesMem s1 = _volumesMem s) by reflexivity.
    replace (List.length (_volumesMem s1) <=? a)%nat with false
      by (symmetry; apply Nat.leb_gt; rewrite Hv1; lia).
    replace (List.length (_bricksMem s1) <=? a)%nat with false
      by (symmetry; apply Nat.leb_gt; lia).
    cbn [orb].
    rewrite (IH (S a) s1 Hb1) by (rewrite Hv1; lia).
    subst s1. cbn [_bricksMem with_bricksMem].
    rewrite <- app_assoc. reflexivity.
Qed.

End HostTff.

(** X29 (volumerendercl.cpp, [setTransferFunction] over [generateBricks],
    [setTffPrefixSum] and [resetIteration]): on loaded data of a known
    sample format, with a volume on the device for every raw file, a new
    transfer function is taken over as a whole: the call returns, the table
    is stored as given, the prefix sum stored is the one of its alpha
    bytes, there is one brick image per raw file again, the brick
    resolution bound to the kernel is the volume resolution over the brick
    edge, and the iteration counter is zero on the host and in the bound
    argument.  The volumes are not touched. *)
Theorem setTransferFunction_after_load (s : Host.VolumeRenderCL)
    (tff : list byte) (rx ry rz rt : Z) (ty : Host.channel_type) (m : Z) :
  Host.has_data (Host._dr s) = true ->
  Host.volume_res (Host._prop (Host._dr s)) = (rx, ry, rz, rt) ->
  Host.dataTypeOf (Host.format (Host._prop (Host._dr s))) = Some (ty, m) ->
  (List.length (Host.raw_file_names (Host._prop (Host._dr s)))
   <= List.length (Host._volumesMem s))%nat ->
  let s' := fst (Host.setTransferFunction tff s) in
  snd (Host.setTransferFunction tff s) = inr tt /\
  Host._tffMem s' = tff /\
  Host._tffPrefixMem s' = Tff.prefixSum tff /\
  Host._bricksMem s'
  = map (fun i => {| Host.brick_type := ty;
                     Host.brick_dim :=
                       (Host.bricksTexSize rx, Host.bricksTexSize ry,
                        Host.bricksTexSize rz);
                     Host.brick_of := i |})
        (seq 0 (List.length (Host.raw_file_names (Host._prop (Host._dr s))))) /\
  Host.brickRes (Host.arg_RAYCAST (Host._raycastKernel s'))
  = CL.mk3 (IZR rx / IZR (Host.brickEdge rx))
           (IZR ry / IZR (Host.brickEdge ry))
           (IZR rz / IZR (Host.brickEdge rz)) /\
  Host.counter s' = 0%Z /\
  Host.boundCounter s' = 0%Z /\
  Host._volumesMem s' = Host._volumesMem s.
Proof.
  intros Hd Hres Hf Hn s'. subst s'.
  cbv beta iota zeta delta
    [Host.setTransferFunction Host.generateBricks Host.bind Host.get
     Host.modify Host.setRaycastArgs Host.ret Host.throw].
  rewrite Hd. cbn [negb].
  cbn [Host.with_tffMem Host._dr]. rewrite Hd, Hres, Hf. cbn [negb].
  rewrite brickLoop_ok; [|reflexivity|exact Hn].
  cbv beta iota zeta delta
    [Host.setTffPrefixSum Host.resetIteration Host.setRenderingArgs
     Host.bind Host.get Host.modify].
  cbn [Host.with_tffMem Host.with_bricksMem Host.with_kernel Host.with_raycast
       Host._dr].
  rewrite Hd. cbn. repeat split.
Qed.

Lemma setTransferFunction_after_load_witness :
  let s' := fst (Host.setTransferFunction Examples.tff2 Examples.frame5) in
  snd (Host.setTransferFunction Examples.tff2 Examples.frame5) = inr tt /\
  Host._tffMem s' = Examples.tff2 /\
  Host._tffPrefixMem s' = [0; 255]%Z /\
  List.length (Host._bricksMem s') = 1%nat /\
  Host.counter s' = 0%Z.
Proof.
  intros s'.
  destruct (setTransferFunction_after_load Examples.frame5 Examples.tff2
              1 1 1 1 Host.CL_UNORM_INT8 1
              eq_refl eq_refl eq_refl (le_n 1))
    as (Hr & Ht & Hp & Hb & _ & Hc & _).
  fold s' in Ht, Hp, Hb, Hc.
  split; [exact Hr|]. split; [exact Ht|]. split; [|split].
  - rewrite Hp. reflexivity.
  - rewrite Hb. reflexivity.
  - exact Hc.
Defined.
